(** * gitboard: the export pipeline, verified over a shallow embedding

    The Go sources embedded here are
    - [export]   (NormaliseTags, RepoToBookmark, Exporter.Run),
    - [github]   (the StarredRepo record),
    - [pinboard] (the Bookmark record, the rate limiter of AddBookmark),
    - [main]     (progressBar).

    Go values are modelled as follows: [int] is a [Z] kept in the 64-bit
    two's-complement range by [Go.wrap]; a [string] is a Rocq [string] (a
    sequence of bytes); a slice is either the nil slice or a list; a
    [map[string]bool] is a [gmap string bool] read with Go's zero-value
    indexing; an [error] is an [option], [None] being [nil]. *)

From Stdlib Require Import ZArith Ascii String List Lia.
From stdpp Require Import base tactics option list gmap strings.

Local Open Scope string_scope.
Local Open Scope list_scope.
Local Open Scope Z_scope.

(** ** The Go fragments the program relies on *)

Module Go.

(** *** int: 64-bit two's complement *)

Definition int_min : Z := - 2 ^ 63.
Definition int_max : Z := 2 ^ 63 - 1.

Definition is_int (z : Z) : Prop := int_min <= z <= int_max.

Definition wrap (z : Z) : Z := (z + 2 ^ 63) mod 2 ^ 64 - 2 ^ 63.

Definition int_add (a b : Z) : Z := wrap (a + b).
Definition int_sub (a b : Z) : Z := wrap (a - b).
Definition int_mul (a b : Z) : Z := wrap (a * b).

(** *** Run-time panics *)

Inductive panic : Type :=
| DivideByZero          (* runtime error: integer divide by zero *)
| NegativeRepeatCount   (* strings: negative Repeat count *)
| RepeatOverflow        (* strings: Repeat output length overflow *)
| IndexOutOfRange.      (* runtime error: index out of range *)

Inductive outcome (A : Type) : Type :=
| Ok (a : A)
| Panic (p : panic).
Arguments Ok {A} a.
Arguments Panic {A} p.

Definition obind {A B} (m : outcome A) (k : A -> outcome B) : outcome B :=
  match m with
  | Ok a => k a
  | Panic p => Panic p
  end.

(** [a / b] on int: truncated towards zero, panics on a zero divisor; the
    one overflowing quotient, [int_min / -1], wraps back to [int_min]. *)
Definition int_quo (a b : Z) : outcome Z :=
  if b =? 0 then Panic DivideByZero else Ok (wrap (Z.quot a b)).

(** *** Slices: nil or backed by a sequence *)

Inductive slice (A : Type) : Type :=
| NilSlice
| Slice (l : list A).
Arguments NilSlice {A}.
Arguments Slice {A} l.

Definition elems {A} (s : slice A) : list A :=
  match s with
  | NilSlice => []
  | Slice l => l
  end.

Definition len {A} (s : slice A) : Z := Z.of_nat (length (elems s)).

Definition is_nil {A} (s : slice A) : bool :=
  match s with
  | NilSlice => true
  | Slice _ => false
  end.

(** [append(s, t...)]: nil only when [s] is nil and [t] has no element. *)
Definition append {A} (s t : slice A) : slice A :=
  match s, elems t with
  | NilSlice, [] => NilSlice
  | _, _ => Slice (elems s ++ elems t)
  end.

(** [s[i] = v], with the bounds check of the run time. *)
Definition set_index {A} (s : list A) (i : nat) (v : A) : outcome (list A) :=
  if decide (i < length s)%nat then Ok (<[i := v]> s) else Panic IndexOutOfRange.

(** *** Strings: byte sequences *)

Definition byte_val (c : ascii) : Z := Z.of_N (N_of_ascii c).

Fixpoint string_map (f : ascii -> ascii) (s : string) : string :=
  match s with
  | EmptyString => EmptyString
  | String c s' => String (f c) (string_map f s')
  end.

Fixpoint has_byte (b : ascii) (s : string) : bool :=
  match s with
  | EmptyString => false
  | String c s' => if Ascii.eqb c b then true else has_byte b s'
  end.

(** [strings.ReplaceAll(s, old, new)] for a non-empty [old] (the program
    passes one space): the non-overlapping occurrences of [old], leftmost
    first, are replaced by [new].  [skip] counts the bytes of a matched
    occurrence still to be dropped. *)
Fixpoint replace_from (old new : string) (skip : nat) (s : string) : string :=
  match s with
  | EmptyString => EmptyString
  | String c s' =>
      match skip with
      | S k => replace_from old new k s'
      | O =>
          if String.prefix old s
          then new +:+ replace_from old new (Nat.pred (String.length old)) s'
          else String c (replace_from old new 0 s')
      end
  end.

Definition ReplaceAll (s old new : string) : string := replace_from old new 0 s.

(** [strings.Repeat(s, count)]. *)
Fixpoint repeat_string (s : string) (n : nat) : string :=
  match n with
  | O => ""
  | S k => s +:+ repeat_string s k
  end.

Definition Repeat (s : string) (count : Z) : outcome string :=
  if count <? 0 then Panic NegativeRepeatCount
  else if int_max <? Z.of_nat (String.length s) * count then Panic RepeatOverflow
  else Ok (repeat_string s (Z.to_nat count)).

(** [strings.ToLower].  Go takes a fast path when every byte is below
    [utf8.RuneSelf] (0x80): the bytes 'A'..'Z' are shifted by ['a' - 'A'].
    Otherwise it returns [strings.Map(unicode.ToLower, s)], which reads the
    Unicode case tables; those are not part of this repository and are taken
    as the parameter [unicode_Map_ToLower]. *)
Class UnicodeTables : Type :=
  { unicode_Map_ToLower : string -> string }.

Definition RuneSelf : Z := 128.

Definition is_upper (c : ascii) : bool :=
  (byte_val "A" <=? byte_val c) && (byte_val c <=? byte_val "Z").

Definition lower_byte (c : ascii) : ascii :=
  if is_upper c
  then ascii_of_N (Z.to_N (byte_val c + (byte_val "a" - byte_val "A")))
  else c.

Fixpoint isASCII (s : string) : bool :=
  match s with
  | EmptyString => true
  | String c s' => if RuneSelf <=? byte_val c then false else isASCII s'
  end.

Fixpoint hasUpper (s : string) : bool :=
  match s with
  | EmptyString => false
  | String c s' => is_upper c || hasUpper s'
  end.

Definition ToLower `{UnicodeTables} (s : string) : string :=
  if isASCII s
  then (if hasUpper s then string_map lower_byte s else s)
  else unicode_Map_ToLower s.

(** What the case tables guarantee for the space byte: lower-casing never
    produces a space that was not in its input (a multi-byte UTF-8 sequence
    has no byte below 0x80, and no rune lower-cases to U+0020). *)
Class UnicodeNoSpace `{UnicodeTables} : Prop :=
  unicode_no_space :
    forall s, has_byte " " (unicode_Map_ToLower s) = true -> has_byte " " s = true.

(** *** Calls into the outside world

    A computation steps a world [W] and logs the calls it makes as events
    [Ev], in the order it makes them. *)
Definition M (W Ev A : Type) : Type := W -> A * W * list Ev.

#[export] Instance M_ret {W Ev} : MRet (M W Ev) := fun A a w => (a, w, []).
#[export] Instance M_bind {W Ev} : MBind (M W Ev) := fun A B k m w =>
  let '(a, w1, t1) := m w in
  let '(b, w2, t2) := k a w1 in
  (b, w2, t1 ++ t2).

#[export] Instance outcome_ret : MRet outcome := fun A a => Ok a.
#[export] Instance outcome_bind : MBind outcome := fun A B k m => obind m k.

(** [strings.Join(elems, sep)]. *)
Fixpoint Join (l : list string) (sep : string) : string :=
  match l with
  | [] => ""
  | [s] => s
  | s :: rest => s +:+ sep +:+ Join rest sep
  end.

(** [map[string]bool] indexing: the zero value [false] for an absent key. *)
Definition map_index (m : gmap string bool) (k : string) : bool :=
  default false (m !! k).

End Go.

Import Go.

(** ** package github: the record the fetcher yields *)

Module github.

Record StarredRepo : Type :=
  { FullName : string;
    HTMLURL : string;
    Description : string;
    Topics : slice string;
    StarredAt : Z (* time.Time, an instant in nanoseconds *) }.

End github.

(** ** package pinboard *)

Module pinboard.

Record Bookmark : Type :=
  { URL : string;
    Title : string;
    Description : string;
    Tags : slice string;
    Private : bool;
    ToRead : bool }.

(** *** Error values

    The two errors a done context reports, errors built by [fmt.Errorf], and
    errors handed up by net/http, io and encoding/json. *)
Inductive context_error : Type := Canceled | DeadlineExceeded.

Inductive error : Type :=
| ContextError (e : context_error)
| LibraryError (msg : string)
| Errorf (format : string) (args : list fmt_arg)
with fmt_arg : Type :=
| ArgInt (n : Z)
| ArgString (s : string)
| ArgError (e : error).

(** A [context.Context] as the client sees it: the instant at which its
    [Done] channel is closed (never, for [None]) and the error [Err] reports
    from then on. *)
Record Context : Type :=
  { Done : option Z;
    Err : context_error }.

Record Client : Type :=
  { authToken : string;
    baseURL : string;
    lastCall : Z   (* time.Time in nanoseconds; the zero Time is 0 *);
    minDelay : Z   (* time.Duration in nanoseconds *) }.

Definition Second : Z := 1000000000.

Definition NewClient (authToken : string) : Client :=
  {| authToken := authToken;
     baseURL := "https://api.pinboard.in/v1";
     lastCall := 0;
     minDelay := 3 * Second |}.

Definition IsZero (t : Z) : bool := t =? 0.

Record Request : Type :=
  { Method : string;
    FullURL : string }.

Record Response : Type :=
  { StatusCode : Z;
    Body : error + string (* what io.ReadAll(resp.Body) gives *) }.

Definition StatusOK : Z := 200.

(** The two cases of the [select] in [AddBookmark]. *)
Inductive select_case : Type := CaseDone | CaseTimer.

(** A [select] entered at instant [t0] over a channel closed at [done] and a
    timer channel that fires at [fire]: it blocks until the first of the two
    is ready and takes that case; when both become ready at the same instant
    Go picks either, here [tie].  The result is the case taken and the
    instant at which the goroutine resumes. *)
Definition select_done_timer (t0 : Z) (done : option Z) (fire : Z)
    (tie : select_case) : select_case * Z :=
  let tf := Z.max t0 fire in
  match done with
  | None => (CaseTimer, tf)
  | Some d =>
      let td := Z.max t0 d in
      if td <? tf then (CaseDone, td)
      else if tf <? td then (CaseTimer, tf)
      else (tie, tf)
  end.

Inductive Event : Type :=
| Resumed (c : select_case) (at_instant : Z)   (* the select returned *)
| HTTPDo (req : Request).                      (* httpClient.Do(req) *)

Section Client.
(** The world of the client: a clock, a scheduler that resumes a blocked
    goroutine, and the HTTP stack.  net/url, net/http and encoding/json
    are outside this repository and enter as parameters. *)
Context {W : Type}.
Variable time_Now : W -> Z.
Variable resume_at : Z -> W -> W.
Variable select_tie : W -> select_case.
Variable Values_Encode : gmap string string -> string.
Variable NewRequestWithContext : Context -> string -> string -> error + Request.
Variable httpClient_Do : Request -> W -> (error + Response) * W.
Variable json_result_code : string -> error + string.

Definition now : M W Event Z := fun w => (time_Now w, w, []).

(** [timer := time.NewTimer(d); select { case <-ctx.Done(): ...; case <-timer.C: }] *)
Definition select_Done_or_timer (ctx : Context) (d : Z) : M W Event select_case :=
  fun w =>
    let t0 := time_Now w in
    let '(c, t) := select_done_timer t0 (Done ctx) (t0 + d) (select_tie w) in
    (c, resume_at t w, [Resumed c t]).

Definition Do (req : Request) : M W Event (error + Response) :=
  fun w => let '(r, w') := httpClient_Do req w in (r, w', [HTTPDo req]).

Definition add_query (c : Client) (b : Bookmark) : gmap string string :=
  let q : gmap string string := ∅ in
  let q := <["auth_token" := authToken c]> q in
  let q := <["url" := URL b]> q in
  let q := <["description" := Title b]> q in
  let q := <["extended" := Description b]> q in
  let q := <["tags" := Join (elems (Tags b)) " "]> q in
  let q := <["replace" := "yes"]> q in
  let q := <["format" := "json"]> q in
  let q := <["shared" := if Private b then "no" else "yes"]> q in
  <["toread" := if ToRead b then "yes" else "no"]> q.

(** The rate limiter at the head of [AddBookmark] (the [if] on
    [c.lastCall]): [Some err] when the call returns from inside the
    [select].  [time.Since(c.lastCall)] is the clock's reading less
    [lastCall]. *)
Definition rate_limit (c : Client) (ctx : Context) : M W Event (option error) :=
  if negb (IsZero (lastCall c)) then
    t ← now;
    let elapsed := t - lastCall c in
    if elapsed <? minDelay c then
      k ← select_Done_or_timer ctx (minDelay c - elapsed);
      match k with
      | CaseDone => mret (Some (ContextError (Err ctx)))
      | CaseTimer => mret None
      end
    else mret None
  else mret None.

(** The rest of [AddBookmark] after [c.lastCall = time.Now()]: the request
    and the reading of its answer. *)
Definition send (c : Client) (ctx : Context) (b : Bookmark) : M W Event (option error) :=
  let apiURL := baseURL c +:+ "/posts/add" in
  let fullURL := apiURL +:+ "?" +:+ Values_Encode (add_query c b) in
  match NewRequestWithContext ctx "GET" fullURL with
  | inl err => mret (Some (Errorf "failed to create request: %w" [ArgError err]))
  | inr req =>
      r ← Do req;
      match r with
      | inl err => mret (Some (Errorf "failed to send request: %w" [ArgError err]))
      | inr resp =>
          match Body resp with
          | inl err => mret (Some (Errorf "failed to read response: %w" [ArgError err]))
          | inr body =>
              if negb (StatusCode resp =? StatusOK)
              then mret (Some (Errorf "API returned status %d: %s"
                                 [ArgInt (StatusCode resp); ArgString body]))
              else
                match json_result_code body with
                | inl err =>
                    mret (Some (Errorf "failed to parse response: %w" [ArgError err]))
                | inr code =>
                    if negb (String.eqb code "done")
                    then mret (Some (Errorf "API error: result_code was %q"
                                       [ArgString code]))
                    else mret None
                end
          end
      end
  end.

(** [AddBookmark] returns its error and the client as it leaves it. *)
Definition AddBookmark (c : Client) (ctx : Context) (b : Bookmark)
  : M W Event (option error * Client) :=
  r ← rate_limit c ctx;
  match r with
  | Some err => mret (Some err, c)
  | None =>
      t ← now;
      let c := {| authToken := authToken c; baseURL := baseURL c;
                  lastCall := t; minDelay := minDelay c |} in
      err ← send c ctx b;
      mret (err, c)
  end.
End Client.

End pinboard.

(** ** package export *)

Module Progress.
Record t : Type :=
  { Current : Z;
    Total : Z;
    RepoName : string;
    Skipped : bool }.
End Progress.

Module Result.
Record t : Type :=
  { Total : Z;
    Added : Z;
    Skipped : Z }.

(** The zero value [Result{}]. *)
Definition zero : t := {| Total := 0; Added := 0; Skipped := 0 |}.
End Result.

Module export.

(** *** The mapper *)

Section Mapper.
Context `{UnicodeTables}.

(** The body of [for i, topic := range topics { normalised[i] = ... }]:
    [i] is the index of the head of [topics].  The index assigned is
    always below [len(normalised)], so the assignment is written without
    its bounds check; [NormaliseTags_range_checked] is the same loop with
    the check, and lemma [NormaliseTags_range_in_bounds] shows that the
    check never fails. *)
Fixpoint NormaliseTags_range (i : nat) (topics normalised : list string)
  : list string :=
  match topics with
  | [] => normalised
  | topic :: rest =>
      NormaliseTags_range (S i) rest
        (<[i := ToLower (ReplaceAll topic " " "-")]> normalised)
  end.

Fixpoint NormaliseTags_range_checked (i : nat) (topics normalised : list string)
  : outcome (list string) :=
  match topics with
  | [] => Ok normalised
  | topic :: rest =>
      normalised ← set_index normalised i (ToLower (ReplaceAll topic " " "-"));
      NormaliseTags_range_checked (S i) rest normalised
  end.

Definition NormaliseTags (topics : slice string) : slice string :=
  if len topics =? 0 then Slice []
  else
    let normalised := replicate (length (elems topics)) "" in
    Slice (NormaliseTags_range 0 (elems topics) normalised).

Definition RepoToBookmark (repo : github.StarredRepo) : pinboard.Bookmark :=
  let tags := Slice ["github-repo"] in
  let normalisedTopics := NormaliseTags (github.Topics repo) in
  let tags := append tags normalisedTopics in
  {| pinboard.URL := github.HTMLURL repo;
     pinboard.Title := github.FullName repo;
     pinboard.Description := github.Description repo;
     pinboard.Tags := tags;
     pinboard.Private := true;
     pinboard.ToRead := false |}.
End Mapper.

(** *** The exporter

    [W] is the state of everything outside the exporter (the two clients and
    whatever the progress callback touches), [Ctx] the context value handed
    through to the clients, [Err] the type of non-nil error values; an
    [error] is [None] for [nil].  A call into a collaborator steps the world
    and is logged. *)

Section Exporter.
Context `{UnicodeTables}.
Context {Ctx W Err : Type}.

Record GitHubClient : Type :=
  { GetStarredRepos : Ctx -> W -> slice github.StarredRepo * option Err * W }.

(** A nil map and an empty map index alike, so the map a client returns
    is a [gmap], empty for nil. *)
Record PinboardClient : Type :=
  { AddBookmark : Ctx -> pinboard.Bookmark -> W -> option Err * W;
    GetBookmarkURLsByTag :
      Ctx -> string -> W -> gmap string bool * option Err * W }.

Record Exporter : Type :=
  { gh : GitHubClient;
    pb : PinboardClient;
    DryRun : bool;
    OnProgress : option (Progress.t -> W -> W) (* [None] for nil *) }.

Definition NewExporter (gh : GitHubClient) (pb : PinboardClient) : Exporter :=
  {| gh := gh; pb := pb; DryRun := false; OnProgress := None |}.

Inductive Event : Type :=
| CallGetStarredRepos
| CallGetBookmarkURLsByTag (tag : string)
| CallOnProgress (p : Progress.t)
| CallAddBookmark (b : pinboard.Bookmark) (err : option Err).

Definition call_GetStarredRepos (c : GitHubClient) (ctx : Ctx)
  : M W Event (slice github.StarredRepo * option Err) :=
  fun w => let '(r, w') := GetStarredRepos c ctx w in (r, w', [CallGetStarredRepos]).

Definition call_GetBookmarkURLsByTag (c : PinboardClient) (ctx : Ctx) (tag : string)
  : M W Event (gmap string bool * option Err) :=
  fun w =>
    let '(r, w') := GetBookmarkURLsByTag c ctx tag w in
    (r, w', [CallGetBookmarkURLsByTag tag]).

Definition call_AddBookmark (c : PinboardClient) (ctx : Ctx) (b : pinboard.Bookmark)
  : M W Event (option Err) :=
  fun w => let '(err, w') := AddBookmark c ctx b w in (err, w', [CallAddBookmark b err]).

Definition call_OnProgress (f : Progress.t -> W -> W) (p : Progress.t)
  : M W Event unit :=
  fun w => (tt, f p w, [CallOnProgress p]).

(** [for i, repo := range repos { ... }] followed by the final return;
    [i] is the index of the head of [repos]. *)
Fixpoint Run_range (e : Exporter) (ctx : Ctx) (existing : gmap string bool)
    (total : Z) (i added skipped : Z) (repos : list github.StarredRepo)
  : M W Event (Result.t * option Err) :=
  match repos with
  | [] =>
      mret ({| Result.Total := total; Result.Added := added;
               Result.Skipped := skipped |}, None)
  | repo :: rest =>
      let bookmark := RepoToBookmark repo in
      let isSkipped := map_index existing (pinboard.URL bookmark) in
      _ ← match OnProgress e with
          | Some f =>
              call_OnProgress f
                {| Progress.Current := int_add i 1;
                   Progress.Total := total;
                   Progress.RepoName := github.FullName repo;
                   Progress.Skipped := isSkipped |}
          | None => mret tt
          end;
      if isSkipped
      then Run_range e ctx existing total (i + 1) added (int_add skipped 1) rest
      else
        err ← (if negb (DryRun e)
               then call_AddBookmark (pb e) ctx bookmark
               else mret None);
        match err with
        | Some x =>
            mret ({| Result.Total := total; Result.Added := added;
                     Result.Skipped := skipped |}, Some x)
        | None =>
            Run_range e ctx existing total (i + 1) (int_add added 1) skipped rest
        end
  end.

Definition Run (e : Exporter) (ctx : Ctx) : M W Event (Result.t * option Err) :=
  '(repos, err) ← call_GetStarredRepos (gh e) ctx;
  match err with
  | Some x => mret (Result.zero, Some x)
  | None =>
      '(existing, err) ← call_GetBookmarkURLsByTag (pb e) ctx "github-repo";
      match err with
      | Some x => mret (Result.zero, Some x)
      | None =>
          let total := len repos in
          Run_range e ctx existing total 0 0 0 (elems repos)
      end
  end.
End Exporter.

Arguments GitHubClient : clear implicits.
Arguments PinboardClient : clear implicits.
Arguments Exporter : clear implicits.
Arguments Event : clear implicits.

End export.

(** ** package export, the test doubles of the test file *)

Module mockGitHubClient.
Record t : Type :=
  { repos : slice github.StarredRepo;
    err : option string }.
End mockGitHubClient.

Module mockPinboardClient.
Record t : Type :=
  { addedBookmarks : slice pinboard.Bookmark;
    existingURLs : option (gmap string bool) (* [None] for a nil map *);
    err : option string;
    getErr : option string }.
End mockPinboardClient.

Module export_test.

(** The objects a test sets up: the two mocks and the slice its progress
    callback appends to.  Errors are [errors.New] values, told apart by
    their message. *)
Record world : Type :=
  { ghClient : mockGitHubClient.t;
    pbClient : mockPinboardClient.t;
    progressCalls : slice Progress.t }.

Definition GetStarredRepos (ctx : unit) (w : world)
  : slice github.StarredRepo * option string * world :=
  (mockGitHubClient.repos (ghClient w), mockGitHubClient.err (ghClient w), w).

Definition AddBookmark (ctx : unit) (b : pinboard.Bookmark) (w : world)
  : option string * world :=
  let m := pbClient w in
  match mockPinboardClient.err m with
  | Some x => (Some x, w)
  | None =>
      (None,
       {| ghClient := ghClient w;
          pbClient :=
            {| mockPinboardClient.addedBookmarks :=
                 append (mockPinboardClient.addedBookmarks m) (Slice [b]);
               mockPinboardClient.existingURLs := mockPinboardClient.existingURLs m;
               mockPinboardClient.err := mockPinboardClient.err m;
               mockPinboardClient.getErr := mockPinboardClient.getErr m |};
          progressCalls := progressCalls w |})
  end.

Definition GetBookmarkURLsByTag (ctx : unit) (tag : string) (w : world)
  : gmap string bool * option string * world :=
  let m := pbClient w in
  match mockPinboardClient.getErr m with
  | Some x => (∅, Some x, w)
  | None =>
      match mockPinboardClient.existingURLs m with
      | None => (∅, None, w)
      | Some urls => (urls, None, w)
      end
  end.

Definition mock_gh : export.GitHubClient unit world string :=
  {| export.GetStarredRepos := GetStarredRepos |}.

Definition mock_pb : export.PinboardClient unit world string :=
  {| export.AddBookmark := AddBookmark;
     export.GetBookmarkURLsByTag := GetBookmarkURLsByTag |}.

(** [func(p Progress) { progressCalls = append(progressCalls, p) }] *)
Definition record_progress (p : Progress.t) (w : world) : world :=
  {| ghClient := ghClient w;
     pbClient := pbClient w;
     progressCalls := append (progressCalls w) (Slice [p]) |}.

Definition setup (repos : slice github.StarredRepo) (gh_err : option string)
    (existing : option (gmap string bool)) (add_err get_err : option string) : world :=
  {| ghClient := {| mockGitHubClient.repos := repos; mockGitHubClient.err := gh_err |};
     pbClient :=
       {| mockPinboardClient.addedBookmarks := NilSlice;
          mockPinboardClient.existingURLs := existing;
          mockPinboardClient.err := add_err;
          mockPinboardClient.getErr := get_err |};
     progressCalls := NilSlice |}.

(** Case tables for the tests: their topics are ASCII, so the Unicode path
    of [ToLower] is not taken; this instance leaves a string with a byte
    above 0x7F as it is, as Go does for well-formed text without cased
    runes. *)
Definition uncased : UnicodeTables := {| unicode_Map_ToLower := fun s => s |}.

Definition repo (name url : string) (topics : slice string) : github.StarredRepo :=
  {| github.FullName := name; github.HTMLURL := url; github.Description := "";
     github.Topics := topics; github.StarredAt := 0 |}.

(** The fixtures of TestRunSkipsExistingBookmarks and TestRunProgress. *)
Definition repo_go : github.StarredRepo :=
  repo "golang/go" "https://github.com/golang/go" (Slice ["language"]).
Definition repo_new : github.StarredRepo :=
  repo "user/new-repo" "https://github.com/user/new-repo" (Slice ["testing"]).
Definition repo_also : github.StarredRepo :=
  repo "user/also-existing" "https://github.com/user/also-existing" (Slice []).
Definition repo_one : github.StarredRepo :=
  repo "a/one" "https://github.com/a/one" NilSlice.
Definition repo_two : github.StarredRepo :=
  repo "b/two" "https://github.com/b/two" NilSlice.

Definition existingURLs : gmap string bool :=
  <["https://github.com/golang/go" := true]>
    (<["https://github.com/user/also-existing" := true]> ∅).

Definition exporter (dryRun : bool) (onProgress : option (Progress.t -> world -> world))
  : export.Exporter unit world string :=
  {| export.gh := mock_gh; export.pb := mock_pb;
     export.DryRun := dryRun; export.OnProgress := onProgress |}.

(** The four components of what a run returns and leaves behind. *)
Definition run_result (x : Result.t * option string * world * list (export.Event string))
  : Result.t := x.1.1.1.
Definition run_error (x : Result.t * option string * world * list (export.Event string))
  : option string := x.1.1.2.
Definition run_world (x : Result.t * option string * world * list (export.Event string))
  : world := x.1.2.
Definition run_trace (x : Result.t * option string * world * list (export.Event string))
  : list (export.Event string) := x.2.

End export_test.

(** ** package main *)

Module main.

Definition progressBar (current total width : Z) : outcome string :=
  if total =? 0 then
    spaces ← Repeat " " width;
    mret ("[" +:+ spaces +:+ "]")
  else
    filled ← int_quo (int_mul width current) total;
    let empty := int_sub width filled in
    bar ← Repeat "=" filled;
    rest ← Repeat " " empty;
    mret ("[" +:+ bar +:+ rest +:+ "]").

End main.

(** ** package pinboard, the set-up of TestRateLimitingRespectsContext

    The world is the reading of the clock; the server answers every request
    at once with status 200 and result code "done". *)

Module pinboard_test.

Definition time_Now (w : Z) : Z := w.
Definition resume_at (t : Z) (w : Z) : Z := t.
Definition select_tie (w : Z) : pinboard.select_case := pinboard.CaseTimer.
Definition Values_Encode (q : gmap string string) : string :=
  Join (map (fun kv => kv.1 +:+ "=" +:+ kv.2) (map_to_list q)) "&".
Definition NewRequestWithContext (ctx : pinboard.Context) (method url : string)
  : pinboard.error + pinboard.Request :=
  inr {| pinboard.Method := method; pinboard.FullURL := url |}.
Definition httpClient_Do (req : pinboard.Request) (w : Z)
  : (pinboard.error + pinboard.Response) * Z :=
  (inr {| pinboard.StatusCode := 200; pinboard.Body := inr "{}" |}, w).
Definition json_result_code (body : string) : pinboard.error + string := inr "done".

Definition AddBookmark :=
  pinboard.AddBookmark time_Now resume_at select_tie Values_Encode
    NewRequestWithContext httpClient_Do json_result_code.

Definition Millisecond : Z := 1000000.

(** The client after its first call, made at instant [t]. *)
Definition client (t : Z) : pinboard.Client :=
  {| pinboard.authToken := "test_token";
     pinboard.baseURL := "http://127.0.0.1";
     pinboard.lastCall := t;
     pinboard.minDelay := 5 * pinboard.Second |}.

(** [context.WithTimeout(context.Background(), 50*time.Millisecond)], made at
    instant [t]. *)
Definition ctx_timeout (t : Z) : pinboard.Context :=
  {| pinboard.Done := Some (t + 50 * Millisecond);
     pinboard.Err := pinboard.DeadlineExceeded |}.

(** [context.Background()]: never done. *)
Definition Background : pinboard.Context :=
  {| pinboard.Done := None; pinboard.Err := pinboard.Canceled |}.

Definition bookmark : pinboard.Bookmark :=
  {| pinboard.URL := "https://example.com"; pinboard.Title := "Test";
     pinboard.Description := ""; pinboard.Tags := NilSlice;
     pinboard.Private := false; pinboard.ToRead := false |}.

End pinboard_test.

(** ** More of Go's package strings *)

Module GoStrings.

(** [strings.Split(s, sep)] for a non-empty [sep] (the program passes ","
    and ";"): the pieces of [s] between the non-overlapping occurrences of
    [sep], leftmost first; one piece more than there are occurrences.
    [cur] is the piece being read, [skip] the bytes of a matched occurrence
    still to be dropped. *)
Fixpoint split_from (sep : string) (skip : nat) (cur : string) (s : string)
  : list string :=
  match s with
  | EmptyString => [cur]
  | String c s' =>
      match skip with
      | S k => split_from sep k cur s'
      | O =>
          if String.prefix sep s
          then cur :: split_from sep (Nat.pred (String.length sep)) "" s'
          else split_from sep 0 (cur +:+ String c "") s'
      end
  end.

Definition Split (s sep : string) : list string := split_from sep 0 "" s.

(** The bytes [asciiSpace] marks: tab, line feed, vertical tab, form feed,
    carriage return and space. *)
Definition is_ascii_space (c : ascii) : bool :=
  let n := byte_val c in
  (n =? 9) || (n =? 10) || (n =? 11) || (n =? 12) || (n =? 13) || (n =? 32).

Definition is_non_ascii (c : ascii) : bool := RuneSelf <=? byte_val c.

Fixpoint drop_left (p : ascii -> bool) (s : string) : string :=
  match s with
  | EmptyString => EmptyString
  | String c s' => if p c then drop_left p s' else s
  end.

(** [s] without its longest suffix of bytes that satisfy [p]. *)
Fixpoint drop_right (p : ascii -> bool) (s : string) : string :=
  match s with
  | EmptyString => EmptyString
  | String c s' =>
      match drop_right p s' with
      | EmptyString => if p c then EmptyString else String c EmptyString
      | rest => String c rest
      end
  end.

Definition first_byte (s : string) : option ascii :=
  match s with
  | EmptyString => None
  | String c _ => Some c
  end.

Fixpoint last_byte (s : string) : option ascii :=
  match s with
  | EmptyString => None
  | String c EmptyString => Some c
  | String _ s' => last_byte s'
  end.

(** [strings.TrimSpace].  Go scans the ASCII white space off the front; if
    the byte it stops at is not ASCII it returns [TrimFunc(rest,
    unicode.IsSpace)].  Otherwise it scans the ASCII white space off the
    back, and if the byte it stops at is not ASCII it returns
    [TrimRightFunc(rest, unicode.IsSpace)].  The two Unicode functions read
    tables that are not part of this repository and are parameters. *)
Class UnicodeSpace : Type :=
  { unicode_TrimFunc_IsSpace : string -> string;
    unicode_TrimRightFunc_IsSpace : string -> string }.

Definition TrimSpace `{UnicodeSpace} (s : string) : string :=
  let front := drop_left is_ascii_space s in
  match first_byte front with
  | Some c =>
      if is_non_ascii c then unicode_TrimFunc_IsSpace front
      else
        let back := drop_right is_ascii_space front in
        match last_byte back with
        | Some d =>
            if is_non_ascii d then unicode_TrimRightFunc_IsSpace back else back
        | None => back
        end
  | None => front
  end.

(** [strings.Trim(s, cutset)] for a cutset of ASCII bytes (the program
    passes "<>"): the bytes of the cutset are dropped from both ends. *)
Definition in_cutset (cutset : string) (c : ascii) : bool := has_byte c cutset.

Definition Trim (s cutset : string) : string :=
  drop_left (in_cutset cutset) (drop_right (in_cutset cutset) s).

End GoStrings.

Import GoStrings.

(** ** package pinboard: listing the bookmarks of a tag *)

Module pinboardList.

Section GetBookmarkURLsByTag.
(** As for [AddBookmark], net/url, net/http, io and encoding/json are
    parameters.  [ReadAll_partial] is what [io.ReadAll] hands back next to a
    read error; [json_hrefs] is [json.Unmarshal] into the slice of
    [struct { Href string }], as the sequence of the [Href] fields. *)
Context {W : Type}.
Variable Values_Encode : gmap string string -> string.
Variable NewRequestWithContext :
  pinboard.Context -> string -> string -> pinboard.error + pinboard.Request.
Variable httpClient_Do :
  pinboard.Request -> W -> (pinboard.error + pinboard.Response) * W.
Variable ReadAll_partial : pinboard.Response -> string.
Variable json_hrefs : string -> pinboard.error + list string.

Definition list_query (c : pinboard.Client) (tag : string) : gmap string string :=
  let q : gmap string string := ∅ in
  let q := <["auth_token" := pinboard.authToken c]> q in
  let q := <["tag" := tag]> q in
  <["format" := "json"]> q.

(** [for _, bookmark := range bookmarks { urls[bookmark.Href] = true }] *)
Fixpoint urls_range (hrefs : list string) (urls : gmap string bool)
  : gmap string bool :=
  match hrefs with
  | [] => urls
  | href :: rest => urls_range rest (<[href := true]> urls)
  end.

(** The map returned next to an error is nil, here the empty map. *)
Definition GetBookmarkURLsByTag (c : pinboard.Client) (ctx : pinboard.Context)
    (tag : string)
  : M W pinboard.Event (gmap string bool * option pinboard.error) :=
  let apiURL := pinboard.baseURL c +:+ "/posts/all" in
  let fullURL := apiURL +:+ "?" +:+ Values_Encode (list_query c tag) in
  match NewRequestWithContext ctx "GET" fullURL with
  | inl err =>
      mret (∅, Some (pinboard.Errorf "failed to create request: %w"
                       [pinboard.ArgError err]))
  | inr req =>
      r ← pinboard.Do httpClient_Do req;
      match r with
      | inl err =>
          mret (∅, Some (pinboard.Errorf "failed to send request: %w"
                           [pinboard.ArgError err]))
      | inr resp =>
          if negb (pinboard.StatusCode resp =? pinboard.StatusOK)
          then
            let body := match pinboard.Body resp with
                        | inr body => body
                        | inl _ => ReadAll_partial resp
                        end in
            mret (∅, Some (pinboard.Errorf "API returned status %d: %s"
                             [pinboard.ArgInt (pinboard.StatusCode resp);
                              pinboard.ArgString body]))
          else
            match pinboard.Body resp with
            | inl err =>
                mret (∅, Some (pinboard.Errorf "failed to read response: %w"
                                 [pinboard.ArgError err]))
            | inr body =>
                match json_hrefs body with
                | inl err =>
                    mret (∅, Some (pinboard.Errorf "failed to parse response: %w"
                                     [pinboard.ArgError err]))
                | inr bookmarks => mret (urls_range bookmarks ∅, None)
                end
            end
      end
  end.
End GetBookmarkURLsByTag.

End pinboardList.

(** ** package github: the client *)

Module githubClient.

Definition dquote : ascii := "034"%char.

(** The string [rel="next"]. *)
Definition rel_next : string := "rel=" +:+ String dquote ("next" +:+ String dquote "").

Section ExtractNextURL.
Context `{UnicodeSpace}.

(** The [for _, link := range links] of [extractNextURL], with the final
    [return ""]. *)
Fixpoint extractNextURL_range (links : list string) : string :=
  match links with
  | [] => ""
  | link :: rest =>
      let parts := Split (TrimSpace link) ";" in
      match parts with
      | [part0; part1] =>
          let url := Trim (TrimSpace part0) "<>" in
          let rel := TrimSpace part1 in
          if String.eqb rel rel_next then url else extractNextURL_range rest
      | _ => extractNextURL_range rest
      end
  end.

Definition extractNextURL (linkHeader : string) : string :=
  if String.eqb linkHeader "" then ""
  else
    let links := Split linkHeader "," in
    extractNextURL_range links.
End ExtractNextURL.

(** *** Fetching the starred repositories *)

Record Client : Type :=
  { token : string;
    baseURL : string }.

Definition NewClient (token : string) : Client :=
  {| token := token; baseURL := "https://api.github.com" |}.

(** One element of the JSON answer. *)
Record starredRepoResponse : Type :=
  { StarredAt : string;
    Repo_FullName : string;
    Repo_HTMLURL : string;
    Repo_Description : string;
    Repo_Topics : slice string }.

Record Request : Type :=
  { Method : string;
    URL : string;
    Header : gmap string string }.

Record Response : Type :=
  { StatusCode : Z;
    Link : string (* resp.Header.Get("Link"), empty when absent *);
    Body : string }.

Inductive Event : Type :=
| HTTPDo (req : Request) (answer : pinboard.error + Response).

Section GetStarredRepos.
(** net/http, encoding/json and time are parameters:
    [NewRequest_error] is the error of [http.NewRequestWithContext], if any;
    [json_Decode] is the decoding of a body into the page's elements;
    [time_Parse_RFC3339] is [time.Parse(time.RFC3339, _)].  Errors are the
    values of [pinboard.error]. *)
Context `{UnicodeSpace}.
Context {Ctx W : Type}.
Variable NewRequest_error : Ctx -> string -> string -> option pinboard.error.
Variable httpClient_Do : Request -> W -> (pinboard.error + Response) * W.
Variable json_Decode : string -> pinboard.error + slice starredRepoResponse.
Variable time_Parse_RFC3339 : string -> pinboard.error + Z.

Definition Do (req : Request) : M W Event (pinboard.error + Response) :=
  fun w => let '(r, w') := httpClient_Do req w in (r, w', [HTTPDo req r]).

(** The domain record of one element, with [Topics] never nil. *)
Definition to_repo (apiRepo : starredRepoResponse) (starredAt : Z)
  : github.StarredRepo :=
  let repo :=
    {| github.FullName := Repo_FullName apiRepo;
       github.HTMLURL := Repo_HTMLURL apiRepo;
       github.Description := Repo_Description apiRepo;
       github.Topics := Repo_Topics apiRepo;
       github.StarredAt := starredAt |} in
  if is_nil (github.Topics repo)
  then {| github.FullName := github.FullName repo;
          github.HTMLURL := github.HTMLURL repo;
          github.Description := github.Description repo;
          github.Topics := Slice [];
          github.StarredAt := github.StarredAt repo |}
  else repo.

(** [for _, apiRepo := range pageRepos { ... }]: the error of the first
    element whose time does not parse, or [allRepos] grown by the page. *)
Fixpoint convert_range (pageRepos : list starredRepoResponse)
    (allRepos : slice github.StarredRepo)
  : pinboard.error + slice github.StarredRepo :=
  match pageRepos with
  | [] => inr allRepos
  | apiRepo :: rest =>
      match time_Parse_RFC3339 (StarredAt apiRepo) with
      | inl err =>
          inl (pinboard.Errorf "failed to parse starred_at time: %w"
                 [pinboard.ArgError err])
      | inr starredAt =>
          convert_range rest (append allRepos (Slice [to_repo apiRepo starredAt]))
      end
  end.

Definition new_request (c : Client) (url : string) : Request :=
  let header : gmap string string := ∅ in
  let header := <["Accept" := "application/vnd.github.star+json"]> header in
  let header := <["Authorization" := "Bearer " +:+ token c]> header in
  {| Method := "GET"; URL := url; Header := header |}.

(** [for url != "" { ... }] and what follows it.  The loop has no bound of
    its own: it runs as long as the server names a next page.  [fuel] bounds
    the number of pages; [None] is the answer of a loop cut short by it. *)
Fixpoint GetStarredRepos_pages (fuel : nat) (c : Client) (ctx : Ctx)
    (url : string) (allRepos : slice github.StarredRepo)
  : M W Event (option (slice github.StarredRepo * option pinboard.error)) :=
  if String.eqb url "" then
    mret (Some (if is_nil allRepos then Slice [] else allRepos, None))
  else
    match fuel with
    | O => mret None
    | S fuel' =>
        match NewRequest_error ctx "GET" url with
        | Some err =>
            mret (Some (NilSlice,
                        Some (pinboard.Errorf "failed to create request: %w"
                                [pinboard.ArgError err])))
        | None =>
            r ← Do (new_request c url);
            match r with
            | inl err =>
                mret (Some (NilSlice,
                            Some (pinboard.Errorf "request failed: %w"
                                    [pinboard.ArgError err])))
            | inr resp =>
                if negb (StatusCode resp =? pinboard.StatusOK)
                then mret (Some (NilSlice,
                                 Some (pinboard.Errorf
                                         "GitHub API request failed with status %d"
                                         [pinboard.ArgInt (StatusCode resp)])))
                else
                  match json_Decode (Body resp) with
                  | inl err =>
                      mret (Some (NilSlice,
                                  Some (pinboard.Errorf "failed to decode response: %w"
                                          [pinboard.ArgError err])))
                  | inr pageRepos =>
                      match convert_range (elems pageRepos) allRepos with
                      | inl err => mret (Some (NilSlice, Some err))
                      | inr allRepos =>
                          GetStarredRepos_pages fuel' c ctx
                            (extractNextURL (Link resp)) allRepos
                      end
                  end
            end
        end
    end.

Definition GetStarredRepos (fuel : nat) (c : Client) (ctx : Ctx)
  : M W Event (option (slice github.StarredRepo * option pinboard.error)) :=
  let url := baseURL c +:+ "/user/starred?per_page=100" in
  GetStarredRepos_pages fuel c ctx url NilSlice.
End GetStarredRepos.

End githubClient.

(** ** Tests of the two clients

    The servers of the tests, as functions from a request to its answer.
    The bodies stand for the JSON texts the handlers write; the decoders
    below give the values the tests' texts decode to. *)

Module pinboardList_test.

Definition body_three : string := "[three bookmarks]".

(** The three hrefs of TestGetBookmarkURLsByTag. *)
Definition hrefs_three : list string :=
  ["https://github.com/foo/bar"; "https://example.com/test";
   "https://golang.org/doc"].

Definition httpClient_Do (req : pinboard.Request) (w : Z)
  : (pinboard.error + pinboard.Response) * Z :=
  (inr {| pinboard.StatusCode := 200; pinboard.Body := inr body_three |}, w).

(** The server of TestGetBookmarkURLsByTagHTTPError. *)
Definition httpClient_Do_500 (req : pinboard.Request) (w : Z)
  : (pinboard.error + pinboard.Response) * Z :=
  (inr {| pinboard.StatusCode := 500;
          pinboard.Body := inr "{error: internal server error}" |}, w).

Definition ReadAll_partial (resp : pinboard.Response) : string := "".

Definition json_hrefs (body : string) : pinboard.error + list string :=
  if String.eqb body body_three then inr hrefs_three
  else if String.eqb body "[]" then inr []
  else inl (pinboard.LibraryError "cannot unmarshal").

Definition client : pinboard.Client :=
  {| pinboard.authToken := "test_token";
     pinboard.baseURL := "http://127.0.0.1";
     pinboard.lastCall := 0;
     pinboard.minDelay := 5 * pinboard.Second |}.

Definition GetBookmarkURLsByTag :=
  pinboardList.GetBookmarkURLsByTag pinboard_test.Values_Encode
    pinboard_test.NewRequestWithContext httpClient_Do ReadAll_partial json_hrefs.

Definition GetBookmarkURLsByTag_500 :=
  pinboardList.GetBookmarkURLsByTag pinboard_test.Values_Encode
    pinboard_test.NewRequestWithContext httpClient_Do_500 ReadAll_partial json_hrefs.

End pinboardList_test.

Module github_test.

(** The headers and bodies of the tests are ASCII, so [TrimSpace] never
    reaches its Unicode calls; they are given the identity here. *)
Definition ascii_only : UnicodeSpace :=
  {| unicode_TrimFunc_IsSpace := fun s => s;
     unicode_TrimRightFunc_IsSpace := fun s => s |}.

Definition serverURL : string := "http://127.0.0.1".

Definition first_url : string := serverURL +:+ "/user/starred?per_page=100".
Definition second_url : string := serverURL +:+ "/user/starred?per_page=100&page=2".

Definition body_page1 : string := "[page 1]".
Definition body_page2 : string := "[page 2]".

(** The handler of TestGetStarredRepos_Pagination on the two requests the
    client makes; the world is the counter [pageRequests]. *)
Definition httpClient_Do (req : githubClient.Request) (pageRequests : Z)
  : (pinboard.error + githubClient.Response) * Z :=
  let resp :=
    if String.eqb (githubClient.URL req) second_url
    then {| githubClient.StatusCode := 200;
            githubClient.Link := "";
            githubClient.Body := body_page2 |}
    else {| githubClient.StatusCode := 200;
            githubClient.Link :=
              "<" +:+ second_url +:+ ">; " +:+ githubClient.rel_next;
            githubClient.Body := body_page1 |} in
  (inr resp, pageRequests + 1).

(** The handler of TestGetStarredRepos_HTTPError. *)
Definition httpClient_Do_401 (req : githubClient.Request) (w : Z)
  : (pinboard.error + githubClient.Response) * Z :=
  (inr {| githubClient.StatusCode := 401;
          githubClient.Link := "";
          githubClient.Body := "{message: Bad credentials}" |}, w).

Definition NewRequest_error (ctx : unit) (method url : string)
  : option pinboard.error := None.

Definition page (n : string) (topic : string) (starredAt : string)
  : githubClient.starredRepoResponse :=
  {| githubClient.StarredAt := starredAt;
     githubClient.Repo_FullName := "owner/page" +:+ n;
     githubClient.Repo_HTMLURL := "https://github.com/owner/page" +:+ n;
     githubClient.Repo_Description := "Page " +:+ n +:+ " repo";
     githubClient.Repo_Topics := Slice [topic] |}.

Definition json_Decode (body : string)
  : pinboard.error + slice githubClient.starredRepoResponse :=
  if String.eqb body body_page1
  then inr (Slice [page "1" "go" "2023-01-01T00:00:00Z"])
  else if String.eqb body body_page2
  then inr (Slice [page "2" "python" "2023-02-01T00:00:00Z"])
  else if String.eqb body "[]" then inr (Slice [])
  else inl (pinboard.LibraryError "cannot unmarshal").

Definition Second : Z := 1000000000.

Definition time_Parse_RFC3339 (value : string) : pinboard.error + Z :=
  if String.eqb value "2023-01-01T00:00:00Z" then inr (1672531200 * Second)
  else if String.eqb value "2023-02-01T00:00:00Z" then inr (1675209600 * Second)
  else inl (pinboard.LibraryError "cannot parse").

Definition client : githubClient.Client :=
  {| githubClient.token := "test-token"; githubClient.baseURL := serverURL |}.

Definition GetStarredRepos :=
  @githubClient.GetStarredRepos ascii_only unit Z NewRequest_error httpClient_Do
    json_Decode time_Parse_RFC3339.

Definition GetStarredRepos_401 :=
  @githubClient.GetStarredRepos ascii_only unit Z NewRequest_error
    httpClient_Do_401 json_Decode time_Parse_RFC3339.

End github_test.

(** ** Vocabulary of the specification *)

Module spec.

(** "Every space replaced by a hyphen", byte by byte. *)
Definition hyphen_for_space (c : ascii) : ascii :=
  if Ascii.eqb c " " then "-"%char else c.

(** The set a [map[string]bool] stands for: the keys mapped to [true]. *)
Definition url_set (m : gmap string bool) : gset string :=
  dom (filter (fun kv => kv.2 = true) m).

Definition present (existing : gmap string bool) (r : github.StarredRepo) : Prop :=
  github.HTMLURL r ∈ url_set existing.

#[export] Instance present_dec existing r : Decision (present existing r).
Proof. unfold present. apply _. Defined.

(** Items of [repos] whose URL is in the set, and the others. *)
Definition count_present (existing : gmap string bool)
    (repos : list github.StarredRepo) : Z :=
  Z.of_nat (length (filter (present existing) repos)).

Definition count_new (existing : gmap string bool)
    (repos : list github.StarredRepo) : Z :=
  Z.of_nat (length (filter (fun r => ¬ present existing r) repos)).

Section Trace.
Context `{UnicodeTables}.
Context {Ctx W Err : Type}.
Implicit Types (e : export.Exporter Ctx W Err) (tr : list (export.Event Err)).

(** The calls of the progress callback and of the store's write, in the
    order they were made. *)
Definition progress_calls tr : list Progress.t :=
  omap (fun ev => match ev with export.CallOnProgress p => Some p | _ => None end) tr.

Definition writes tr : list (pinboard.Bookmark * option Err) :=
  omap (fun ev => match ev with
                  | export.CallAddBookmark b err => Some (b, err)
                  | _ => None
                  end) tr.

(** The progress event of the item at 0-based index [i]; the URL tested is
    that of the item's bookmark, which is the item's HTML URL. *)
Definition progress_of (existing : gmap string bool) (total : Z) (i : Z)
    (r : github.StarredRepo) : Progress.t :=
  {| Progress.Current := i + 1;
     Progress.Total := total;
     Progress.RepoName := github.FullName r;
     Progress.Skipped := bool_decide (present existing r) |}.

(** The progress call of an item, if a callback is registered. *)
Definition progress_events e (existing : gmap string bool) (total : Z) (i : Z)
    (r : github.StarredRepo) : list (export.Event Err) :=
  match export.OnProgress e with
  | Some _ => [export.CallOnProgress (progress_of existing total i r)]
  | None => []
  end.

(** The world after the progress call of an item. *)
Definition progress_step e (existing : gmap string bool) (total : Z) (i : Z)
    (r : github.StarredRepo) (w : W) : W :=
  match export.OnProgress e with
  | Some f => f (progress_of existing total i r) w
  | None => w
  end.

(** A computation's outcome, with the events [t] logged before it. *)
Definition after_events {A : Type} (t : list (export.Event Err))
    (x : A * W * list (export.Event Err)) : A * W * list (export.Event Err) :=
  (x.1.1, x.1.2, t ++ x.2).

(** What processing one item logs: the progress call, if a callback is
    registered, then the write, if the item is new and the run is not a
    dry run; [err] is what the write returned. *)
Definition item_events e (existing : gmap string bool) (total : Z) (i : Z)
    (r : github.StarredRepo) (err : option Err) : list (export.Event Err) :=
  progress_events e existing total i r
  ++
  (if bool_decide (present existing r) then []
   else if export.DryRun e then []
   else [export.CallAddBookmark (export.RepoToBookmark r) err]).

(** What processing [repos] from index [i] on logs when every write
    succeeds. *)
Fixpoint range_events e (existing : gmap string bool) (total : Z) (i : Z)
    (repos : list github.StarredRepo) : list (export.Event Err) :=
  match repos with
  | [] => []
  | r :: rest =>
      item_events e existing total i r None
      ++ range_events e existing total (i + 1) rest
  end.

Fixpoint progress_list (existing : gmap string bool) (total : Z) (i : Z)
    (repos : list github.StarredRepo) : list Progress.t :=
  match repos with
  | [] => []
  | r :: rest => progress_of existing total i r :: progress_list existing total (i + 1) rest
  end.
End Trace.

End spec.

Import spec.

(** ** Vocabulary for the two clients *)

Module specClients.

(** The requests a call of the Pinboard client made, and the instants at
    which it resumed from a wait, in order. *)
Definition requests (tr : list pinboard.Event) : list pinboard.Request :=
  omap (fun ev => match ev with pinboard.HTTPDo req => Some req | _ => None end) tr.

Definition resumes (tr : list pinboard.Event) : list (pinboard.select_case * Z) :=
  omap (fun ev => match ev with
                  | pinboard.Resumed k t => Some (k, t)
                  | _ => None
                  end) tr.

(** A Link header as GitHub writes it: [<url>; rel], the links separated by
    a comma and a space. *)
Definition format_link (link : string * string) : string :=
  "<" +:+ link.1 +:+ ">; " +:+ link.2.

Definition format_links (links : list (string * string)) : string :=
  Join (map format_link links) ", ".

(** The URL of the first link whose relation is [rel="next"]. *)
Fixpoint first_next (links : list (string * string)) : string :=
  match links with
  | [] => ""
  | (url, rel) :: rest =>
      if String.eqb rel githubClient.rel_next then url else first_next rest
  end.

Definition is_angle (c : ascii) : bool := in_cutset "<>" c.

(** A URL that the header's syntax can carry: no comma, no semicolon, and
    no angle bracket at either end. *)
Definition clean_url (url : string) : Prop :=
  has_byte "," url = false /\ has_byte ";" url = false
  /\ (forall c, first_byte url = Some c -> is_angle c = false)
  /\ (forall c, last_byte url = Some c -> is_angle c = false).

(** A relation that the syntax can carry: no comma, no semicolon, and an
    ASCII byte that is not white space at either end. *)
Definition solid (c : ascii) : Prop :=
  is_ascii_space c = false /\ is_non_ascii c = false.

Definition clean_rel (rel : string) : Prop :=
  has_byte "," rel = false /\ has_byte ";" rel = false
  /\ (exists c, first_byte rel = Some c /\ solid c)
  /\ (exists c, last_byte rel = Some c /\ solid c).

Definition clean_link (link : string * string) : Prop :=
  clean_url link.1 /\ clean_rel link.2.

Section Pages.
Variable json_Decode : string -> pinboard.error + slice githubClient.starredRepoResponse.
Variable time_Parse_RFC3339 : string -> pinboard.error + Z.

(** The items of one answered request, in the answer's order. *)
Definition item_of (apiRepo : githubClient.starredRepoResponse) : github.StarredRepo :=
  githubClient.to_repo apiRepo
    (match time_Parse_RFC3339 (githubClient.StarredAt apiRepo) with
     | inr t => t
     | inl _ => 0
     end).

Definition page_of (ev : githubClient.Event) : list github.StarredRepo :=
  match ev with
  | githubClient.HTTPDo _ (inr resp) =>
      match json_Decode (githubClient.Body resp) with
      | inr page => map item_of (elems page)
      | inl _ => []
      end
  | _ => []
  end.
End Pages.

Section Chain.
Context `{UnicodeSpace}.

(** A trace that follows the links: the first request asks for [url], each
    is answered with status 200, each next request asks for the URL the
    previous answer names as next, and the last answer names none. *)
Fixpoint follows (c : githubClient.Client) (url : string)
    (tr : list githubClient.Event) : Prop :=
  match tr with
  | [] => url = ""
  | githubClient.HTTPDo req (inr resp) :: rest =>
      url <> ""
      /\ req = githubClient.new_request c url
      /\ githubClient.StatusCode resp = pinboard.StatusOK
      /\ follows c (githubClient.extractNextURL (githubClient.Link resp)) rest
  | githubClient.HTTPDo _ (inl _) :: _ => False
  end.
End Chain.

(** A repository whose topics are a slice, be it empty, and not nil. *)
Definition has_topics (r : github.StarredRepo) : Prop :=
  is_nil (github.Topics r) = false.

Section Next.
Context `{UnicodeSpace}.

(** An answered request whose answer has status 200 and names a next page. *)
Definition names_next (ev : githubClient.Event) : Prop :=
  match ev with
  | githubClient.HTTPDo _ (inr resp) =>
      githubClient.StatusCode resp = pinboard.StatusOK
      /\ githubClient.extractNextURL (githubClient.Link resp) <> ""
  | _ => False
  end.
End Next.

End specClients.

Import specClients.

Module specObserver.
Section Observer.
Context {Ctx W Err : Type}.

(** The exporter without its progress callback. *)
Definition silent (e : export.Exporter Ctx W Err) : export.Exporter Ctx W Err :=
  {| export.gh := export.gh e; export.pb := export.pb e;
     export.DryRun := export.DryRun e; export.OnProgress := None |}.

(** The calls of a run to its two clients, in order. *)
Definition client_calls (tr : list (export.Event Err)) : list (export.Event Err) :=
  omap (fun ev => match ev with
                  | export.CallOnProgress _ => None
                  | _ => Some ev
                  end) tr.

(** The clients cannot tell two worlds related by [R] apart: on related
    worlds they answer alike and leave related worlds. *)
Definition blind (R : W -> W -> Prop) (e : export.Exporter Ctx W Err) (ctx : Ctx)
  : Prop :=
  (forall w v, R w v ->
     let x := export.GetStarredRepos (export.gh e) ctx w in
     let y := export.GetStarredRepos (export.gh e) ctx v in
     x.1 = y.1 /\ R x.2 y.2)
  /\ (forall tag w v, R w v ->
        let x := export.GetBookmarkURLsByTag (export.pb e) ctx tag w in
        let y := export.GetBookmarkURLsByTag (export.pb e) ctx tag v in
        x.1 = y.1 /\ R x.2 y.2)
  /\ (forall b w v, R w v ->
        let x := export.AddBookmark (export.pb e) ctx b w in
        let y := export.AddBookmark (export.pb e) ctx b v in
        x.1 = y.1 /\ R x.2 y.2).
End Observer.
End specObserver.

Import specObserver.

(** * Facts about the Go fragments *)

Section GoFacts.

Lemma wrap_small z : is_int z -> wrap z = z.
Proof.
unfold is_int, wrap, int_min, int_max. intros Hz.
rewrite Z.mod_small; lia.
Qed.

Lemma int_add_small a b : is_int (a + b) -> int_add a b = a + b.
Proof. apply wrap_small. Qed.

Lemma has_byte_map_hyphen s :
has_byte " " (string_map hyphen_for_space s) = false.
Proof.
induction s as [|c s IH]; [reflexivity|]. simpl.
unfold hyphen_for_space at 1.
destruct (Ascii.eqb c " ") eqn:Hc; [exact IH|]. now rewrite Hc.
Qed.

(** Replacing the one-byte string [" "] by ["-"] is the bytewise map. *)
Lemma ReplaceAll_space s :
ReplaceAll s " " "-" = string_map hyphen_for_space s.
Proof.
unfold ReplaceAll.
induction s as [|c s IH]; [reflexivity|].
cbn [replace_from string_map String.prefix String.length Nat.pred].
unfold hyphen_for_space at 1.
destruct (Ascii.eqb c " ") eqn:Hc.
- apply Ascii.eqb_eq in Hc. subst c.
  destruct (ascii_dec " " " ") as [_|Hn]; [|contradiction].
  replace (String.prefix "" s) with true by (now destruct s).
  cbn. now rewrite IH.
- destruct (ascii_dec " " c) as [He|_].
  + subst c. discriminate.
  + now rewrite IH.
Qed.

Lemma lower_byte_space c : lower_byte c = " "%char -> c = " "%char.
Proof.
destruct c as [[] [] [] [] [] [] [] []]; vm_compute; congruence.
Qed.

Lemma has_byte_map_lower s :
has_byte " " s = false -> has_byte " " (string_map lower_byte s) = false.
Proof.
induction s as [|c s IH]; [reflexivity|]. simpl.
destruct (Ascii.eqb c " ") eqn:Hc; [discriminate|]. intros Hs.
destruct (Ascii.eqb (lower_byte c) " ") eqn:Hl; [|auto].
apply Ascii.eqb_eq, lower_byte_space in Hl. subst c. discriminate.
Qed.

(** Lower-casing brings no space into a string that has none. *)
Lemma ToLower_no_space `{UnicodeTables} `{!UnicodeNoSpace} s :
has_byte " " s = false -> has_byte " " (ToLower s) = false.
Proof.
intros Hs. unfold ToLower.
destruct (isASCII s).
- destruct (hasUpper s); [now apply has_byte_map_lower | exact Hs].
- destruct (has_byte " " (unicode_Map_ToLower s)) eqn:Hu; [|reflexivity].
  apply unicode_no_space in Hu. congruence.
Qed.

End GoFacts.

(** * The mapper *)

Section MapperFacts.
Context `{UnicodeTables}.

Let normalise (topic : string) : string := ToLower (ReplaceAll topic " " "-").

(** The loop fills the slots from [i] on with the normalised topics and
    leaves the slots before [i] alone. *)
Lemma NormaliseTags_range_fill topics :
  forall i (before slots : list string),
    length before = i -> length slots = length topics ->
    export.NormaliseTags_range i topics (before ++ slots)
    = before ++ map normalise topics.
Proof.
  induction topics as [|topic rest IH]; intros i before slots Hi Hlen.
  - destruct slots; [reflexivity | discriminate].
  - destruct slots as [|slot slots]; [discriminate|].
    cbn [export.NormaliseTags_range map].
    rewrite insert_app_r_alt by lia.
    replace (i - length before)%nat with 0%nat by lia. cbn [insert list_insert].
    fold (normalise topic).
    replace (before ++ normalise topic :: slots)
      with ((before ++ [normalise topic]) ++ slots)
      by (now rewrite <- app_assoc).
    rewrite (IH (S i) (before ++ [normalise topic]) slots).
    + now rewrite <- app_assoc.
    + rewrite length_app. cbn. lia.
    + cbn in Hlen. lia.
Qed.

(** No assignment of the loop is out of range. *)
Lemma NormaliseTags_range_in_bounds topics :
  forall i (normalised : list string),
    (i + length topics <= length normalised)%nat ->
    export.NormaliseTags_range_checked i topics normalised
    = Ok (export.NormaliseTags_range i topics normalised).
Proof.
  induction topics as [|topic rest IH]; intros i normalised Hlen; [reflexivity|].
  cbn [export.NormaliseTags_range_checked export.NormaliseTags_range].
  cbn in Hlen. unfold set_index.
  destruct (decide (i < length normalised)%nat) as [_|Hge]; [|lia].
  cbn. apply IH. rewrite length_insert. lia.
Qed.

Lemma NormaliseTags_elems topics :
  export.NormaliseTags topics = Slice (map normalise (elems topics)).
Proof.
  unfold export.NormaliseTags, len.
  destruct (elems topics) as [|t ts] eqn:Hel; [reflexivity|].
  replace (Z.of_nat (length (t :: ts)) =? 0) with false
    by (symmetry; apply Z.eqb_neq; cbn [length]; lia).
  cbv zeta. f_equal.
  apply (NormaliseTags_range_fill (t :: ts) 0 []
           (replicate (length (t :: ts)) "") eq_refl).
  apply length_replicate.
Qed.

(** C1.  For every sequence of topics, NormaliseTags returns a sequence that
    is never nil, has the length of its input, and holds at each index the
    input topic of that index lower-cased with every space replaced by a
    hyphen; no element contains a space, and an input without elements
    (nil or empty) gives the empty, non-nil sequence. *)
Theorem NormaliseTags_spec (Hns : UnicodeNoSpace) (topics : slice string) :
  is_nil (export.NormaliseTags topics) = false
  /\ len (export.NormaliseTags topics) = len topics
  /\ (forall (i : nat) (topic : string),
        elems topics !! i = Some topic ->
        elems (export.NormaliseTags topics) !! i
        = Some (ToLower (string_map hyphen_for_space topic)))
  /\ (forall (i : nat),
        elems topics !! i = None -> elems (export.NormaliseTags topics) !! i = None)
  /\ (forall tag : string,
        tag ∈ elems (export.NormaliseTags topics) -> has_byte " " tag = false)
  /\ (len topics = 0 -> export.NormaliseTags topics = Slice []).
Proof.
  rewrite NormaliseTags_elems. cbn [is_nil elems]. unfold len. cbn [elems].
  repeat split.
  - now rewrite length_map.
  - intros i topic Hi. rewrite list_lookup_fmap, Hi. cbn.
    unfold normalise. now rewrite ReplaceAll_space.
  - intros i Hi. now rewrite list_lookup_fmap, Hi.
  - intros tag Htag. apply list_elem_of_fmap in Htag as (topic & -> & _).
    unfold normalise. apply ToLower_no_space.
    rewrite ReplaceAll_space. apply has_byte_map_hyphen.
  - intros Hlen. destruct (elems topics); [reflexivity | cbn in Hlen; lia].
Qed.

(** C2.  RepoToBookmark returns the bookmark whose tags are the sentinel
    "github-repo" followed by NormaliseTags of the topics (the sentinel is
    first, whatever the topics), whose URL, title and description are the
    repo's HTML URL, full name and description as they are, which is
    private and not to-read.  The embedding is a function of the repo
    alone: the Go code reads its argument and builds fresh slices. *)
Theorem RepoToBookmark_spec (repo : github.StarredRepo) :
  let b := export.RepoToBookmark repo in
  pinboard.Tags b
  = Slice ("github-repo" :: elems (export.NormaliseTags (github.Topics repo)))
  /\ elems (pinboard.Tags b) !! 0%nat = Some "github-repo"
  /\ pinboard.URL b = github.HTMLURL repo
  /\ pinboard.Title b = github.FullName repo
  /\ pinboard.Description b = github.Description repo
  /\ pinboard.Private b = true
  /\ pinboard.ToRead b = false.
Proof.
  cbv zeta. unfold export.RepoToBookmark. cbn.
  repeat split.
Qed.
End MapperFacts.

(** * The exporter *)

Section ExporterFacts.
Context `{UnicodeTables}.
Context {Ctx W Err : Type}.
Implicit Types (e : export.Exporter Ctx W Err) (ctx : Ctx) (w : W).
Implicit Types (existing : gmap string bool) (repos : list github.StarredRepo).
Implicit Types (tr : list (export.Event Err)).

(** Go's index expression on the map is the membership test of the set
    the map stands for. *)
Lemma map_index_url_set existing (u : string) :
  map_index existing u = bool_decide (u ∈ url_set existing).
Proof.
  unfold map_index, url_set.
  destruct (existing !! u) as [[|]|] eqn:Hu; cbn.
  - symmetry. apply bool_decide_eq_true. apply elem_of_dom. exists true.
    now apply map_lookup_filter_Some.
  - symmetry. apply bool_decide_eq_false. intros [v Hv]%elem_of_dom.
    apply map_lookup_filter_Some in Hv as [Hv Ht]. cbn in Ht. congruence.
  - symmetry. apply bool_decide_eq_false. intros [v Hv]%elem_of_dom.
    apply map_lookup_filter_Some in Hv as [Hv _]. congruence.
Qed.

Lemma isSkipped_present existing (r : github.StarredRepo) :
  map_index existing (pinboard.URL (export.RepoToBookmark r))
  = bool_decide (present existing r).
Proof. apply map_index_url_set. Qed.

Lemma count_present_cons existing r repos :
  count_present existing (r :: repos)
  = (if bool_decide (present existing r) then 1 else 0) + count_present existing repos.
Proof.
  unfold count_present. rewrite filter_cons.
  destruct (decide (present existing r)) as [Hp|Hp].
  - rewrite bool_decide_eq_true_2 by done. cbn [length]. lia.
  - rewrite bool_decide_eq_false_2 by done. lia.
Qed.

Lemma count_new_cons existing r repos :
  count_new existing (r :: repos)
  = (if bool_decide (present existing r) then 0 else 1) + count_new existing repos.
Proof.
  unfold count_new. rewrite filter_cons.
  destruct (decide (¬ present existing r)) as [Hp|Hp].
  - rewrite bool_decide_eq_false_2 by done. cbn [length]. lia.
  - rewrite bool_decide_eq_true_2 by (now apply dec_stable). lia.
Qed.

Lemma count_present_nonneg existing repos : 0 <= count_present existing repos.
Proof. unfold count_present. lia. Qed.


(** Every item is either present or new. *)
Lemma count_present_new existing repos :
  count_present existing repos + count_new existing repos
  = Z.of_nat (length repos).
Proof.
  induction repos as [|r repos IH]; [reflexivity|].
  rewrite count_present_cons, count_new_cons. cbn [length].
  destruct (bool_decide (present existing r)); lia.
Qed.

Lemma count_present_app existing repos repos' :
  count_present existing (repos ++ repos')
  = count_present existing repos + count_present existing repos'.
Proof.
  unfold count_present. rewrite filter_app, length_app. lia.
Qed.

Lemma count_new_app existing repos repos' :
  count_new existing (repos ++ repos')
  = count_new existing repos + count_new existing repos'.
Proof.
  unfold count_new. rewrite filter_app, length_app. lia.
Qed.

(** ** The loop *)

Lemma item_events_present e existing total i r err :
  bool_decide (present existing r) = true ->
  item_events e existing total i r err = progress_events e existing total i r.
Proof. intros Hp. unfold item_events. now rewrite Hp, app_nil_r. Qed.

Lemma item_events_dry e existing total i r err :
  export.DryRun e = true ->
  item_events e existing total i r err = progress_events e existing total i r.
Proof.
  intros Hd. unfold item_events. rewrite Hd.
  destruct (bool_decide (present existing r)); now rewrite app_nil_r.
Qed.

Lemma item_events_write e existing total i r err :
  bool_decide (present existing r) = false -> export.DryRun e = false ->
  item_events e existing total i r err
  = progress_events e existing total i r
    ++ [export.CallAddBookmark (export.RepoToBookmark r) err].
Proof. intros Hp Hd. unfold item_events. now rewrite Hp, Hd. Qed.

(** One turn of the loop, for counters that cannot overflow. *)
Lemma Run_range_cons e ctx existing total i added skipped r rest w :
  0 <= added <= i -> 0 <= skipped <= i -> i + 1 <= int_max ->
  export.Run_range e ctx existing total i added skipped (r :: rest) w
  = let w1 := progress_step e existing total i r w in
    let t1 := progress_events e existing total i r in
    if bool_decide (present existing r)
    then after_events t1
           (export.Run_range e ctx existing total (i + 1) added (skipped + 1) rest w1)
    else if export.DryRun e
    then after_events t1
           (export.Run_range e ctx existing total (i + 1) (added + 1) skipped rest w1)
    else
      match export.AddBookmark (export.pb e) ctx (export.RepoToBookmark r) w1 with
      | (Some x, w2) =>
          ({| Result.Total := total; Result.Added := added;
              Result.Skipped := skipped |}, Some x, w2,
           t1 ++ [export.CallAddBookmark (export.RepoToBookmark r) (Some x)])
      | (None, w2) =>
          after_events
            (t1 ++ [export.CallAddBookmark (export.RepoToBookmark r) None])
            (export.Run_range e ctx existing total (i + 1) (added + 1) skipped rest w2)
      end.
Proof.
  intros Hadded Hskipped Hi.
  cbn [export.Run_range]. cbv zeta.
  rewrite isSkipped_present.
  rewrite !int_add_small by (unfold is_int, int_min; lia).
  unfold mbind, M_bind, mret, M_ret, after_events.
  unfold progress_step, progress_events, progress_of, export.call_OnProgress,
    export.call_AddBookmark.
  destruct (export.OnProgress e) as [f|];
    destruct (bool_decide (present existing r));
    destruct (export.DryRun e); cbn [negb app fst snd].
  all: repeat match goal with
         | |- context [export.AddBookmark ?c ?x ?b ?w0] =>
             destruct (export.AddBookmark c x b w0) as [[?|] ?]
         | |- context [export.Run_range ?a ?b ?c ?d ?i0 ?f ?g ?h ?w0] =>
             destruct (export.Run_range a b c d i0 f g h w0) as [[[? ?] ?] ?]
         end.
  all: reflexivity.
Qed.

(** One pass over [repos] from index [i], entered with [added + skipped =
    i]: the loop stops after a prefix [pre]; its counters have grown by
    the new and the present items of [pre]; it has logged the events of
    [pre] and, when it stops on a write error, those of the failing item,
    and nothing of what follows: whatever items follow the failing one,
    the pass ends the same. *)
Lemma Run_range_spec e ctx existing total repos :
  forall i added skipped w res err w' tr,
    0 <= added -> 0 <= skipped -> added + skipped = i ->
    i + Z.of_nat (length repos) <= int_max ->
    export.Run_range e ctx existing total i added skipped repos w
    = (res, err, w', tr) ->
    exists pre post,
      repos = pre ++ post
      /\ res = {| Result.Total := total;
                  Result.Added := added + count_new existing pre;
                  Result.Skipped := skipped + count_present existing pre |}
      /\ match err with
         | None => post = [] /\ tr = range_events e existing total i pre
         | Some x =>
             exists r post',
               post = r :: post'
               /\ ¬ present existing r
               /\ export.DryRun e = false
               /\ tr = range_events e existing total i pre
                       ++ item_events e existing total
                            (i + Z.of_nat (length pre)) r (Some x)
               /\ forall others,
                    export.Run_range e ctx existing total i added skipped
                      (pre ++ r :: others) w
                    = (res, err, w', tr)
         end.
Proof.
  induction repos as [|r rest IH]; intros i added skipped w res err w' tr
    Hadded Hskipped Hi Hlen Hrun.
  - cbn in Hrun. injection Hrun as <- <- <- <-.
    exists [], []. cbn. rewrite !Z.add_0_r. auto.
  - cbn [length] in Hlen.
    pose proof (fun l => Run_range_cons e ctx existing total i added skipped r l w
                           ltac:(lia) ltac:(lia) ltac:(lia)) as Hcons.
    rewrite Hcons in Hrun. cbv zeta in Hrun.
    destruct (bool_decide (present existing r)) eqn:Hpres.
    + (* skipped *)
      destruct (export.Run_range e ctx existing total (i + 1) added (skipped + 1) rest
                  (progress_step e existing total i r w))
        as [[[res1 err1] w2] t2] eqn:Hrest.
      unfold after_events in Hrun. cbn [fst snd] in Hrun.
      injection Hrun as <- <- <- <-.
      apply IH in Hrest as (pre & post & -> & -> & Herr); [|lia..].
      exists (r :: pre), post. split; [reflexivity|]. split.
      * rewrite count_new_cons, count_present_cons, Hpres. f_equal; lia.
      * cbn [range_events]. rewrite (item_events_present _ _ _ i r None Hpres).
        destruct err1 as [x|].
        -- destruct Herr as (r' & post' & -> & Hnew & Hdry & -> & Hstop).
           exists r', post'. repeat split; try done.
           ++ replace (i + Z.of_nat (length (r :: pre)))
                with (i + 1 + Z.of_nat (length pre)) by (cbn [length]; lia).
              now rewrite app_assoc.
           ++ intros others. cbn [app]. rewrite Hcons. cbv zeta.
              rewrite ?Hpres, Hstop. unfold after_events. cbn [fst snd].
              now rewrite app_assoc.
        -- destruct Herr as [-> ->]. done.
    + (* new *)
      apply bool_decide_eq_false in Hpres as Hnew.
      destruct (export.DryRun e) eqn:Hdry.
      * destruct (export.Run_range e ctx existing total (i + 1) (added + 1) skipped rest
                    (progress_step e existing total i r w))
          as [[[res1 err1] w2] t2] eqn:Hrest.
        unfold after_events in Hrun. cbn [fst snd] in Hrun.
        injection Hrun as <- <- <- <-.
        apply IH in Hrest as (pre & post & -> & -> & Herr); [|lia..].
        exists (r :: pre), post. split; [reflexivity|]. split.
        -- rewrite count_new_cons, count_present_cons, Hpres. f_equal; lia.
        -- destruct err1 as [x|].
           ++ destruct Herr as (r' & post' & -> & Hnew' & Hdry' & _). congruence.
           ++ destruct Herr as [-> ->]. split; [done|].
              cbn [range_events]. now rewrite (item_events_dry _ _ _ i r None Hdry).
      * destruct (export.AddBookmark (export.pb e) ctx (export.RepoToBookmark r)
                    (progress_step e existing total i r w))
          as [[x|] w2] eqn:Hadd.
        -- (* the write fails *)
           injection Hrun as <- <- <- <-.
           exists [], (r :: rest). cbn [app length range_events].
           split; [reflexivity|]. split.
           ++ unfold count_new, count_present. cbn. f_equal; lia.
           ++ exists r, rest. repeat split; try done.
              ** now rewrite Z.add_0_r, (item_events_write _ _ _ i r (Some x) Hpres Hdry).
              ** intros others. rewrite Hcons. cbv zeta.
                 now rewrite ?Hpres, ?Hdry, ?Hadd.
        -- destruct (export.Run_range e ctx existing total (i + 1) (added + 1) skipped
                       rest w2) as [[[res1 err1] w3] t3] eqn:Hrest.
           unfold after_events in Hrun. cbn [fst snd] in Hrun.
           injection Hrun as <- <- <- <-.
           apply IH in Hrest as (pre & post & -> & -> & Herr); [|lia..].
           exists (r :: pre), post. split; [reflexivity|]. split.
           ++ rewrite count_new_cons, count_present_cons, Hpres. f_equal; lia.
           ++ cbn [range_events].
              rewrite (item_events_write _ _ _ i r None Hpres Hdry).
              destruct err1 as [x|].
              ** destruct Herr as (r' & post' & -> & Hnew' & Hdry' & -> & Hstop).
                 exists r', post'. repeat split; try done.
                 --- replace (i + Z.of_nat (length (r :: pre)))
                       with (i + 1 + Z.of_nat (length pre)) by (cbn [length]; lia).
                     now rewrite <- !app_assoc.
                 --- intros others. cbn [app]. rewrite Hcons. cbv zeta.
                     rewrite ?Hpres, ?Hdry, ?Hadd, Hstop.
                     unfold after_events. cbn [fst snd].
                     now rewrite <- !app_assoc.
              ** destruct Herr as [-> ->]. split; [done|].
                 now rewrite <- !app_assoc.
Qed.

(** ** The run *)

(** The three ways through [Run]: the fetch fails, the list fails, or the
    loop is entered on the fetched items with the counters at zero. *)
Lemma Run_cases e ctx w res err w' tr (repos : slice github.StarredRepo)
    gerr w1 existing lerr w2 :
  export.Run e ctx w = (res, err, w', tr) ->
  export.GetStarredRepos (export.gh e) ctx w = (repos, gerr, w1) ->
  export.GetBookmarkURLsByTag (export.pb e) ctx "github-repo" w1
  = (existing, lerr, w2) ->
  match gerr, lerr with
  | Some x, _ =>
      res = Result.zero /\ err = Some x /\ w' = w1
      /\ tr = [export.CallGetStarredRepos]
  | None, Some x =>
      res = Result.zero /\ err = Some x /\ w' = w2
      /\ tr = [export.CallGetStarredRepos;
               export.CallGetBookmarkURLsByTag "github-repo"]
  | None, None =>
      exists tr',
        tr = export.CallGetStarredRepos
             :: export.CallGetBookmarkURLsByTag "github-repo" :: tr'
        /\ export.Run_range e ctx existing (len repos) 0 0 0 (elems repos) w2
           = (res, err, w', tr')
  end.
Proof.
  intros Hrun Hfetch Hlist. unfold export.Run in Hrun.
  unfold mbind, M_bind, export.call_GetStarredRepos in Hrun.
  rewrite Hfetch in Hrun.
  destruct gerr as [x|].
  - unfold mret, M_ret in Hrun. now injection Hrun as <- <- <- <-.
  - unfold export.call_GetBookmarkURLsByTag in Hrun. rewrite Hlist in Hrun.
    destruct lerr as [x|].
    + unfold mret, M_ret in Hrun. now injection Hrun as <- <- <- <-.
    + cbv zeta in Hrun.
      destruct (export.Run_range e ctx existing (len repos) 0 0 0 (elems repos) w2)
        as [[[res1 err1] w3] t3] eqn:Hloop.
      injection Hrun as <- <- <- <-. now exists t3.
Qed.

(** ** What a trace shows *)

Lemma progress_calls_item e existing total i r err :
  progress_calls (item_events e existing total i r err)
  = match export.OnProgress e with
    | Some _ => [progress_of existing total i r]
    | None => []
    end.
Proof.
  unfold progress_calls, item_events, progress_events. rewrite omap_app.
  destruct (export.OnProgress e), (bool_decide (present existing r)),
    (export.DryRun e); reflexivity.
Qed.

Lemma writes_item e existing total i r err :
  writes (item_events e existing total i r err)
  = if bool_decide (present existing r) then []
    else if export.DryRun e then []
    else [(export.RepoToBookmark r, err)].
Proof.
  unfold writes, item_events, progress_events. rewrite omap_app.
  destruct (export.OnProgress e), (bool_decide (present existing r)),
    (export.DryRun e); reflexivity.
Qed.

Lemma progress_calls_range e existing total repos :
  forall i,
    progress_calls (range_events e existing total i repos)
    = match export.OnProgress e with
      | Some _ => progress_list existing total i repos
      | None => []
      end.
Proof.
  induction repos as [|r rest IH]; intros i; cbn [range_events progress_list].
  - now destruct (export.OnProgress e).
  - unfold progress_calls in *. rewrite omap_app.
    fold (progress_calls (item_events e existing total i r None)).
    rewrite progress_calls_item, IH.
    now destruct (export.OnProgress e).
Qed.

Lemma writes_range e existing total repos :
  forall i,
    writes (range_events e existing total i repos)
    = if export.DryRun e then []
      else map (fun r => (export.RepoToBookmark r, None))
               (filter (fun r => ¬ present existing r) repos).
Proof.
  induction repos as [|r rest IH]; intros i; cbn [range_events].
  - now destruct (export.DryRun e).
  - unfold writes in *. rewrite omap_app.
    fold (writes (item_events e existing total i r None)).
    rewrite writes_item, IH, filter_cons.
    destruct (decide (¬ present existing r)) as [Hn|Hp].
    + rewrite bool_decide_eq_false_2 by done.
      now destruct (export.DryRun e).
    + rewrite bool_decide_eq_true_2 by (now apply dec_stable). reflexivity.
Qed.

Lemma length_writes_range e existing total i repos :
  export.DryRun e = false ->
  Z.of_nat (length (writes (range_events e existing total i repos)))
  = count_new existing repos.
Proof.
  intros Hd. rewrite writes_range, Hd, length_map. reflexivity.
Qed.

(** The writes of a pass without write error all returned nil. *)
Lemma writes_range_nil e existing total i repos (n : nat) b err :
  writes (range_events e existing total i repos) !! n = Some (b, err) ->
  err = None.
Proof.
  rewrite writes_range. destruct (export.DryRun e); [done|].
  rewrite list_lookup_fmap. destruct (_ !! n); cbn; congruence.
Qed.

Lemma length_progress_list existing total repos :
  forall i, length (progress_list existing total i repos) = length repos.
Proof.
  induction repos as [|r rest IH]; intros i; cbn; [reflexivity|].
  now rewrite IH.
Qed.

(** The [j]-th progress event is that of the [j]-th item. *)
Lemma lookup_progress_list existing total repos :
  forall i (j : nat),
    progress_list existing total i repos !! j
    = progress_of existing total (i + Z.of_nat j) <$> repos !! j.
Proof.
  induction repos as [|r rest IH]; intros i j; [reflexivity|].
  destruct j as [|j]; cbn [progress_list lookup list_lookup fmap option_fmap option_map].
  - now rewrite Z.add_0_r.
  - change (progress_list existing total (i + 1) rest !! j
            = progress_of existing total (i + Z.of_nat (S j)) <$> rest !! j).
    rewrite IH. do 2 f_equal. lia.
Qed.

(** No event of a pass without write error is a failed write. *)
Lemma range_events_no_failure e existing total repos :
  forall i ev,
    ev ∈ range_events e existing total i repos ->
    forall b x, ev <> export.CallAddBookmark b (Some x).
Proof.
  induction repos as [|r rest IH]; intros i ev Hev b x; cbn [range_events] in Hev.
  - now apply elem_of_nil in Hev.
  - apply elem_of_app in Hev as [Hev|Hev]; [|now apply (IH (i + 1))].
    unfold item_events, progress_events in Hev.
    destruct (export.OnProgress e), (bool_decide (present existing r)),
      (export.DryRun e); cbn in Hev;
      rewrite ?elem_of_cons, ?elem_of_nil in Hev;
      intuition (subst; discriminate).
Qed.

Lemma last_failed_write e existing total i r (x : Err) (l : list (export.Event Err)) :
  ¬ present existing r -> export.DryRun e = false ->
  last (l ++ item_events e existing total i r (Some x))
  = Some (export.CallAddBookmark (export.RepoToBookmark r) (Some x)).
Proof.
  intros Hn Hd. rewrite item_events_write; [|now apply bool_decide_eq_false|done].
  rewrite !app_assoc. apply last_snoc.
Qed.

Lemma range_events_app e existing total repos repos' :
  forall i,
    range_events e existing total i (repos ++ repos')
    = range_events e existing total i repos
      ++ range_events e existing total (i + Z.of_nat (length repos)) repos'.
Proof.
  induction repos as [|r rest IH]; intros i; cbn [app range_events length].
  - now rewrite Z.add_0_r.
  - rewrite IH, <- app_assoc. do 3 f_equal. lia.
Qed.

Lemma progress_list_app existing total repos repos' :
  forall i,
    progress_list existing total i (repos ++ repos')
    = progress_list existing total i repos
      ++ progress_list existing total (i + Z.of_nat (length repos)) repos'.
Proof.
  induction repos as [|r rest IH]; intros i; cbn [app progress_list length].
  - now rewrite Z.add_0_r.
  - rewrite IH. cbn. do 3 f_equal. lia.
Qed.

Lemma all_present_counts existing repos :
  (forall r, r ∈ repos -> present existing r) ->
  count_new existing repos = 0
  /\ count_present existing repos = Z.of_nat (length repos)
  /\ filter (fun r => ¬ present existing r) repos = [].
Proof.
  induction repos as [|r rest IH]; intros Hall; [done|].
  destruct IH as (Hn & Hp & Hf); [intros r' Hr'; apply Hall; now right|].
  assert (Hr : present existing r) by (apply Hall; now left).
  rewrite count_new_cons, count_present_cons, filter_cons.
  rewrite bool_decide_eq_true_2 by done.
  destruct (decide (¬ present existing r)); [done|].
  cbn [length]. repeat split; [lia | lia | done].
Qed.

(** A run whose fetch and list succeed: where the loop stops, what it
    returns and what it has logged. *)
Lemma Run_entered e ctx w res err w' tr (repos : slice github.StarredRepo)
    w1 existing w2 :
  export.Run e ctx w = (res, err, w', tr) ->
  export.GetStarredRepos (export.gh e) ctx w = (repos, None, w1) ->
  export.GetBookmarkURLsByTag (export.pb e) ctx "github-repo" w1
  = (existing, None, w2) ->
  len repos <= int_max ->
  exists pre post,
    elems repos = pre ++ post
    /\ res = {| Result.Total := len repos;
                Result.Added := count_new existing pre;
                Result.Skipped := count_present existing pre |}
    /\ match err with
       | None =>
           post = []
           /\ tr = export.CallGetStarredRepos
                   :: export.CallGetBookmarkURLsByTag "github-repo"
                   :: range_events e existing (len repos) 0 pre
       | Some x =>
           exists r post',
             post = r :: post'
             /\ ¬ present existing r
             /\ export.DryRun e = false
             /\ tr = export.CallGetStarredRepos
                     :: export.CallGetBookmarkURLsByTag "github-repo"
                     :: range_events e existing (len repos) 0 pre
                        ++ item_events e existing (len repos)
                             (Z.of_nat (length pre)) r (Some x)
             /\ forall others,
                  export.Run_range e ctx existing (len repos) 0 0 0
                    (pre ++ r :: others) w2
                  = (res, err, w',
                     range_events e existing (len repos) 0 pre
                     ++ item_events e existing (len repos)
                          (Z.of_nat (length pre)) r (Some x))
       end.
Proof.
  intros Hrun Hfetch Hlist Hlen.
  destruct (Run_cases _ _ _ _ _ _ _ _ _ _ _ _ _ Hrun Hfetch Hlist)
    as (tr' & -> & Hloop).
  apply Run_range_spec in Hloop as (pre & post & Hsplit & -> & Herr);
    [|lia|lia|lia|unfold len in Hlen; lia].
  exists pre, post. split; [done|]. split; [done|].
  destruct err as [x|].
  - destruct Herr as (r & post' & -> & Hnew & Hdry & -> & Hstop).
    exists r, post'. repeat split; done.
  - destruct Herr as [-> ->]. done.
Qed.
End ExporterFacts.

(** ** The claims about [Run] *)

Section RunClaims.
Context `{UnicodeTables}.
Context {Ctx W Err : Type}.

(** A run [Run e ctx w] and the answers of its two reads: the fetch
    answers [(repos, gerr)] and leaves the world [w1]; the list, when it is
    called, answers [(existing, lerr)] and leaves [w2].  A slice has at
    most [int_max] elements. *)
Variable e : export.Exporter Ctx W Err.
Variable ctx : Ctx.
Variables w w1 w2 w' : W.
Variable repos : slice github.StarredRepo.
Variable existing : gmap string bool.
Variables gerr lerr err : option Err.
Variable res : Result.t.
Variable tr : list (export.Event Err).

Hypothesis Hrun : export.Run e ctx w = (res, err, w', tr).
Hypothesis Hfetch :
  export.GetStarredRepos (export.gh e) ctx w = (repos, gerr, w1).
Hypothesis Hlist :
  export.GetBookmarkURLsByTag (export.pb e) ctx "github-repo" w1
  = (existing, lerr, w2).
Hypothesis Hlen : len repos <= int_max.

(** C3, amended.  A run that returns from full success, from the fetch
    error or from the list error has Total = Added + Skipped.  A run that
    returns from the write error has Added + Skipped equal to the number of
    items before the failing one, which is less than Total. *)
Theorem Run_total_added_skipped :
  (err = None ->
     Result.Total res = Result.Added res + Result.Skipped res)
  /\ (is_Some gerr ->
        Result.Total res = Result.Added res + Result.Skipped res)
  /\ (gerr = None -> is_Some lerr ->
        Result.Total res = Result.Added res + Result.Skipped res)
  /\ (gerr = None -> lerr = None -> is_Some err ->
        exists pre r post,
          elems repos = pre ++ r :: post
          /\ last tr = Some (export.CallAddBookmark (export.RepoToBookmark r) err)
          /\ Result.Added res + Result.Skipped res = Z.of_nat (length pre)
          /\ Result.Added res + Result.Skipped res < Result.Total res).
Proof.
  pose proof (Run_cases _ _ _ _ _ _ _ _ _ _ _ _ _ Hrun Hfetch Hlist) as Hcases.
  destruct gerr as [gx|].
  { destruct Hcases as (-> & -> & _ & _). repeat split; done. }
  destruct lerr as [lx|].
  { destruct Hcases as (-> & -> & _ & _). repeat split; done. }
  clear Hcases.
  destruct (Run_entered _ _ _ _ _ _ _ _ _ _ _ Hrun Hfetch Hlist Hlen)
    as (pre & post & Hsplit & -> & Herr).
  cbn [Result.Total Result.Added Result.Skipped].
  pose proof (count_present_new existing pre) as Hcount.
  split; [|split; [|split]].
  - intros ->. destruct Herr as [-> _]. rewrite app_nil_r in Hsplit.
    unfold len. rewrite Hsplit. lia.
  - intros [? ?]; done.
  - intros _ [? ?]; done.
  - intros _ _ [x ->].
    destruct Herr as (r & post' & -> & Hnew & Hdry & -> & Hstop).
    exists pre, r, post'. split; [done|]. split.
    + rewrite !app_comm_cons. now apply last_failed_write.
    + split; [lia|]. unfold len. rewrite Hsplit, length_app. cbn [length]. lia.
Qed.

(** C4.  If the write with 0-based number [k] (the (k+1)-th write) fails
    with [x], Run returns [x] with the result accumulated so far: Added is
    [k], the number of writes that succeeded, and Skipped the number of
    items skipped so far.  The failing write is the last write and the last
    event of the run: the trace holds the events of the items before the
    failing one and of the failing one, and none for the items after it;
    and whatever items follow the failing one, the loop returns the same
    result and error, leaves the same world and logs the same events. *)
Theorem Run_write_error (k : nat) (b : pinboard.Bookmark) (x : Err) :
  writes tr !! k = Some (b, Some x) ->
  err = Some x
  /\ Result.Added res = Z.of_nat k
  /\ Z.of_nat k + 1 <= Result.Total res
  /\ length (writes tr) = S k
  /\ last tr = Some (export.CallAddBookmark b (Some x))
  /\ exists pre r post,
       elems repos = pre ++ r :: post
       /\ b = export.RepoToBookmark r
       /\ Result.Total res = len repos
       /\ Result.Added res = count_new existing pre
       /\ Result.Skipped res = count_present existing pre
       /\ tr = export.CallGetStarredRepos
               :: export.CallGetBookmarkURLsByTag "github-repo"
               :: range_events e existing (len repos) 0 pre
                  ++ item_events e existing (len repos)
                       (Z.of_nat (length pre)) r (Some x)
       /\ forall others,
            export.Run_range e ctx existing (len repos) 0 0 0
              (pre ++ r :: others) w2
            = (res, err, w',
               range_events e existing (len repos) 0 pre
               ++ item_events e existing (len repos)
                    (Z.of_nat (length pre)) r (Some x)).
Proof.
  intros Hk.
  pose proof (Run_cases _ _ _ _ _ _ _ _ _ _ _ _ _ Hrun Hfetch Hlist) as Hcases.
  destruct gerr as [gx|].
  { destruct Hcases as (_ & _ & _ & ->). cbn in Hk. done. }
  destruct lerr as [lx|].
  { destruct Hcases as (_ & _ & _ & ->). cbn in Hk. done. }
  clear Hcases.
  destruct (Run_entered _ _ _ _ _ _ _ _ _ _ _ Hrun Hfetch Hlist Hlen)
    as (pre & post & Hsplit & -> & Herr).
  destruct err as [x'|].
  - destruct Herr as (r & post' & -> & Hnew & Hdry & -> & Hstop).
    assert (Hw : writes (export.CallGetStarredRepos
                  :: export.CallGetBookmarkURLsByTag "github-repo"
                  :: range_events e existing (len repos) 0 pre
                     ++ item_events e existing (len repos)
                          (Z.of_nat (length pre)) r (Some x'))
                 = writes (range_events e existing (len repos) 0 pre)
                   ++ [(export.RepoToBookmark r, Some x')]).
    { unfold writes at 1. cbn [omap list_omap]. rewrite omap_app.
      fold (writes (range_events e existing (len repos) 0 pre)).
      fold (writes (item_events e existing (len repos) (Z.of_nat (length pre))
                      r (Some x'))).
      rewrite writes_item, Hdry.
      now rewrite bool_decide_eq_false_2. }
    rewrite Hw in Hk |- *.
    pose proof (length_writes_range e existing (len repos) 0 pre Hdry) as Hcnt.
    destruct (decide (k < length (writes (range_events e existing (len repos) 0 pre)))%nat)
      as [Hlt|Hge].
    { rewrite lookup_app_l in Hk by done.
      apply writes_range_nil in Hk. done. }
    rewrite lookup_app_r in Hk by lia.
    destruct (k - length (writes (range_events e existing (len repos) 0 pre)))%nat
      as [|n] eqn:Hd; [|destruct n; done].
    cbn in Hk. injection Hk as <- <-.
    assert (Hkeq : k = length (writes (range_events e existing (len repos) 0 pre)))
      by lia.
    cbn [Result.Total Result.Added Result.Skipped].
    pose proof (count_present_new existing pre) as Hcount.
    pose proof (count_present_nonneg existing pre) as Hpos.
    split; [done|]. split; [lia|]. split.
    { unfold len. rewrite Hsplit, length_app. cbn [length]. lia. }
    split; [rewrite length_app; cbn [length]; lia|]. split.
    { rewrite !app_comm_cons. now apply last_failed_write. }
    exists pre, r, post'. repeat split; done.
  - destruct Herr as [-> ->].
    change (writes (range_events e existing (len repos) 0 pre) !! k
            = Some (b, Some x)) in Hk.
    apply writes_range_nil in Hk. done.
Qed.

(** C5.  If the fetch fails, or the fetch succeeds and the list fails, Run
    returns the zero Result with the error of the failing call as it is;
    the failing call is the last call made, so no write is made. *)
Theorem Run_read_error :
  (forall x, gerr = Some x ->
     res = Result.zero /\ err = Some x /\ w' = w1
     /\ tr = [export.CallGetStarredRepos] /\ writes tr = [])
  /\ (forall x, gerr = None -> lerr = Some x ->
        res = Result.zero /\ err = Some x /\ w' = w2
        /\ tr = [export.CallGetStarredRepos;
                 export.CallGetBookmarkURLsByTag "github-repo"]
        /\ writes tr = []).
Proof.
  pose proof (Run_cases _ _ _ _ _ _ _ _ _ _ _ _ _ Hrun Hfetch Hlist) as Hcases.
  split.
  - intros x ->. destruct Hcases as (-> & -> & -> & ->). done.
  - intros x -> ->. destruct Hcases as (-> & -> & -> & ->). done.
Qed.

Lemma writes_dry_range i (l : list github.StarredRepo) :
  export.DryRun e = true ->
  writes (export.CallGetStarredRepos
          :: export.CallGetBookmarkURLsByTag "github-repo"
          :: range_events e existing (len repos) i l) = [].
Proof.
  intros Hdry. unfold writes. cbn [omap list_omap].
  fold (writes (range_events e existing (len repos) i l)).
  now rewrite writes_range, Hdry.
Qed.

(** C6.  A dry run makes no write.  When its fetch gives n items and its
    list a set in which s of them are, it reports Added = n - s and
    Skipped = s, with no error. *)
Theorem Run_dry_run :
  export.DryRun e = true ->
  writes tr = []
  /\ (gerr = None -> lerr = None ->
        err = None
        /\ Result.Total res = len repos
        /\ Result.Skipped res = count_present existing (elems repos)
        /\ Result.Added res = len repos - count_present existing (elems repos)
        /\ Result.Added res = count_new existing (elems repos)).
Proof.
  intros Hdry.
  pose proof (Run_cases _ _ _ _ _ _ _ _ _ _ _ _ _ Hrun Hfetch Hlist) as Hcases.
  destruct gerr as [gx|].
  { destruct Hcases as (_ & _ & _ & ->). done. }
  destruct lerr as [lx|].
  { destruct Hcases as (_ & _ & _ & ->). done. }
  clear Hcases.
  destruct (Run_entered _ _ _ _ _ _ _ _ _ _ _ Hrun Hfetch Hlist Hlen)
    as (pre & post & Hsplit & -> & Herr).
  destruct err as [x|].
  { destruct Herr as (r & post' & _ & _ & Hwet & _). congruence. }
  destruct Herr as [-> ->]. rewrite app_nil_r in Hsplit. subst pre.
  split; [now apply writes_dry_range|]. intros _ _.
  cbn [Result.Total Result.Added Result.Skipped].
  pose proof (count_present_new existing (elems repos)) as Hcount.
  unfold len. repeat split; lia.
Qed.

(** C7, amended.  In a run with a registered progress callback whose fetch
    and list succeed and in which no write fails, the callback is called
    exactly once per fetched item, in processing order: the call with
    0-based number [j] carries Current = j + 1, Total = the number of
    fetched items, the full name of item [j], and as Skipped the membership
    of the item's mapped URL in the existing-URL set; it is made before the
    write of item [j], if there is one, and the number of calls is Total.
    When a write fails, the callback has been called like this for the
    items up to the failing one, and for none after it. *)
Theorem Run_progress (f : Progress.t -> W -> W) :
  export.OnProgress e = Some f ->
  gerr = None -> lerr = None ->
  (err = None ->
     Z.of_nat (length (progress_calls tr)) = Result.Total res
     /\ Result.Total res = len repos
     /\ (forall j : nat,
           progress_calls tr !! j
           = (fun r =>
                {| Progress.Current := Z.of_nat j + 1;
                   Progress.Total := len repos;
                   Progress.RepoName := github.FullName r;
                   Progress.Skipped :=
                     bool_decide (pinboard.URL (export.RepoToBookmark r)
                                  ∈ url_set existing) |})
             <$> elems repos !! j)
     /\ (forall (j : nat) r,
           elems repos !! j = Some r ->
           exists before after,
             tr = before
                  ++ export.CallOnProgress
                       (progress_of existing (len repos) (Z.of_nat j) r)
                     :: (if bool_decide (present existing r) then []
                         else if export.DryRun e then []
                         else [export.CallAddBookmark (export.RepoToBookmark r) None])
                  ++ after
             /\ length (progress_calls before) = j))
  /\ (forall x, err = Some x ->
        exists pre r post,
          elems repos = pre ++ r :: post
          /\ progress_calls tr
             = progress_list existing (len repos) 0 (pre ++ [r])
          /\ last tr = Some (export.CallAddBookmark (export.RepoToBookmark r) (Some x))).
Proof.
  intros Hcb -> ->.
  destruct (Run_entered _ _ _ _ _ _ _ _ _ _ _ Hrun Hfetch Hlist Hlen)
    as (pre & post & Hsplit & -> & Herr).
  cbn [Result.Total].
  assert (Hhead : forall l : list (export.Event Err),
             progress_calls (export.CallGetStarredRepos
                             :: export.CallGetBookmarkURLsByTag "github-repo" :: l)
             = progress_calls l) by reflexivity.
  split.
  - intros ->. destruct Herr as [-> ->]. rewrite app_nil_r in Hsplit. subst pre.
    rewrite Hhead, progress_calls_range, Hcb.
    split; [now rewrite length_progress_list|]. split; [done|]. split.
    + intros j. rewrite lookup_progress_list, Z.add_0_l. reflexivity.
    + intros j r Hj.
      pose proof (take_drop_middle _ _ _ Hj) as Hmid.
      assert (Htake : length (take j (elems repos)) = j).
      { apply length_take_le. apply lookup_lt_Some in Hj. lia. }
      exists (export.CallGetStarredRepos
              :: export.CallGetBookmarkURLsByTag "github-repo"
              :: range_events e existing (len repos) 0 (take j (elems repos))),
             (range_events e existing (len repos) (Z.of_nat j + 1)
                (drop (S j) (elems repos))).
      split.
      * rewrite <- Hmid at 1. rewrite range_events_app. cbn [range_events].
        rewrite Htake, Z.add_0_l.
        unfold item_events, progress_events. rewrite Hcb.
        reflexivity.
      * rewrite Hhead, progress_calls_range, Hcb, length_progress_list. done.
  - intros x ->. destruct Herr as (r & post' & -> & Hnew & Hdry & -> & Hstop).
    exists pre, r, post'. split; [done|]. split.
    + rewrite Hhead. unfold progress_calls. rewrite omap_app.
      fold (progress_calls (range_events e existing (len repos) 0 pre)).
      fold (progress_calls (item_events e existing (len repos)
                              (Z.of_nat (length pre)) r (Some x))).
      rewrite progress_calls_range, progress_calls_item, Hcb.
      rewrite progress_list_app. cbn [progress_list]. now rewrite Z.add_0_l.
    + rewrite !app_comm_cons. now apply last_failed_write.
Qed.

(** C8.  If the fetch and the list succeed and the existing-URL set holds
    the URL of every fetched item, Run makes no write and returns, without
    error, Added = 0 and Skipped = Total. *)
Theorem Run_idempotent :
  gerr = None -> lerr = None ->
  (forall r, r ∈ elems repos -> github.HTMLURL r ∈ url_set existing) ->
  err = None
  /\ writes tr = []
  /\ Result.Added res = 0
  /\ Result.Skipped res = Result.Total res
  /\ Result.Total res = len repos.
Proof.
  intros -> -> Hall.
  destruct (Run_entered _ _ _ _ _ _ _ _ _ _ _ Hrun Hfetch Hlist Hlen)
    as (pre & post & Hsplit & -> & Herr).
  destruct err as [x|].
  { destruct Herr as (r & post' & -> & Hnew & _).
    exfalso. apply Hnew, Hall. rewrite Hsplit.
    apply elem_of_app. right. now left. }
  destruct Herr as [-> ->]. rewrite app_nil_r in Hsplit. subst pre.
  destruct (all_present_counts existing (elems repos) Hall) as (Hn & Hp & Hf).
  cbn [Result.Total Result.Added Result.Skipped].
  split; [done|]. split.
  - unfold writes. cbn [omap list_omap].
    fold (writes (range_events e existing (len repos) 0 (elems repos))).
    rewrite writes_range, Hf. now destruct (export.DryRun e).
  - unfold len. repeat split; lia.
Qed.
End RunClaims.

(** ** The claims on the test doubles *)

Section OnTheMocks.
Import export_test.
#[local] Existing Instance uncased.

Lemma uncased_no_space : @UnicodeNoSpace uncased.
Proof. intros s Hs. exact Hs. Qed.

(** The cases of TestNormaliseTags. *)
Example TestNormaliseTags_mixed_case :
  export.NormaliseTags (Slice ["GoLang"; "WebDev"]) = Slice ["golang"; "webdev"].
Proof. reflexivity. Qed.

Example TestNormaliseTags_spaces_to_hyphens :
  export.NormaliseTags (Slice ["machine learning"; "data science"])
  = Slice ["machine-learning"; "data-science"].
Proof. reflexivity. Qed.

Example TestNormaliseTags_empty_slice :
  export.NormaliseTags (Slice []) = Slice []
  /\ export.NormaliseTags NilSlice = Slice [].
Proof. split; reflexivity. Qed.

Example TestNormaliseTags_mixed_case_with_spaces :
  export.NormaliseTags (Slice ["Go Lang"; "WEB Dev"]) = Slice ["go-lang"; "web-dev"].
Proof. reflexivity. Qed.

(** TestRepoToBookmark and TestRepoToBookmarkEmptyTopics. *)
Example TestRepoToBookmark :
  pinboard.Tags
    (export.RepoToBookmark
       (repo "golang/go" "https://github.com/golang/go" (Slice ["Language"; "Compiler"])))
  = Slice ["github-repo"; "language"; "compiler"].
Proof. reflexivity. Qed.

Example TestRepoToBookmarkEmptyTopics :
  pinboard.Tags (export.RepoToBookmark repo_also) = Slice ["github-repo"].
Proof. reflexivity. Qed.

(** TestRunSkipsExistingBookmarks: of three items the first and the third
    are in the store; the second alone is written. *)
Example TestRunSkipsExistingBookmarks :
  let x := export.Run (exporter false None) tt
             (setup (Slice [repo_go; repo_new; repo_also]) None (Some existingURLs)
                None None) in
  run_error x = None
  /\ run_result x = {| Result.Total := 3; Result.Added := 1; Result.Skipped := 2 |}
  /\ mockPinboardClient.addedBookmarks (pbClient (run_world x))
     = Slice [export.RepoToBookmark repo_new].
Proof. vm_compute. repeat split. Qed.

(** TestRunDryRun: one new item, counted and not written. *)
Example TestRunDryRun :
  let x := export.Run (exporter true None) tt
             (setup (Slice [repo_go]) None None None None) in
  run_error x = None
  /\ Result.Added (run_result x) = 1
  /\ mockPinboardClient.addedBookmarks (pbClient (run_world x)) = NilSlice.
Proof. vm_compute. repeat split. Qed.

(** TestRunProgress: two items, two calls of the callback, 1/2 then 2/2. *)
Example TestRunProgress :
  let x := export.Run (exporter false (Some record_progress)) tt
             (setup (Slice [repo_one; repo_two]) None None None None) in
  progressCalls (run_world x)
  = Slice [ {| Progress.Current := 1; Progress.Total := 2;
               Progress.RepoName := "a/one"; Progress.Skipped := false |};
            {| Progress.Current := 2; Progress.Total := 2;
               Progress.RepoName := "b/two"; Progress.Skipped := false |} ].
Proof. vm_compute. reflexivity. Qed.

Lemma NormaliseTags_spec_witness :
  let tags := export.NormaliseTags (Slice ["Go Lang"; "WEB Dev"]) in
  is_nil tags = false
  /\ len tags = 2
  /\ elems tags !! 0%nat = Some "go-lang"
  /\ elems tags !! 1%nat = Some "web-dev"
  /\ elems tags !! 2%nat = None.
Proof.
  destruct (NormaliseTags_spec uncased_no_space (Slice ["Go Lang"; "WEB Dev"]))
    as (Hnil & Hlen & Hat & Hout & _).
  split; [exact Hnil|]. split; [exact Hlen|].
  split; [exact (Hat 0%nat "Go Lang" eq_refl)|].
  split; [exact (Hat 1%nat "WEB Dev" eq_refl)|].
  exact (Hout 2%nat eq_refl).
Defined.

(** One item, and the store refuses the write: Total is 1 while nothing was
    added and nothing skipped. *)
Lemma Run_total_counterexample :
  let x := export.Run (exporter false None) tt
             (setup (Slice [repo_one]) None None (Some "pinboard error") None) in
  run_error x = Some "pinboard error"
  /\ run_result x = {| Result.Total := 1; Result.Added := 0; Result.Skipped := 0 |}
  /\ Result.Total (run_result x)
     <> Result.Added (run_result x) + Result.Skipped (run_result x).
Proof. vm_compute. repeat split; discriminate. Qed.

(** Three items, the first already present, and the write of the second
    fails: Added + Skipped = 1 < 3 = Total. *)
Lemma Run_total_added_skipped_witness :
  let w := setup (Slice [repo_go; repo_new; repo_also]) None (Some existingURLs)
             (Some "pinboard error") None in
  let x := export.Run (exporter false None) tt w in
  exists pre r post,
    [repo_go; repo_new; repo_also] = pre ++ r :: post
    /\ last (run_trace x)
       = Some (export.CallAddBookmark (export.RepoToBookmark r) (run_error x))
    /\ Result.Added (run_result x) + Result.Skipped (run_result x)
       = Z.of_nat (length pre)
    /\ Result.Added (run_result x) + Result.Skipped (run_result x)
       < Result.Total (run_result x).
Proof.
  intros w x.
  refine (proj2 (proj2 (proj2
    (Run_total_added_skipped (exporter false None) tt w w w (run_world x)
       (Slice [repo_go; repo_new; repo_also]) existingURLs None None
       (run_error x) (run_result x) (run_trace x) _ _ _ _))) eq_refl eq_refl _).
  - vm_compute. reflexivity.
  - reflexivity.
  - reflexivity.
  - vm_compute. discriminate.
  - vm_compute. eauto.
Defined.

Lemma Run_write_error_witness :
  let w := setup (Slice [repo_go; repo_new; repo_also]) None (Some existingURLs)
             (Some "pinboard error") None in
  let x := export.Run (exporter false None) tt w in
  run_error x = Some "pinboard error"
  /\ Result.Added (run_result x) = 0
  /\ 0 + 1 <= Result.Total (run_result x)
  /\ length (writes (run_trace x)) = 1%nat
  /\ last (run_trace x)
     = Some (export.CallAddBookmark (export.RepoToBookmark repo_new)
               (Some "pinboard error")).
Proof.
  intros w x.
  destruct (Run_write_error (exporter false None) tt w w w (run_world x)
              (Slice [repo_go; repo_new; repo_also]) existingURLs None None
              (run_error x) (run_result x) (run_trace x)
              ltac:(vm_compute; reflexivity) eq_refl eq_refl
              ltac:(vm_compute; discriminate)
              0%nat (export.RepoToBookmark repo_new) "pinboard error"
              ltac:(vm_compute; reflexivity))
    as (Herr & Hadded & Htotal & Hwrites & Hlast & _).
  repeat split; assumption.
Defined.

Lemma Run_read_error_witness :
  let w := setup (Slice [repo_one]) (Some "github API error") None None None in
  let x := export.Run (exporter false None) tt w in
  run_result x = Result.zero
  /\ run_error x = Some "github API error"
  /\ run_world x = w
  /\ run_trace x = [export.CallGetStarredRepos]
  /\ writes (run_trace x) = [].
Proof.
  intros w x.
  refine (proj1
    (Run_read_error (exporter false None) tt w w w (run_world x)
       (Slice [repo_one]) ∅ (Some "github API error") None
       (run_error x) (run_result x) (run_trace x) _ _ _) _ eq_refl).
  - vm_compute. reflexivity.
  - reflexivity.
  - reflexivity.
Defined.

Lemma Run_dry_run_witness :
  let w := setup (Slice [repo_go; repo_new; repo_also]) None (Some existingURLs)
             None None in
  let x := export.Run (exporter true None) tt w in
  writes (run_trace x) = []
  /\ run_error x = None
  /\ Result.Total (run_result x) = 3
  /\ Result.Skipped (run_result x) = 2
  /\ Result.Added (run_result x) = 3 - 2.
Proof.
  intros w x.
  destruct (Run_dry_run (exporter true None) tt w w w (run_world x)
              (Slice [repo_go; repo_new; repo_also]) existingURLs None None
              (run_error x) (run_result x) (run_trace x)
              ltac:(vm_compute; reflexivity) eq_refl eq_refl
              ltac:(vm_compute; discriminate) eq_refl)
    as (Hwrites & Hcounts).
  destruct (Hcounts eq_refl eq_refl) as (Herr & Htotal & Hskipped & Hadded & _).
  split; [exact Hwrites|]. split; [exact Herr|]. split; [exact Htotal|].
  split; [exact Hskipped | exact Hadded].
Defined.

(** Two items, a registered callback, and the store refuses the first
    write: two items were fetched and Total is 2, yet the callback was
    called once. *)
Lemma Run_progress_counterexample :
  let w := setup (Slice [repo_one; repo_two]) None None (Some "pinboard error") None in
  let x := export.Run (exporter false (Some record_progress)) tt w in
  Result.Total (run_result x) = 2
  /\ length (progress_calls (run_trace x)) = 1%nat
  /\ progressCalls (run_world x)
     = Slice [ {| Progress.Current := 1; Progress.Total := 2;
                  Progress.RepoName := "a/one"; Progress.Skipped := false |} ].
Proof. vm_compute. repeat split. Qed.

Lemma Run_progress_witness :
  let w := setup (Slice [repo_go; repo_new; repo_also]) None (Some existingURLs)
             None None in
  let x := export.Run (exporter false (Some record_progress)) tt w in
  Z.of_nat (length (progress_calls (run_trace x))) = Result.Total (run_result x)
  /\ Result.Total (run_result x) = 3
  /\ progress_calls (run_trace x) !! 1%nat
     = Some {| Progress.Current := 2; Progress.Total := 3;
               Progress.RepoName := "user/new-repo"; Progress.Skipped := false |}.
Proof.
  intros w x.
  destruct (Run_progress (exporter false (Some record_progress)) tt w w w (run_world x)
              (Slice [repo_go; repo_new; repo_also]) existingURLs None None
              (run_error x) (run_result x) (run_trace x)
              ltac:(vm_compute; reflexivity) eq_refl eq_refl
              ltac:(vm_compute; discriminate)
              record_progress eq_refl eq_refl eq_refl)
    as (Hok & _).
  destruct (Hok eq_refl) as (Hcount & Htotal & Hat & _).
  split; [exact Hcount|]. split; [exact Htotal|].
  exact (Hat 1%nat).
Defined.

Lemma Run_idempotent_witness :
  let w := setup (Slice [repo_go; repo_also]) None (Some existingURLs) None None in
  let x := export.Run (exporter false None) tt w in
  run_error x = None
  /\ writes (run_trace x) = []
  /\ Result.Added (run_result x) = 0
  /\ Result.Skipped (run_result x) = Result.Total (run_result x)
  /\ Result.Total (run_result x) = 2.
Proof.
  intros w x.
  refine (Run_idempotent (exporter false None) tt w w w (run_world x)
            (Slice [repo_go; repo_also]) existingURLs None None
            (run_error x) (run_result x) (run_trace x) _ _ _ _ eq_refl eq_refl _).
  - vm_compute. reflexivity.
  - reflexivity.
  - reflexivity.
  - vm_compute. discriminate.
  - intros r Hr. cbn [elems] in Hr.
    apply elem_of_cons in Hr as [->|Hr]; [vm_compute; reflexivity|].
    apply elem_of_cons in Hr as [->|Hr]; [vm_compute; reflexivity|].
    now apply elem_of_nil in Hr.
Defined.
End OnTheMocks.

(** * The progress bar of the command line *)

Section ProgressBar.

Lemma length_append (s1 s2 : string) :
  String.length (s1 +:+ s2) = (String.length s1 + String.length s2)%nat.
Proof.
  induction s1 as [|c s1 IH]; [reflexivity|].
  change (S (String.length (s1 +:+ s2))
          = S (String.length s1 + String.length s2)).
  now rewrite IH.
Qed.

Lemma length_repeat_string (c : string) (n : nat) :
  String.length (repeat_string c n) = (String.length c * n)%nat.
Proof.
  induction n as [|n IH]; cbn [repeat_string]; [cbn; lia|].
  rewrite length_append, IH. lia.
Qed.

Lemma Repeat_byte (c : string) (count : Z) :
  String.length c = 1%nat -> 0 <= count <= int_max ->
  Repeat c count = Ok (repeat_string c (Z.to_nat count)).
Proof.
  intros Hc Hcount. unfold Repeat. rewrite Hc.
  destruct (count <? 0) eqn:Hneg; [apply Z.ltb_lt in Hneg; lia|].
  destruct (int_max <? Z.of_nat 1 * count) eqn:Hov; [apply Z.ltb_lt in Hov; lia|].
  reflexivity.
Qed.

Lemma Repeat_panic (c : string) (count : Z) p :
  String.length c = 1%nat -> count <= int_max ->
  Repeat c count = Panic p -> p = NegativeRepeatCount /\ count < 0.
Proof.
  intros Hc Hcount. unfold Repeat. rewrite Hc.
  destruct (count <? 0) eqn:Hneg.
  - apply Z.ltb_lt in Hneg. intros [= <-]. done.
  - destruct (int_max <? Z.of_nat 1 * count) eqn:Hov; [apply Z.ltb_lt in Hov; lia|].
    discriminate.
Qed.

Lemma wrap_is_int z : is_int (wrap z).
Proof.
  unfold is_int, wrap, int_min, int_max.
  pose proof (Z.mod_pos_bound (z + 2 ^ 63) (2 ^ 64) ltac:(lia)). lia.
Qed.

(** With one item fetched and a buggy caller at item 2, the bar would need
    60 '=' and -30 spaces: [strings.Repeat] panics. *)
Lemma progressBar_counterexample :
  0 <= 30 /\ main.progressBar 2 1 30 = Panic NegativeRepeatCount.
Proof. split; [lia | reflexivity]. Qed.

(** C10, amended.  For every current and every non-negative width,
    progressBar never divides by zero: when total is 0 it returns the bar
    of exactly width spaces between brackets, and when total is not 0 the
    division is made with a non-zero divisor.  It returns a bar whenever
    total is 0, and for a non-zero total whenever 0 <= current <= total
    and width * current fits an int, as in every call the command line
    makes; the one panic it can raise is that of [strings.Repeat] on a
    negative count. *)
Theorem progressBar_spec (current total width : Z) :
  0 <= width <= int_max ->
  (total = 0 ->
     main.progressBar current total width
     = Ok ("[" +:+ repeat_string " " (Z.to_nat width) +:+ "]")
     /\ String.length (repeat_string " " (Z.to_nat width)) = Z.to_nat width)
  /\ (forall p,
        main.progressBar current total width = Panic p ->
        p = NegativeRepeatCount /\ total <> 0)
  /\ (total <> 0 ->
        int_quo (int_mul width current) total
        = Ok (wrap (Z.quot (wrap (width * current)) total)))
  /\ (total <> 0 -> 0 <= current <= total -> width * current <= int_max ->
        let filled := width * current / total in
        0 <= filled <= width
        /\ main.progressBar current total width
           = Ok ("[" +:+ repeat_string "=" (Z.to_nat filled)
                     +:+ repeat_string " " (Z.to_nat (width - filled)) +:+ "]")).
Proof.
  intros Hwidth. unfold main.progressBar.
  split; [|split; [|split]].
  - intros ->. cbn [Z.eqb]. rewrite Repeat_byte by (done || lia).
    split; [reflexivity|]. rewrite length_repeat_string. cbn. lia.
  - intros p. destruct (total =? 0) eqn:Htotal.
    + rewrite Repeat_byte by (done || lia). discriminate.
    + apply Z.eqb_neq in Htotal. unfold int_quo.
      rewrite (proj2 (Z.eqb_neq total 0) Htotal).
      cbn [mbind outcome_bind obind].
      set (filled := wrap (Z.quot (int_mul width current) total)).
      pose proof (wrap_is_int (Z.quot (int_mul width current) total)) as Hf.
      fold filled in Hf.
      destruct (Repeat "=" filled) as [bar|q] eqn:Hbar.
      * cbn [mbind outcome_bind obind].
        pose proof (wrap_is_int (width - filled)) as He.
        destruct (Repeat " " (int_sub width filled)) as [rest|q] eqn:Hrest.
        -- discriminate.
        -- intros [= <-]. apply Repeat_panic in Hrest as [-> _];
             [done | done | apply He].
      * intros [= <-]. apply Repeat_panic in Hbar as [-> _];
          [done | done | apply Hf].
  - intros Htotal. unfold int_quo, int_mul.
    now rewrite (proj2 (Z.eqb_neq total 0) Htotal).
  - intros Htotal Hcur Hmul. set (filled := width * current / total).
    assert (Hpos : 0 < total) by lia.
    assert (Hprod : 0 <= width * current) by nia.
    assert (Hfilled : 0 <= filled <= width).
    { unfold filled. split; [apply Z.div_pos; lia|].
      apply Z.div_le_upper_bound; [lia|]. nia. }
    split; [exact Hfilled|].
    rewrite (proj2 (Z.eqb_neq total 0) Htotal).
    unfold int_quo, int_mul, int_sub.
    rewrite (proj2 (Z.eqb_neq total 0) Htotal).
    rewrite (wrap_small (width * current))
      by (unfold is_int, int_min; lia).
    rewrite Z.quot_div_nonneg by lia. fold filled.
    rewrite (wrap_small filled) by (unfold is_int, int_min; lia).
    cbn [mbind outcome_bind obind].
    rewrite (wrap_small (width - filled)) by (unfold is_int, int_min; lia).
    rewrite !Repeat_byte by (done || lia).
    reflexivity.
Qed.

Lemma progressBar_spec_witness :
  main.progressBar 7 0 4 = Ok "[    ]"
  /\ main.progressBar 1 2 30 = Ok "[===============               ]".
Proof.
  assert (Hw4 : 0 <= 4 <= int_max) by (unfold int_max; lia).
  assert (Hw30 : 0 <= 30 <= int_max) by (unfold int_max; lia).
  split.
  - exact (proj1 (proj1 (progressBar_spec 7 0 4 Hw4) eq_refl)).
  - refine (proj2 (proj2 (proj2 (proj2 (progressBar_spec 1 2 30 Hw30))) _ _ _)).
    + discriminate.
    + lia.
    + unfold int_max. lia.
Defined.
End ProgressBar.

(** * The rate limiter of the Pinboard client *)

Section RateLimiter.
Context {W : Type}.
Variable time_Now : W -> Z.
Variable resume_at : Z -> W -> W.
Variable select_tie : W -> pinboard.select_case.
Variable Values_Encode : gmap string string -> string.
Variable NewRequestWithContext :
  pinboard.Context -> string -> string -> pinboard.error + pinboard.Request.
Variable httpClient_Do :
  pinboard.Request -> W -> (pinboard.error + pinboard.Response) * W.
Variable json_result_code : string -> pinboard.error + string.

Let AddBookmark :=
  pinboard.AddBookmark time_Now resume_at select_tie Values_Encode
    NewRequestWithContext httpClient_Do json_result_code.
Let rate_limit := pinboard.rate_limit time_Now resume_at select_tie.
Let send :=
  pinboard.send Values_Encode NewRequestWithContext httpClient_Do json_result_code.

(** A channel closed before the timer fires wins the [select]. *)
Lemma select_done_first t0 d fire tie :
  Z.max t0 d < Z.max t0 fire ->
  pinboard.select_done_timer t0 (Some d) fire tie = (pinboard.CaseDone, Z.max t0 d).
Proof.
  intros Hlt. unfold pinboard.select_done_timer.
  now rewrite (proj2 (Z.ltb_lt _ _) Hlt).
Qed.

(** Every error of the request itself is built by [fmt.Errorf]. *)
Lemma send_error c ctx b w err w' tr :
  send c ctx b w = (Some err, w', tr) ->
  exists format args, err = pinboard.Errorf format args.
Proof.
  unfold send, pinboard.send.
  destruct (NewRequestWithContext ctx _ _) as [e0|req].
  { intros [= <- _ _]. eauto. }
  unfold mbind, M_bind, pinboard.Do.
  destruct (httpClient_Do req w) as [[e1|resp] w1].
  { intros [= <- _ _]. eauto. }
  destruct (pinboard.Body resp) as [e2|body].
  { intros [= <- _ _]. eauto. }
  destruct (negb (pinboard.StatusCode resp =? pinboard.StatusOK)).
  { intros [= <- _ _]. eauto. }
  destruct (json_result_code body) as [e3|code].
  { intros [= <- _ _]. eauto. }
  destruct (negb (code =? "done")%string).
  { intros [= <- _ _]. eauto. }
  intros [= ].
Qed.

(** The rate limiter issues no request. *)
Lemma rate_limit_no_request c ctx w r w' tr req :
  rate_limit c ctx w = (r, w', tr) -> pinboard.HTTPDo req ∉ tr.
Proof.
  unfold rate_limit, pinboard.rate_limit.
  destruct (negb (pinboard.IsZero (pinboard.lastCall c))).
  - unfold mbind, M_bind, pinboard.now.
    destruct (_ <? _).
    + unfold pinboard.select_Done_or_timer.
      destruct (pinboard.select_done_timer _ _ _ _) as [k t].
      destruct k; intros [= _ _ <-]; cbn;
        rewrite !elem_of_cons, elem_of_nil; intuition discriminate.
    + intros [= _ _ <-]. cbn. apply not_elem_of_nil.
  - intros [= _ _ <-]. apply not_elem_of_nil.
Qed.

(** C9.  When a wait is due (the client has made a call, and less than the
    minimum delay has passed since) and the context is done at an instant
    before the end of that wait, AddBookmark returns the error of the
    context, as it is; it leaves the client as it was, resumes at the
    instant the context is done, which is before the end of the wait, and
    has made no HTTP request.  No other return of AddBookmark gives a
    bare context error: whenever it returns one, no request was made. *)
Theorem AddBookmark_cancelled_in_wait c ctx b w (done : Z) :
  pinboard.lastCall c <> 0 ->
  time_Now w - pinboard.lastCall c < pinboard.minDelay c ->
  pinboard.Done ctx = Some done ->
  done < pinboard.lastCall c + pinboard.minDelay c ->
  let resumed := Z.max (time_Now w) done in
  AddBookmark c ctx b w
  = (Some (pinboard.ContextError (pinboard.Err ctx)), c,
     resume_at resumed w, [pinboard.Resumed pinboard.CaseDone resumed])
  /\ resumed < pinboard.lastCall c + pinboard.minDelay c
  /\ (forall req, pinboard.HTTPDo req
                  ∉ [pinboard.Resumed pinboard.CaseDone resumed])
  /\ (forall c0 ctx0 b0 w0 k c1 w1 tr,
        AddBookmark c0 ctx0 b0 w0 = (Some (pinboard.ContextError k), c1, w1, tr) ->
        c1 = c0 /\ forall req, pinboard.HTTPDo req ∉ tr).
Proof.
  intros Hcalled Hdue Hdone Hbefore resumed.
  assert (Hres : resumed < pinboard.lastCall c + pinboard.minDelay c)
    by (unfold resumed; lia).
  split; [|split; [exact Hres|split]].
  - unfold AddBookmark, pinboard.AddBookmark, pinboard.rate_limit.
    unfold pinboard.IsZero. rewrite (proj2 (Z.eqb_neq _ _) Hcalled).
    cbn [negb]. unfold mbind, M_bind, pinboard.now.
    rewrite (proj2 (Z.ltb_lt _ _) Hdue).
    unfold pinboard.select_Done_or_timer. rewrite Hdone.
    rewrite select_done_first by (fold resumed; lia).
    reflexivity.
  - intros req. rewrite elem_of_cons, elem_of_nil. intuition discriminate.
  - intros c0 ctx0 b0 w0 k c1 w1 tr.
    unfold AddBookmark, pinboard.AddBookmark. unfold mbind at 1, M_bind at 1.
    fold (rate_limit c0 ctx0).
    destruct (rate_limit c0 ctx0 w0) as [[r w2] t2] eqn:Hlimit.
    destruct r as [err|].
    + unfold mret, M_ret. intros [= _ <- _ <-]. split; [done|].
      intros req. rewrite app_nil_r.
      now apply (rate_limit_no_request _ _ _ _ _ _ req) in Hlimit.
    + unfold mbind, M_bind, pinboard.now.
      match goal with
      | |- context [pinboard.send _ _ _ _ ?c' ctx0 b0 w2] =>
          fold (send c' ctx0 b0 w2);
          destruct (send c' ctx0 b0 w2) as [[serr w3] t3] eqn:Hsend
      end.
      unfold mret, M_ret. intros [= Herr _ _ _]. subst serr.
      apply send_error in Hsend as (format & args & [=]).
Qed.

End RateLimiter.

(** TestRateLimitingRespectsContext: the first call was made at instant
    1000 ms; the second is entered at 1001 ms with a context that times out
    50 ms later, while the wait would last until 6000 ms. *)
Lemma AddBookmark_cancelled_in_wait_witness :
  let t1 := 1001 * pinboard_test.Millisecond in
  let c := pinboard_test.client (1000 * pinboard_test.Millisecond) in
  pinboard_test.AddBookmark c (pinboard_test.ctx_timeout t1) pinboard_test.bookmark t1
  = (Some (pinboard.ContextError pinboard.DeadlineExceeded), c,
     1051 * pinboard_test.Millisecond,
     [pinboard.Resumed pinboard.CaseDone (1051 * pinboard_test.Millisecond)])
  /\ 1051 * pinboard_test.Millisecond < 6000 * pinboard_test.Millisecond.
Proof.
  intros t1 c.
  destruct (AddBookmark_cancelled_in_wait
              pinboard_test.time_Now pinboard_test.resume_at pinboard_test.select_tie
              pinboard_test.Values_Encode pinboard_test.NewRequestWithContext
              pinboard_test.httpClient_Do pinboard_test.json_result_code
              c (pinboard_test.ctx_timeout t1) pinboard_test.bookmark t1
              (t1 + 50 * pinboard_test.Millisecond))
    as (Hret & Hbefore & _).
  - vm_compute. discriminate.
  - vm_compute. reflexivity.
  - reflexivity.
  - vm_compute. reflexivity.
  - split; [exact Hret | exact Hbefore].
Defined.

(** TestRateLimiting: with a context that is never done, the second call
    waits until the minimum delay has passed, and then makes its request. *)
Example TestRateLimiting :
  let t1 := 1001 * pinboard_test.Millisecond in
  let c := pinboard_test.client (1000 * pinboard_test.Millisecond) in
  exists req,
    pinboard_test.AddBookmark c pinboard_test.Background pinboard_test.bookmark t1
    = (None, pinboard_test.client (6000 * pinboard_test.Millisecond),
       6000 * pinboard_test.Millisecond,
       [pinboard.Resumed pinboard.CaseTimer (6000 * pinboard_test.Millisecond);
        pinboard.HTTPDo req]).
Proof. eexists. vm_compute. reflexivity. Qed.

(** * More on the progress bar *)

Section ProgressBarMore.

(** The bar for a position inside the range. *)
Lemma progressBar_in_range (current total width : Z) :
  total <> 0 -> 0 <= current <= total -> 0 <= width <= int_max ->
  width * current <= int_max ->
  0 <= width * current / total <= width
  /\ main.progressBar current total width
     = Ok ("[" +:+ repeat_string "=" (Z.to_nat (width * current / total))
               +:+ repeat_string " " (Z.to_nat (width - width * current / total))
               +:+ "]").
Proof.
  intros Htotal Hcur Hwidth Hmul. set (filled := width * current / total).
  assert (Hpos : 0 < total) by lia.
  assert (Hprod : 0 <= width * current) by nia.
  assert (Hfilled : 0 <= filled <= width).
  { unfold filled. split; [apply Z.div_pos; lia|].
    apply Z.div_le_upper_bound; [lia|]. nia. }
  split; [exact Hfilled|].
  unfold main.progressBar.
  rewrite (proj2 (Z.eqb_neq total 0) Htotal).
  unfold int_quo, int_mul, int_sub.
  rewrite (proj2 (Z.eqb_neq total 0) Htotal).
  rewrite (wrap_small (width * current)) by (unfold is_int, int_min; lia).
  rewrite Z.quot_div_nonneg by lia. fold filled.
  rewrite (wrap_small filled) by (unfold is_int, int_min; lia).
  cbn [mbind outcome_bind obind].
  rewrite (wrap_small (width - filled)) by (unfold is_int, int_min; lia).
  rewrite !Repeat_byte by (done || lia).
  reflexivity.
Qed.

(** X1.  Whenever progressBar returns, for a non-negative width and any
    current and total, the bar is width + 2 bytes long: the brackets and
    width bytes between them. *)
Theorem progressBar_length (current total width : Z) (bar : string) :
  0 <= width <= int_max ->
  main.progressBar current total width = Ok bar ->
  String.length bar = (Z.to_nat width + 2)%nat.
Proof.
  intros Hwidth. unfold main.progressBar.
  destruct (total =? 0) eqn:Htotal.
  - rewrite Repeat_byte by (done || lia). cbn [mbind outcome_bind obind mret outcome_ret].
    intros [= <-]. rewrite !length_append, length_repeat_string. cbn. lia.
  - unfold int_quo. rewrite Htotal. cbn [mbind outcome_bind obind].
    set (filled := wrap (Z.quot (int_mul width current) total)).
    pose proof (wrap_is_int (Z.quot (int_mul width current) total)) as Hf.
    fold filled in Hf. unfold is_int, int_min, int_max in Hf.
    assert (Hw : 0 <= width <= 2 ^ 63 - 1) by (unfold int_max in Hwidth; lia).
    destruct (Repeat "=" filled) as [eqs|p] eqn:Heqs; [|discriminate].
    cbn [mbind outcome_bind obind].
    destruct (Repeat " " (int_sub width filled)) as [sps|p] eqn:Hsps; [|discriminate].
    cbn [mbind outcome_bind obind mret outcome_ret]. intros [= <-].
    assert (Hfpos : 0 <= filled).
    { destruct (Z.lt_ge_cases filled 0) as [Hneg|]; [|done].
      unfold Repeat in Heqs. rewrite (proj2 (Z.ltb_lt _ _) Hneg) in Heqs. done. }
    assert (Hsub : int_sub width filled = width - filled)
      by (apply wrap_small; unfold is_int, int_min, int_max; lia).
    rewrite Hsub in Hsps.
    assert (Hepos : 0 <= width - filled).
    { destruct (Z.lt_ge_cases (width - filled) 0) as [Hneg|]; [|done].
      unfold Repeat in Hsps. rewrite (proj2 (Z.ltb_lt _ _) Hneg) in Hsps. done. }
    rewrite Repeat_byte in Heqs by (done || unfold int_max; lia).
    rewrite Repeat_byte in Hsps by (done || unfold int_max; lia).
    injection Heqs as <-. injection Hsps as <-.
    rewrite !length_append, !length_repeat_string. cbn. lia.
Qed.

Lemma progressBar_length_witness :
  String.length "[===============               ]" = (Z.to_nat 30 + 2)%nat.
Proof.
  apply (progressBar_length 1 2 30).
  - unfold int_max. lia.
  - reflexivity.
Defined.

(** X2.  Inside the range the bar only grows: for 0 <= c1 <= c2 <= total
    the bar of c1 has no more '=' than the bar of c2; the bar of 0 has
    none and the bar of total has width of them. *)
Theorem progressBar_monotone (c1 c2 total width : Z) :
  0 < total -> 0 <= c1 <= c2 -> c2 <= total -> 0 <= width <= int_max ->
  width * total <= int_max ->
  exists f1 f2,
    0 <= f1 <= f2 /\ f2 <= width
    /\ main.progressBar c1 total width
       = Ok ("[" +:+ repeat_string "=" (Z.to_nat f1)
                 +:+ repeat_string " " (Z.to_nat (width - f1)) +:+ "]")
    /\ main.progressBar c2 total width
       = Ok ("[" +:+ repeat_string "=" (Z.to_nat f2)
                 +:+ repeat_string " " (Z.to_nat (width - f2)) +:+ "]")
    /\ (c1 = 0 -> f1 = 0)
    /\ (c2 = total -> f2 = width).
Proof.
  intros Htotal Hc Hc2 Hwidth Hmul.
  destruct (progressBar_in_range c1 total width) as [Hf1 Hb1]; [lia|lia|lia|nia|].
  destruct (progressBar_in_range c2 total width) as [Hf2 Hb2]; [lia|lia|lia|nia|].
  exists (width * c1 / total), (width * c2 / total).
  split; [split; [lia|]|].
  { apply Z.div_le_mono; [lia|]. nia. }
  split; [lia|]. split; [exact Hb1|]. split; [exact Hb2|]. split.
  - intros ->. rewrite Z.mul_0_r. apply Z.div_0_l. lia.
  - intros ->. apply Z.div_mul. lia.
Qed.

Lemma progressBar_monotone_witness :
  exists f1 f2,
    0 <= f1 <= f2 /\ f2 <= 30
    /\ main.progressBar 1 3 30
       = Ok ("[" +:+ repeat_string "=" (Z.to_nat f1)
                 +:+ repeat_string " " (Z.to_nat (30 - f1)) +:+ "]")
    /\ main.progressBar 3 3 30
       = Ok ("[" +:+ repeat_string "=" (Z.to_nat f2)
                 +:+ repeat_string " " (Z.to_nat (30 - f2)) +:+ "]")
    /\ (1 = 0 -> f1 = 0)
    /\ (3 = 3 -> f2 = 30).
Proof.
  apply (progressBar_monotone 1 3 3 30); unfold int_max; lia.
Defined.
End ProgressBarMore.

(** * More on the run *)

Section RunMore.
Context `{UnicodeTables}.
Context {Ctx W Err : Type}.

Variable e : export.Exporter Ctx W Err.
Variable ctx : Ctx.
Variables w w1 w2 w' : W.
Variable repos : slice github.StarredRepo.
Variable existing : gmap string bool.
Variables gerr lerr err : option Err.
Variable res : Result.t.
Variable tr : list (export.Event Err).

Hypothesis Hrun : export.Run e ctx w = (res, err, w', tr).
Hypothesis Hfetch :
  export.GetStarredRepos (export.gh e) ctx w = (repos, gerr, w1).
Hypothesis Hlist :
  export.GetBookmarkURLsByTag (export.pb e) ctx "github-repo" w1
  = (existing, lerr, w2).
Hypothesis Hlen : len repos <= int_max.

Let new_items (l : list github.StarredRepo) : list github.StarredRepo :=
  filter (fun r => ¬ present existing r) l.

(** The shape of a run: which items it went through, what it returned and
    what it logged; [failing] is the item whose write failed, if one did. *)
Lemma Run_shape :
  (is_Some gerr /\ res = Result.zero /\ err = gerr
   /\ tr = [export.CallGetStarredRepos])
  \/ (gerr = None /\ is_Some lerr /\ res = Result.zero /\ err = lerr
      /\ tr = [export.CallGetStarredRepos;
               export.CallGetBookmarkURLsByTag "github-repo"])
  \/ (gerr = None /\ lerr = None
      /\ exists pre failing,
           res = {| Result.Total := len repos;
                    Result.Added := count_new existing pre;
                    Result.Skipped := count_present existing pre |}
           /\ tr = export.CallGetStarredRepos
                   :: export.CallGetBookmarkURLsByTag "github-repo"
                   :: range_events e existing (len repos) 0 pre ++ failing
           /\ ((err = None /\ pre = elems repos /\ failing = [])
               \/ exists r post x,
                    err = Some x
                    /\ elems repos = pre ++ r :: post
                    /\ ¬ present existing r
                    /\ export.DryRun e = false
                    /\ failing
                       = progress_events e existing (len repos)
                           (Z.of_nat (length pre)) r
                         ++ [export.CallAddBookmark (export.RepoToBookmark r) (Some x)])).
Proof.
  pose proof (Run_cases _ _ _ _ _ _ _ _ _ _ _ _ _ Hrun Hfetch Hlist) as Hcases.
  destruct gerr as [gx|].
  { left. destruct Hcases as (-> & -> & _ & ->). eauto. }
  destruct lerr as [lx|].
  { right. left. destruct Hcases as (-> & -> & _ & ->). eauto 10. }
  right. right. clear Hcases. split; [done|]. split; [done|].
  destruct (Run_entered _ _ _ _ _ _ _ _ _ _ _ Hrun Hfetch Hlist Hlen)
    as (pre & post & Hsplit & -> & Herr).
  destruct err as [x|].
  - destruct Herr as (r & post' & -> & Hnew & Hdry & -> & _).
    exists pre, (progress_events e existing (len repos) (Z.of_nat (length pre)) r
                 ++ [export.CallAddBookmark (export.RepoToBookmark r) (Some x)]).
    split; [done|]. split.
    + rewrite item_events_write; [done | now apply bool_decide_eq_false | done].
    + right. exists r, post', x. done.
  - destruct Herr as [-> ->]. rewrite app_nil_r in Hsplit.
    exists pre, []. rewrite app_nil_r. split; [done|]. split; [done|].
    left. done.
Qed.

Lemma writes_progress_events i r :
  writes (progress_events e existing (len repos) i r) = [].
Proof. unfold progress_events. now destruct (export.OnProgress e). Qed.

Lemma progress_calls_progress_events i r :
  progress_calls (progress_events e existing (len repos) i r)
  = match export.OnProgress e with
    | Some _ => [progress_of existing (len repos) i r]
    | None => []
    end.
Proof. unfold progress_events. now destruct (export.OnProgress e). Qed.

Lemma writes_run pre (failing : list (export.Event Err)) :
  writes (export.CallGetStarredRepos
          :: export.CallGetBookmarkURLsByTag "github-repo"
          :: range_events e existing (len repos) 0 pre ++ failing)
  = (if export.DryRun e then []
     else map (fun r => (export.RepoToBookmark r, None)) (new_items pre))
    ++ writes failing.
Proof.
  unfold writes at 1. cbn [omap list_omap]. rewrite omap_app.
  fold (writes (range_events e existing (len repos) 0 pre)). fold (writes failing).
  now rewrite writes_range.
Qed.

(** X3.  A run without error that is not a dry run writes exactly the
    bookmarks of the fetched items whose URL is not in the existing-URL set,
    once each, in fetch order, and every write returned nil. *)
Theorem Run_writes_new_items :
  gerr = None -> lerr = None -> err = None -> export.DryRun e = false ->
  writes tr
  = map (fun r => (export.RepoToBookmark r, None))
        (filter (fun r => github.HTMLURL r ∉ url_set existing) (elems repos)).
Proof.
  intros Hg Hl He Hdry.
  destruct Run_shape as [(Hs & _)|[(_ & Hs & _)|(_ & _ & pre & failing & _ & -> & Hend)]].
  - rewrite Hg in Hs. now destruct Hs.
  - rewrite Hl in Hs. now destruct Hs.
  - destruct Hend as [(_ & -> & ->)|(r & post & x & Hx & _)]; [|congruence].
    rewrite writes_run, Hdry. cbn. now rewrite app_nil_r.
Qed.

(** X4.  In every run, whatever its outcome, each write made is the write
    of the bookmark of a fetched item whose URL is not in the existing-URL
    set; the bookmark is private, and the run is not a dry run. *)
Theorem Run_write_safety (b : pinboard.Bookmark) (werr : option Err) :
  (b, werr) ∈ writes tr ->
  export.DryRun e = false
  /\ (pinboard.URL b ∉ url_set existing)
  /\ pinboard.Private b = true
  /\ exists r, r ∈ elems repos /\ b = export.RepoToBookmark r.
Proof.
  intros Hin.
  destruct Run_shape as [(_ & _ & _ & ->)|[(_ & _ & _ & _ & ->)
                        |(_ & _ & pre & failing & _ & -> & Hend)]].
  - cbn in Hin. now apply elem_of_nil in Hin.
  - cbn in Hin. now apply elem_of_nil in Hin.
  - rewrite writes_run in Hin. apply elem_of_app in Hin as [Hin|Hin].
    + destruct (export.DryRun e); [now apply elem_of_nil in Hin|].
      apply list_elem_of_fmap in Hin as (r & [= -> ->] & Hr).
      apply list_elem_of_filter in Hr as [Hnew Hr].
      repeat split; try done.
      exists r. split; [|done].
      destruct Hend as [(_ & -> & _)|(r' & post & x & _ & -> & _)]; [done|].
      apply elem_of_app. now left.
    + destruct Hend as [(_ & _ & ->)|(r & post & x & _ & Hsplit & Hnew & Hdry & ->)].
      { now apply elem_of_nil in Hin. }
      unfold writes in Hin. rewrite omap_app in Hin.
      fold (writes (progress_events e existing (len repos) (Z.of_nat (length pre)) r)) in Hin.
      rewrite writes_progress_events in Hin. cbn in Hin.
      apply list_elem_of_singleton in Hin as [= -> ->].
      repeat split; try done.
      exists r. split; [|done]. rewrite Hsplit.
      apply elem_of_app. right. now left.
Qed.

(** X5.  The tag by which a run lists the existing bookmarks is the first
    tag of every bookmark it writes: what a run adds, a later run's list
    asks for. *)
Theorem Run_lists_by_first_tag (tag : string) (b : pinboard.Bookmark)
    (werr : option Err) :
  export.CallGetBookmarkURLsByTag tag ∈ tr ->
  (b, werr) ∈ writes tr ->
  elems (pinboard.Tags b) !! 0%nat = Some tag.
Proof.
  intros Htag Hin.
  destruct Run_shape as [(_ & _ & _ & ->)|[(_ & _ & _ & _ & ->)
                        |(_ & _ & pre & failing & _ & -> & Hend)]].
  - cbn in Hin. now apply elem_of_nil in Hin.
  - cbn in Hin. now apply elem_of_nil in Hin.
  - assert (Hsentinel : elems (pinboard.Tags b) !! 0%nat = Some "github-repo").
    { rewrite writes_run in Hin. apply elem_of_app in Hin as [Hin|Hin].
      - destruct (export.DryRun e); [now apply elem_of_nil in Hin|].
        now apply list_elem_of_fmap in Hin as (r & [= -> ->] & Hr).
      - destruct Hend as [(_ & _ & ->)|(r & post & x & _ & _ & _ & _ & ->)].
        { now apply elem_of_nil in Hin. }
        unfold writes in Hin. rewrite omap_app in Hin.
        fold (writes (progress_events e existing (len repos) (Z.of_nat (length pre)) r))
          in Hin.
        rewrite writes_progress_events in Hin. cbn in Hin.
        now apply list_elem_of_singleton in Hin as [= -> ->]. }
    rewrite Hsentinel. f_equal.
    apply elem_of_cons in Htag as [[=]|Htag].
    apply elem_of_cons in Htag as [[= ->]|Htag]; [done|].
    exfalso. apply elem_of_app in Htag as [Htag|Htag].
    + (* the loop lists nothing *)
      clear -Htag. revert Htag. generalize 0. induction pre as [|r pre IH]; intros i Htag.
      * now apply elem_of_nil in Htag.
      * cbn [range_events] in Htag. apply elem_of_app in Htag as [Htag|Htag];
          [|now apply IH in Htag].
        unfold item_events, progress_events in Htag.
        destruct (export.OnProgress e), (bool_decide (present existing r)),
          (export.DryRun e); cbn in Htag;
          rewrite ?elem_of_cons, ?elem_of_nil in Htag; intuition discriminate.
    + destruct Hend as [(_ & _ & ->)|(r & post & x & _ & _ & _ & _ & ->)].
      { now apply elem_of_nil in Htag. }
      unfold progress_events in Htag.
      destruct (export.OnProgress e); cbn in Htag;
        rewrite ?elem_of_cons, ?elem_of_nil in Htag; intuition discriminate.
Qed.


(** X7.  In a run that is not a dry run, Added is the number of writes that
    returned nil, whatever the outcome of the run. *)
Theorem Run_added_counts_writes :
  export.DryRun e = false ->
  Result.Added res
  = Z.of_nat (length (filter (fun bw => bw.2 = None) (writes tr))).
Proof.
  intros Hdry.
  destruct Run_shape as [(_ & -> & _ & ->)|[(_ & _ & -> & _ & ->)
                        |(_ & _ & pre & failing & -> & -> & Hend)]].
  - reflexivity.
  - reflexivity.
  - rewrite writes_run, Hdry, filter_app, length_app. cbn [Result.Added].
    assert (Hok : filter (fun bw : pinboard.Bookmark * option Err => bw.2 = None)
                    (map (fun r => (export.RepoToBookmark r, None)) (new_items pre))
                  = map (fun r => (export.RepoToBookmark r, None)) (new_items pre)).
    { induction (new_items pre) as [|r l IH]; [done|].
      cbn [map]. rewrite filter_cons.
      destruct (decide _) as [_|Hn]; [now rewrite IH | done]. }
    rewrite Hok, length_map.
    assert (Hfail : filter (fun bw : pinboard.Bookmark * option Err => bw.2 = None)
                      (writes failing) = []).
    { destruct Hend as [(_ & _ & ->)|(r & post & x & _ & _ & _ & _ & ->)]; [done|].
      unfold writes. rewrite omap_app.
      fold (writes (progress_events e existing (len repos) (Z.of_nat (length pre)) r)).
      rewrite writes_progress_events. cbn [app omap list_omap].
      rewrite filter_cons. destruct (decide _) as [Hn|_]; done. }
    rewrite Hfail. unfold count_new, new_items. cbn [length]. lia.
Qed.

(** X8.  For every call of the progress callback in any run over fewer than
    2^63 / 30 items, Current lies between 1 and Total, and the bar the
    command line draws for it, progressBar(Current, Total, 30), is returned
    without panic and is 32 bytes long. *)
Theorem Run_progress_bar (p : Progress.t) :
  30 * len repos <= int_max ->
  p ∈ progress_calls tr ->
  1 <= Progress.Current p <= Progress.Total p
  /\ Progress.Total p = len repos
  /\ exists bar,
       main.progressBar (Progress.Current p) (Progress.Total p) 30 = Ok bar
       /\ String.length bar = 32%nat.
Proof.
  intros Hsmall Hin.
  assert (Hcalls : exists processed rest,
             elems repos = processed ++ rest
             /\ progress_calls tr
                = match export.OnProgress e with
                  | Some _ => progress_list existing (len repos) 0 processed
                  | None => []
                  end).
  { destruct Run_shape as [(_ & _ & _ & ->)|[(_ & _ & _ & _ & ->)
                          |(_ & _ & pre & failing & _ & -> & Hend)]].
    - exists [], (elems repos). split; [done|]. now destruct (export.OnProgress e).
    - exists [], (elems repos). split; [done|]. now destruct (export.OnProgress e).
    - unfold progress_calls. cbn [omap list_omap]. rewrite omap_app.
      fold (progress_calls (range_events e existing (len repos) 0 pre)).
      fold (progress_calls failing). rewrite progress_calls_range.
      destruct Hend as [(_ & -> & ->)|(r & post & x & _ & -> & _ & _ & ->)].
      + exists (elems repos), []. rewrite !app_nil_r. split; [done|].
        now destruct (export.OnProgress e).
      + exists (pre ++ [r]), post. split; [now rewrite <- app_assoc|].
        unfold progress_calls. rewrite omap_app.
        fold (progress_calls (progress_events e existing (len repos)
                                (Z.of_nat (length pre)) r)).
        rewrite progress_calls_progress_events, progress_list_app.
        cbn [progress_list]. rewrite Z.add_0_l.
        destruct (export.OnProgress e); cbn; now rewrite ?app_nil_r. }
  destruct Hcalls as (processed & rest & Hsplit & Hcalls). rewrite Hcalls in Hin.
  destruct (export.OnProgress e) as [f|]; [|now apply elem_of_nil in Hin].
  apply list_elem_of_lookup in Hin as [j Hj].
  rewrite lookup_progress_list in Hj.
  destruct (processed !! j) as [r|] eqn:Hr; [|done].
  cbn in Hj. injection Hj as <-.
  apply lookup_lt_Some in Hr.
  assert (Hj : Z.of_nat j + 1 <= len repos).
  { unfold len. rewrite Hsplit, length_app. lia. }
  cbn [progress_of Progress.Current Progress.Total].
  split; [lia|]. split; [done|].
  destruct (progressBar_in_range (0 + Z.of_nat j + 1) (len repos) 30)
    as [Hfilled Hbar]; [lia | lia | unfold int_max; lia | lia |].
  eexists. split; [exact Hbar|].
  rewrite !length_append, !length_repeat_string. cbn. lia.
Qed.
End RunMore.

Section TwoRuns.
Context `{UnicodeTables}.
Context {Ctx W Err : Type}.

(** Two runs, of exporters that may differ in everything, whose fetches
    answer the same items and whose lists answer the same map. *)
Variables e e' : export.Exporter Ctx W Err.
Variables ctx ctx' : Ctx.
Variables w w1 w2 w3 v v1 v2 v3 : W.
Variable repos : slice github.StarredRepo.
Variable existing : gmap string bool.
Variables err err' : option Err.
Variables res res' : Result.t.
Variables tr tr' : list (export.Event Err).

Hypothesis Hrun : export.Run e ctx w = (res, err, w3, tr).
Hypothesis Hfetch :
  export.GetStarredRepos (export.gh e) ctx w = (repos, None, w1).
Hypothesis Hlist :
  export.GetBookmarkURLsByTag (export.pb e) ctx "github-repo" w1
  = (existing, None, w2).
Hypothesis Hrun' : export.Run e' ctx' v = (res', err', v3, tr').
Hypothesis Hfetch' :
  export.GetStarredRepos (export.gh e') ctx' v = (repos, None, v1).
Hypothesis Hlist' :
  export.GetBookmarkURLsByTag (export.pb e') ctx' "github-repo" v1
  = (existing, None, v2).
Hypothesis Hlen : len repos <= int_max.

(** X9.  A dry run predicts the run proper: over the same fetched items and
    the same existing-URL set, a dry run returns without error the very
    Result that a run returns when none of its writes fails. *)
Theorem Run_dry_run_predicts :
  export.DryRun e' = true -> err = None ->
  export.Run e' ctx' v = (res, None, v3, tr').
Proof.
  intros Hdry ->. rewrite Hrun'.
  enough (err' = None /\ res' = res) as [-> ->] by reflexivity.
  destruct (Run_entered _ _ _ _ _ _ _ _ _ _ _ Hrun Hfetch Hlist Hlen)
    as (pre & post & Hsplit & -> & -> & _).
  destruct (Run_entered _ _ _ _ _ _ _ _ _ _ _ Hrun' Hfetch' Hlist' Hlen)
    as (pre' & post' & Hsplit' & -> & Herr').
  destruct err' as [x|].
  { destruct Herr' as (r & post'' & _ & _ & Hwet & _). congruence. }
  destruct Herr' as [-> _].
  rewrite app_nil_r in Hsplit, Hsplit'. split; [done|]. congruence.
Qed.
End TwoRuns.

(** ** The further properties of the run, on the test doubles *)

Section MoreOnTheMocks.
Import export_test.
#[local] Existing Instance uncased.

Let repos3 : slice github.StarredRepo := Slice [repo_go; repo_new; repo_also].
Let store : world := setup repos3 None (Some existingURLs) None None.
Let refusing : world := setup repos3 None (Some existingURLs) (Some "pinboard error") None.

Lemma Run_writes_new_items_witness :
  writes (run_trace (export.Run (exporter false None) tt store))
  = [(export.RepoToBookmark repo_new, None)].
Proof.
  set (x := export.Run (exporter false None) tt store).
  exact (Run_writes_new_items (exporter false None) tt store store store (run_world x)
           repos3 existingURLs None None (run_error x) (run_result x) (run_trace x)
           ltac:(vm_compute; reflexivity) eq_refl eq_refl
           ltac:(vm_compute; discriminate) eq_refl eq_refl eq_refl eq_refl).
Defined.

Lemma Run_write_safety_witness :
  export.DryRun (exporter false None) = false
  /\ (pinboard.URL (export.RepoToBookmark repo_new) ∉ url_set existingURLs)
  /\ pinboard.Private (export.RepoToBookmark repo_new) = true
  /\ exists r, r ∈ elems repos3 /\ export.RepoToBookmark repo_new = export.RepoToBookmark r.
Proof.
  set (x := export.Run (exporter false None) tt refusing).
  apply (Run_write_safety (exporter false None) tt refusing refusing refusing (run_world x)
           repos3 existingURLs None None (run_error x) (run_result x) (run_trace x)
           ltac:(vm_compute; reflexivity) eq_refl eq_refl
           ltac:(vm_compute; discriminate)
           (export.RepoToBookmark repo_new) (Some "pinboard error")).
  apply (list_elem_of_lookup_2 _ 0%nat). vm_compute. reflexivity.
Defined.

Lemma Run_lists_by_first_tag_witness :
  elems (pinboard.Tags (export.RepoToBookmark repo_new)) !! 0%nat = Some "github-repo".
Proof.
  set (x := export.Run (exporter false None) tt store).
  apply (Run_lists_by_first_tag (exporter false None) tt store store store (run_world x)
           repos3 existingURLs None None (run_error x) (run_result x) (run_trace x)
           ltac:(vm_compute; reflexivity) eq_refl eq_refl
           ltac:(vm_compute; discriminate)
           "github-repo" (export.RepoToBookmark repo_new) None).
  - apply (list_elem_of_lookup_2 _ 1%nat). vm_compute. reflexivity.
  - apply (list_elem_of_lookup_2 _ 0%nat). vm_compute. reflexivity.
Defined.


Lemma Run_added_counts_writes_witness :
  let x := export.Run (exporter false None) tt store in
  Result.Added (run_result x)
  = Z.of_nat (length (filter (fun bw => bw.2 = None) (writes (run_trace x)))).
Proof.
  intros x.
  exact (Run_added_counts_writes (exporter false None) tt store store store
           (run_world x) repos3 existingURLs None None (run_error x) (run_result x)
           (run_trace x)
           ltac:(vm_compute; reflexivity) eq_refl eq_refl
           ltac:(vm_compute; discriminate) eq_refl).
Defined.

Lemma Run_progress_bar_witness :
  exists bar, main.progressBar 2 3 30 = Ok bar /\ String.length bar = 32%nat.
Proof.
  set (x := export.Run (exporter false (Some record_progress)) tt store).
  refine (proj2 (proj2
    (Run_progress_bar (exporter false (Some record_progress)) tt store store store
       (run_world x) repos3 existingURLs None None (run_error x) (run_result x)
       (run_trace x)
       ltac:(vm_compute; reflexivity) eq_refl eq_refl
       ltac:(vm_compute; discriminate)
       {| Progress.Current := 2; Progress.Total := 3;
          Progress.RepoName := "user/new-repo"; Progress.Skipped := false |}
       ltac:(vm_compute; discriminate) _))).
  apply (list_elem_of_lookup_2 _ 1%nat). vm_compute. reflexivity.
Defined.

Lemma Run_dry_run_predicts_witness :
  let x := export.Run (exporter false None) tt store in
  let x' := export.Run (exporter true None) tt store in
  x' = (run_result x, None, run_world x', run_trace x').
Proof.
  intros x x'.
  exact (Run_dry_run_predicts (exporter false None) (exporter true None) tt tt
           store store store (run_world x) store store store (run_world x')
           repos3 existingURLs (run_error x) (run_error x') (run_result x)
           (run_result x') (run_trace x) (run_trace x')
           ltac:(vm_compute; reflexivity) eq_refl eq_refl
           ltac:(vm_compute; reflexivity) eq_refl eq_refl
           ltac:(vm_compute; discriminate) eq_refl ltac:(vm_compute; reflexivity)).
Defined.
End MoreOnTheMocks.

(** * More on the Pinboard client *)

Section AddBookmarkMore.
Context {W : Type}.
Variable time_Now : W -> Z.
Variable resume_at : Z -> W -> W.
Variable select_tie : W -> pinboard.select_case.
Variable Values_Encode : gmap string string -> string.
Variable NewRequestWithContext :
  pinboard.Context -> string -> string -> pinboard.error + pinboard.Request.
Variable httpClient_Do :
  pinboard.Request -> W -> (pinboard.error + pinboard.Response) * W.
Variable json_result_code : string -> pinboard.error + string.

Let AddBookmark :=
  pinboard.AddBookmark time_Now resume_at select_tie Values_Encode
    NewRequestWithContext httpClient_Do json_result_code.
Let rate_limit := pinboard.rate_limit time_Now resume_at select_tie.
Let send :=
  pinboard.send Values_Encode NewRequestWithContext httpClient_Do json_result_code.

(** The rate limiter either lets the call through at once, or blocks it in
    the [select]; a [select] left through the timer resumes at
    [lastCall + minDelay]. *)
Lemma rate_limit_cases c ctx w r w1 t1 :
  rate_limit c ctx w = (r, w1, t1) ->
  ((pinboard.lastCall c = 0
    \/ pinboard.minDelay c <= time_Now w - pinboard.lastCall c)
   /\ r = None /\ w1 = w /\ t1 = [])
  \/ (pinboard.lastCall c <> 0
      /\ time_Now w - pinboard.lastCall c < pinboard.minDelay c
      /\ exists k t,
           t1 = [pinboard.Resumed k t] /\ w1 = resume_at t w
           /\ match k with
              | pinboard.CaseDone =>
                  r = Some (pinboard.ContextError (pinboard.Err ctx))
              | pinboard.CaseTimer =>
                  r = None /\ t = pinboard.lastCall c + pinboard.minDelay c
              end).
Proof.
  unfold rate_limit, pinboard.rate_limit, pinboard.IsZero. intros Hrl.
  destruct (pinboard.lastCall c =? 0) eqn:Hzero; cbn [negb] in Hrl.
  { apply Z.eqb_eq in Hzero. unfold mret, M_ret in Hrl.
    injection Hrl as <- <- <-. left. auto. }
  apply Z.eqb_neq in Hzero. unfold mbind, M_bind, pinboard.now in Hrl.
  destruct (time_Now w - pinboard.lastCall c <? pinboard.minDelay c) eqn:Hdue.
  2:{ apply Z.ltb_ge in Hdue. unfold mret, M_ret in Hrl.
      injection Hrl as <- <- <-. left. auto. }
  apply Z.ltb_lt in Hdue. right. split; [done|]. split; [done|].
  unfold pinboard.select_Done_or_timer in Hrl.
  set (t0 := time_Now w) in *.
  set (fire := t0 + (pinboard.minDelay c - (t0 - pinboard.lastCall c))) in *.
  assert (Hfire : Z.max t0 fire = pinboard.lastCall c + pinboard.minDelay c)
    by (unfold fire; lia).
  destruct (pinboard.select_done_timer t0 (pinboard.Done ctx) fire (select_tie w))
    as [k t] eqn:Hsel.
  assert (Htimer : k = pinboard.CaseTimer -> t = Z.max t0 fire).
  { unfold pinboard.select_done_timer in Hsel.
    destruct (pinboard.Done ctx) as [d|]; [|now injection Hsel as <- <-].
    destruct (Z.max t0 d <? Z.max t0 fire); [injection Hsel as <- <-; done|].
    destruct (Z.max t0 fire <? Z.max t0 d); now injection Hsel as <- <-. }
  exists k, t.
  destruct k; unfold mret, M_ret in Hrl; injection Hrl as <- <- <-.
  - done.
  - repeat split. rewrite Htimer by done. exact Hfire.
Qed.

(** The request part of a call makes at most one request, and returns nil
    only for an answer with status 200 and result code "done". *)
Lemma send_cases c ctx b w err w' tr :
  send c ctx b w = (err, w', tr) ->
  (tr = [] /\ w' = w /\ is_Some err)
  \/ exists req,
       tr = [pinboard.HTTPDo req]
       /\ NewRequestWithContext ctx "GET"
            ((pinboard.baseURL c +:+ "/posts/add") +:+ "?"
             +:+ Values_Encode (pinboard.add_query c b)) = inr req
       /\ exists answer,
            httpClient_Do req w = (answer, w')
            /\ (err = None ->
                exists resp body,
                  answer = inr resp
                  /\ pinboard.StatusCode resp = pinboard.StatusOK
                  /\ pinboard.Body resp = inr body
                  /\ json_result_code body = inr "done").
Proof.
  unfold send, pinboard.send.
  destruct (NewRequestWithContext ctx _ _) as [e0|req] eqn:Hreq.
  { unfold mret, M_ret. intros [= <- <- <-]. left. eauto. }
  unfold mbind, M_bind, pinboard.Do.
  destruct (httpClient_Do req w) as [answer w1] eqn:Hdo.
  intros Hsend. right. exists req.
  assert (Hshape : tr = [pinboard.HTTPDo req] /\ w' = w1).
  { destruct answer as [e1|resp]; [injection Hsend as <- <- <-; cbn; done|].
    destruct (pinboard.Body resp) as [e2|body]; [injection Hsend as <- <- <-; cbn; done|].
    destruct (negb (pinboard.StatusCode resp =? pinboard.StatusOK));
      [injection Hsend as <- <- <-; cbn; done|].
    destruct (json_result_code body) as [e3|code]; [injection Hsend as <- <- <-; cbn; done|].
    destruct (negb (code =? "done")%string); injection Hsend as <- <- <-; cbn; done. }
  destruct Hshape as [-> ->]. split; [done|]. split; [done|].
  exists answer. split; [done|]. intros ->.
  destruct answer as [e1|resp]; [now injection Hsend|].
  destruct (pinboard.Body resp) as [e2|body] eqn:Hbody; [now injection Hsend|].
  destruct (pinboard.StatusCode resp =? pinboard.StatusOK) eqn:Hstatus;
    cbn [negb] in Hsend; [|now injection Hsend].
  destruct (json_result_code body) as [e3|code] eqn:Hjson; [now injection Hsend|].
  destruct (code =? "done")%string eqn:Hcode; cbn [negb] in Hsend; [|now injection Hsend].
  apply String.eqb_eq in Hcode. subst code. apply Z.eqb_eq in Hstatus.
  exists resp, body. done.
Qed.

(** A call, taken apart: the rate limiter, then, unless it returned an
    error, the stamp and the request. *)
Lemma AddBookmark_cases c ctx b w err c' w' tr :
  AddBookmark c ctx b w = (err, c', w', tr) ->
  exists r w1 t1,
    rate_limit c ctx w = (r, w1, t1)
    /\ match r with
       | Some x => err = Some x /\ c' = c /\ w' = w1 /\ tr = t1
       | None =>
           c' = {| pinboard.authToken := pinboard.authToken c;
                   pinboard.baseURL := pinboard.baseURL c;
                   pinboard.lastCall := time_Now w1;
                   pinboard.minDelay := pinboard.minDelay c |}
           /\ exists t2, send c' ctx b w1 = (err, w', t2) /\ tr = t1 ++ t2
       end.
Proof.
  unfold AddBookmark, pinboard.AddBookmark. unfold mbind at 1, M_bind at 1.
  fold (rate_limit c ctx).
  destruct (rate_limit c ctx w) as [[r w1] t1] eqn:Hlimit.
  intros Hadd. exists r, w1, t1. split; [done|].
  destruct r as [x|].
  - unfold mret, M_ret in Hadd. injection Hadd as <- <- <- <-.
    now rewrite app_nil_r.
  - unfold mbind, M_bind, pinboard.now, mret, M_ret in Hadd.
    match type of Hadd with
    | context [pinboard.send _ _ _ _ ?c1 ctx b w1] =>
        fold (send c1 ctx b w1) in Hadd;
        destruct (send c1 ctx b w1) as [[serr w2] t2] eqn:Hsend
    end.
    injection Hadd as <- <- <- <-. split; [done|].
    exists t2. rewrite app_nil_r. cbn [app]. done.
Qed.

(** X10.  A call makes at most one HTTP request and blocks at most once, and
    a wait always comes before the request: the client never retries. *)
Theorem AddBookmark_one_request c ctx b w :
  let tr := (AddBookmark c ctx b w).2 in
  (length (requests tr) <= 1)%nat
  /\ (length (resumes tr) <= 1)%nat
  /\ (tr = [] \/ (exists k t, tr = [pinboard.Resumed k t])
      \/ (exists req, tr = [pinboard.HTTPDo req])
      \/ exists k t req, tr = [pinboard.Resumed k t; pinboard.HTTPDo req]).
Proof.
  destruct (AddBookmark c ctx b w) as [[[err c'] w'] tr] eqn:Hadd. cbn [snd].
  apply AddBookmark_cases in Hadd as (r & w1 & t1 & Hlimit & Hrest).
  apply rate_limit_cases in Hlimit
    as [(_ & -> & -> & ->)|(_ & _ & k & t & -> & -> & Hk)].
  - destruct Hrest as (-> & t2 & Hsend & ->).
    apply send_cases in Hsend as [(-> & _)|(req & -> & _)]; cbn; eauto 10.
  - destruct r as [x|].
    + destruct Hrest as (_ & _ & _ & ->). cbn. eauto 10.
    + destruct Hrest as (-> & t2 & Hsend & ->).
      apply send_cases in Hsend as [(-> & _)|(req & -> & _)]; cbn; eauto 10.
Qed.

(** X11.  AddBookmark returns nil only when its one request was answered
    with status 200 and a body whose result code is "done". *)
Theorem AddBookmark_nil_means_done c ctx b w c' w' tr :
  AddBookmark c ctx b w = (None, c', w', tr) ->
  exists req w0 resp body,
    requests tr = [req]
    /\ httpClient_Do req w0 = (inr resp, w')
    /\ pinboard.StatusCode resp = pinboard.StatusOK
    /\ pinboard.Body resp = inr body
    /\ json_result_code body = inr "done"
    /\ pinboard.lastCall c' = time_Now w0.
Proof.
  intros Hadd.
  apply AddBookmark_cases in Hadd as (r & w1 & t1 & Hlimit & Hrest).
  destruct r as [x|]; [now destruct Hrest|].
  destruct Hrest as (-> & t2 & Hsend & ->).
  apply send_cases in Hsend as [(_ & _ & [? ?])|(req & -> & _ & answer & Hdo & Hok)];
    [done|].
  destruct (Hok eq_refl) as (resp & body & -> & Hstatus & Hbody & Hjson).
  exists req, w1, resp, body. repeat split; try done.
  apply rate_limit_cases in Hlimit
    as [(_ & _ & _ & ->)|(_ & _ & k & t & -> & _)]; reflexivity.
Qed.

(** X12.  When no wait is due, because the client has not called before
    or because the minimum delay has passed, the call does not block: it is
    stamped with the clock's reading as it is entered. *)
Theorem AddBookmark_no_wait c ctx b w err c' w' tr :
  AddBookmark c ctx b w = (err, c', w', tr) ->
  pinboard.lastCall c = 0
  \/ pinboard.minDelay c <= time_Now w - pinboard.lastCall c ->
  resumes tr = [] /\ pinboard.lastCall c' = time_Now w.
Proof.
  intros Hadd Hfree.
  apply AddBookmark_cases in Hadd as (r & w1 & t1 & Hlimit & Hrest).
  apply rate_limit_cases in Hlimit
    as [(_ & -> & -> & ->)|(Hcalled & Hdue & _)]; [|lia].
  destruct Hrest as (-> & t2 & Hsend & ->). split; [|done].
  apply send_cases in Hsend as [(-> & _)|(req & -> & _)]; reflexivity.
Qed.

(** X13.  The spacing of the calls.  On a clock that a resumed goroutine
    never reads behind the instant it was to resume at, a call on a client
    that has called before either returns from its wait with the error of
    the context, having made no request and leaving the client as it was,
    or is stamped at least the minimum delay after the previous stamp, the
    other fields of the client unchanged. *)
Theorem AddBookmark_spacing c ctx b w err c' w' tr :
  (forall t w0, t <= time_Now (resume_at t w0)) ->
  AddBookmark c ctx b w = (err, c', w', tr) ->
  pinboard.lastCall c <> 0 ->
  (c' = c /\ requests tr = []
   /\ err = Some (pinboard.ContextError (pinboard.Err ctx)))
  \/ (pinboard.lastCall c + pinboard.minDelay c <= pinboard.lastCall c'
      /\ pinboard.minDelay c' = pinboard.minDelay c
      /\ pinboard.authToken c' = pinboard.authToken c
      /\ pinboard.baseURL c' = pinboard.baseURL c).
Proof.
  intros Hclock Hadd Hcalled.
  apply AddBookmark_cases in Hadd as (r & w1 & t1 & Hlimit & Hrest).
  apply rate_limit_cases in Hlimit
    as [([Hz|Hpast] & -> & -> & ->)|(_ & Hdue & k & t & -> & -> & Hk)]; [done| |].
  - right. destruct Hrest as (-> & _). cbn. repeat split; lia.
  - destruct k.
    + left. subst r. destruct Hrest as (-> & -> & _ & ->). done.
    + right. destruct Hk as [-> ->]. destruct Hrest as (-> & _). cbn.
      split; [apply Hclock | done].
Qed.
End AddBookmarkMore.

Section ListMore.
Context {W : Type}.
Variable Values_Encode : gmap string string -> string.
Variable NewRequestWithContext :
  pinboard.Context -> string -> string -> pinboard.error + pinboard.Request.
Variable httpClient_Do :
  pinboard.Request -> W -> (pinboard.error + pinboard.Response) * W.
Variable ReadAll_partial : pinboard.Response -> string.
Variable json_hrefs : string -> pinboard.error + list string.

Let GetBookmarkURLsByTag :=
  pinboardList.GetBookmarkURLsByTag Values_Encode NewRequestWithContext
    httpClient_Do ReadAll_partial json_hrefs.

(** The loop that builds the map adds the hrefs, each mapped to true, and
    keeps what the map held. *)
Lemma lookup_urls_range (hrefs : list string) :
  forall (urls : gmap string bool) (u : string),
    pinboardList.urls_range hrefs urls !! u
    = if decide (u ∈ hrefs) then Some true else urls !! u.
Proof.
  induction hrefs as [|href rest IH]; intros urls u; cbn [pinboardList.urls_range].
  - destruct (decide (u ∈ [])) as [Hin|_]; [now apply elem_of_nil in Hin | done].
  - rewrite IH.
    destruct (decide (u ∈ rest)) as [Hrest|Hrest].
    + rewrite decide_True by (now right). done.
    + destruct (decide (u = href)) as [->|Hne].
      * rewrite decide_True by (now left). apply lookup_insert_eq.
      * rewrite decide_False by (rewrite elem_of_cons; tauto).
        now apply lookup_insert_ne.
Qed.

(** X14.  When GetBookmarkURLsByTag returns without error it has made one
    request, answered with status 200, and the map it returns stands for
    the set of the hrefs decoded from the body: a URL indexes to true if it
    is among them and is absent otherwise, so no key is mapped to false. *)
Theorem GetBookmarkURLsByTag_hrefs c ctx tag w urls w' tr :
  GetBookmarkURLsByTag c ctx tag w = (urls, None, w', tr) ->
  exists req resp body hrefs,
    tr = [pinboard.HTTPDo req]
    /\ httpClient_Do req w = (inr resp, w')
    /\ pinboard.StatusCode resp = pinboard.StatusOK
    /\ pinboard.Body resp = inr body
    /\ json_hrefs body = inr hrefs
    /\ (forall u, map_index urls u = bool_decide (u ∈ hrefs))
    /\ (forall u, urls !! u = if decide (u ∈ hrefs) then Some true else None)
    /\ url_set urls = list_to_set hrefs
    /\ (forall r, present urls r <-> github.HTMLURL r ∈ hrefs).
Proof.
  unfold GetBookmarkURLsByTag, pinboardList.GetBookmarkURLsByTag.
  destruct (NewRequestWithContext ctx _ _) as [e0|req]; [intros [=]|].
  unfold mbind, M_bind, pinboard.Do.
  destruct (httpClient_Do req w) as [[e1|resp] w1] eqn:Hdo; [intros [=]|].
  destruct (pinboard.StatusCode resp =? pinboard.StatusOK) eqn:Hstatus;
    cbn [negb]; [|intros [=]].
  destruct (pinboard.Body resp) as [e2|body] eqn:Hbody; [intros [=]|].
  destruct (json_hrefs body) as [e3|hrefs] eqn:Hjson; [intros [=]|].
  unfold mret, M_ret. intros [= <- <- <-].
  apply Z.eqb_eq in Hstatus.
  assert (Hlookup : forall u,
             pinboardList.urls_range hrefs ∅ !! u
             = if decide (u ∈ hrefs) then Some true else None).
  { intros u. rewrite lookup_urls_range. now rewrite lookup_empty. }
  assert (Hindex : forall u,
             map_index (pinboardList.urls_range hrefs ∅) u = bool_decide (u ∈ hrefs)).
  { intros u. unfold map_index. rewrite Hlookup.
    destruct (decide (u ∈ hrefs)) as [Hin|Hout]; cbn.
    - now rewrite bool_decide_eq_true_2.
    - now rewrite bool_decide_eq_false_2. }
  assert (Hset : forall u, u ∈ url_set (pinboardList.urls_range hrefs ∅) <-> u ∈ hrefs).
  { intros u. pose proof (map_index_url_set (pinboardList.urls_range hrefs ∅) u) as Hm.
    rewrite Hindex in Hm.
    destruct (decide (u ∈ hrefs)) as [Hin|Hout].
    - rewrite bool_decide_eq_true_2 in Hm by done. symmetry in Hm.
      apply bool_decide_eq_true in Hm. tauto.
    - rewrite bool_decide_eq_false_2 in Hm by done. symmetry in Hm.
      apply bool_decide_eq_false in Hm. tauto. }
  exists req, resp, body, hrefs. repeat split; try done.
  - apply set_eq. intros u. rewrite Hset. now rewrite elem_of_list_to_set.
  - apply Hset.
  - apply Hset.
Qed.

(** X15.  When GetBookmarkURLsByTag returns an error, the map it returns is
    empty and the error is one built by fmt.Errorf; it has made at most one
    request.  On an answer whose status is not 200 the error is the status
    error whatever the body.  In no case does the call wait: listing is not
    rate limited. *)
Theorem GetBookmarkURLsByTag_error c ctx tag w :
  let x := GetBookmarkURLsByTag c ctx tag w in
  resumes x.2 = []
  /\ (length (requests x.2) <= 1)%nat
  /\ (forall err, x.1.1.2 = Some err ->
        x.1.1.1 = ∅ /\ exists format args, err = pinboard.Errorf format args)
  /\ (forall req resp w1,
        requests x.2 = [req] ->
        httpClient_Do req w = (inr resp, w1) ->
        pinboard.StatusCode resp <> pinboard.StatusOK ->
        exists body,
          x.1.1.2 = Some (pinboard.Errorf "API returned status %d: %s"
                            [pinboard.ArgInt (pinboard.StatusCode resp);
                             pinboard.ArgString body])).
Proof.
  unfold GetBookmarkURLsByTag, pinboardList.GetBookmarkURLsByTag. cbv zeta.
  destruct (NewRequestWithContext ctx _ _) as [e0|req].
  { cbn. split; [done|]. split; [lia|]. split; [|done].
    intros ? [= <-]. eauto. }
  unfold mbind, M_bind, pinboard.Do.
  destruct (httpClient_Do req w) as [[e1|resp] w1] eqn:Hdo.
  { cbn. split; [done|]. split; [lia|]. split.
    - intros ? [= <-]. eauto.
    - intros req' resp' w2 [= <-] Hdo'. rewrite Hdo in Hdo'. done. }
  destruct (pinboard.StatusCode resp =? pinboard.StatusOK) eqn:Hstatus; cbn [negb].
  2:{ cbn. split; [done|]. split; [lia|]. split.
      - intros ? [= <-]. eauto.
      - intros req' resp' w2 [= <-] Hdo' _. rewrite Hdo in Hdo'.
        injection Hdo' as <- <-. eauto. }
  apply Z.eqb_eq in Hstatus.
  destruct (pinboard.Body resp) as [e2|body] eqn:Hbody.
  { cbn. split; [done|]. split; [lia|]. split.
    - intros ? [= <-]. eauto.
    - intros req' resp' w2 [= <-] Hdo'. rewrite Hdo in Hdo'.
      injection Hdo' as <- <-. done. }
  destruct (json_hrefs body) as [e3|hrefs] eqn:Hjson.
  { cbn. split; [done|]. split; [lia|]. split.
    - intros ? [= <-]. eauto.
    - intros req' resp' w2 [= <-] Hdo'. rewrite Hdo in Hdo'.
      injection Hdo' as <- <-. done. }
  cbn. split; [done|]. split; [lia|]. split; [done|].
  intros req' resp' w2 [= <-] Hdo'. rewrite Hdo in Hdo'.
  injection Hdo' as <- <-. done.
Qed.
End ListMore.

(** * Strings on the wire *)

Section StringFacts.

Lemma append_cons (c : ascii) (s1 s2 : string) :
  String c s1 +:+ s2 = String c (s1 +:+ s2).
Proof. reflexivity. Qed.

Lemma append_empty_l (s : string) : "" +:+ s = s.
Proof. reflexivity. Qed.

Lemma append_empty_r (s : string) : s +:+ "" = s.
Proof.
  induction s as [|c s IH]; [reflexivity|]. now rewrite append_cons, IH.
Qed.

Lemma append_assoc (s1 s2 s3 : string) :
  (s1 +:+ s2) +:+ s3 = s1 +:+ (s2 +:+ s3).
Proof.
  induction s1 as [|c s1 IH]; [reflexivity|]. now rewrite !append_cons, IH.
Qed.

Lemma has_byte_append (b : ascii) (s1 s2 : string) :
  has_byte b (s1 +:+ s2) = has_byte b s1 || has_byte b s2.
Proof.
  induction s1 as [|c s1 IH]; [reflexivity|].
  rewrite append_cons. cbn [has_byte]. destruct (Ascii.eqb c b); [reflexivity|exact IH].
Qed.

(** Splitting at a one-byte separator. *)
Lemma prefix_byte (c a : ascii) (s : string) :
  String.prefix (String c "") (String a s) = Ascii.eqb a c.
Proof.
  cbn [String.prefix]. destruct (ascii_dec c a) as [->|Hne].
  - rewrite Ascii.eqb_refl. now destruct s.
  - symmetry. apply Ascii.eqb_neq. congruence.
Qed.

Lemma split_no_sep (c : ascii) (s : string) :
  forall cur, has_byte c s = false ->
              split_from (String c "") 0 cur s = [cur +:+ s].
Proof.
  induction s as [|a s IH]; intros cur Hno.
  - cbn. now rewrite append_empty_r.
  - cbn [has_byte] in Hno. destruct (Ascii.eqb a c) eqn:Ha; [discriminate|].
    cbn [split_from]. rewrite prefix_byte, Ha. rewrite IH by done.
    now rewrite append_assoc, append_cons, append_empty_l.
Qed.

Lemma split_at_sep (c : ascii) (s1 s2 : string) :
  forall cur, has_byte c s1 = false ->
              split_from (String c "") 0 cur (s1 +:+ String c s2)
              = (cur +:+ s1) :: split_from (String c "") 0 "" s2.
Proof.
  induction s1 as [|a s1 IH]; intros cur Hno.
  - rewrite append_empty_l, append_empty_r. cbn [split_from].
    now rewrite prefix_byte, Ascii.eqb_refl.
  - cbn [has_byte] in Hno. destruct (Ascii.eqb a c) eqn:Ha; [discriminate|].
    rewrite append_cons. cbn [split_from]. rewrite prefix_byte, Ha.
    rewrite IH by done.
    now rewrite append_assoc, append_cons, append_empty_l.
Qed.

(** Joining with a byte that no element holds, then splitting at it, gives
    the elements back. *)
Lemma Split_Join (c : ascii) (l : list string) :
  l <> [] -> Forall (fun s => has_byte c s = false) l ->
  Split (Join l (String c "")) (String c "") = l.
Proof.
  unfold Split. induction l as [|x l IH]; intros Hne Hall; [done|].
  apply Forall_cons in Hall as [Hx Hl].
  destruct l as [|y l].
  - cbn [Join]. now rewrite split_no_sep.
  - change (Join (x :: y :: l) (String c ""))
      with (x +:+ String c "" +:+ Join (y :: l) (String c "")).
    rewrite append_cons, append_empty_l.
    rewrite split_at_sep by done. rewrite append_empty_l.
    now rewrite IH.
Qed.
End StringFacts.

Section OnTheWire.
Context `{UnicodeTables}.

Lemma NormaliseTags_no_space (Hns : UnicodeNoSpace) (topics : slice string) :
  Forall (fun tag => has_byte " " tag = false) (elems (export.NormaliseTags topics)).
Proof.
  rewrite NormaliseTags_elems. cbn [elems]. apply Forall_forall.
  intros tag Htag. apply list_elem_of_fmap in Htag as (topic & -> & _).
  apply ToLower_no_space. rewrite ReplaceAll_space. apply has_byte_map_hyphen.
Qed.

(** X16.  What is sent for a starred repository: the query of the write
    request carries the repo's HTML URL as url, its full name as
    description and its description as extended; it is never shared, never
    to-read, always replacing; and its tags parameter, split at the spaces,
    gives back the bookmark's tags, the sentinel first, one per topic. *)
Theorem exported_query (Hns : UnicodeNoSpace) (c : pinboard.Client)
    (repo : github.StarredRepo) :
  let q := pinboard.add_query c (export.RepoToBookmark repo) in
  q !! "url" = Some (github.HTMLURL repo)
  /\ q !! "description" = Some (github.FullName repo)
  /\ q !! "extended" = Some (github.Description repo)
  /\ q !! "shared" = Some "no"
  /\ q !! "toread" = Some "no"
  /\ q !! "replace" = Some "yes"
  /\ q !! "format" = Some "json"
  /\ q !! "auth_token" = Some (pinboard.authToken c)
  /\ exists tags,
       q !! "tags" = Some tags
       /\ Split tags " "
          = "github-repo" :: elems (export.NormaliseTags (github.Topics repo))
       /\ length (Split tags " ")
          = S (length (elems (github.Topics repo))).
Proof.
  cbv zeta. unfold pinboard.add_query.
  repeat (split; [now rewrite ?lookup_insert_ne by done; rewrite lookup_insert_eq|]).
  eexists. split.
  { rewrite !lookup_insert_ne by done. apply lookup_insert_eq. }
  assert (Htags : elems (append (Slice ["github-repo"])
                           (export.NormaliseTags (github.Topics repo)))
                  = "github-repo" :: elems (export.NormaliseTags (github.Topics repo))).
  { unfold append. now destruct (elems (export.NormaliseTags (github.Topics repo))). }
  unfold export.RepoToBookmark. cbv zeta. cbn [pinboard.Tags]. rewrite Htags.
  assert (Hsplit : Split (Join ("github-repo"
                                  :: elems (export.NormaliseTags (github.Topics repo)))
                            " ") " "
                   = "github-repo" :: elems (export.NormaliseTags (github.Topics repo))).
  { apply (Split_Join " "); [done|].
    apply Forall_cons. split; [reflexivity|]. now apply NormaliseTags_no_space. }
  split; [exact Hsplit|].
  rewrite Hsplit. cbn [length]. f_equal.
  rewrite NormaliseTags_elems. cbn [elems]. apply length_map.
Qed.
End OnTheWire.

(** * More on the mapper *)

Section MapperMore.
Context `{UnicodeTables}.

Let tidy (c : ascii) : ascii := lower_byte (hyphen_for_space c).

Lemma string_map_compose (f g : ascii -> ascii) (s : string) :
  string_map f (string_map g s) = string_map (fun c => f (g c)) s.
Proof. induction s as [|c s IH]; [reflexivity|]. cbn. now rewrite IH. Qed.

Lemma string_map_ext (f g : ascii -> ascii) (s : string) :
  (forall c, f c = g c) -> string_map f s = string_map g s.
Proof. intros Hfg. induction s as [|c s IH]; [reflexivity|]. cbn. now rewrite Hfg, IH. Qed.

Lemma isASCII_string_map (f : ascii -> ascii) (s : string) :
  (forall c, (RuneSelf <=? byte_val c) = false ->
             (RuneSelf <=? byte_val (f c)) = false) ->
  isASCII s = true -> isASCII (string_map f s) = true.
Proof.
  intros Hf. induction s as [|c s IH]; [reflexivity|]. cbn [isASCII string_map].
  destruct (RuneSelf <=? byte_val c) eqn:Hc; [discriminate|].
  intros Hs. rewrite (Hf c Hc). now apply IH.
Qed.

Lemma lower_byte_fixed (c : ascii) : is_upper c = false -> lower_byte c = c.
Proof. unfold lower_byte. now intros ->. Qed.

Lemma string_map_lower_fixed (s : string) :
  hasUpper s = false -> string_map lower_byte s = s.
Proof.
  induction s as [|c s IH]; [reflexivity|]. cbn [hasUpper string_map].
  intros [Hc Hs]%orb_false_elim. now rewrite lower_byte_fixed, IH.
Qed.

(** On a string of ASCII bytes Go's fast path lower-cases byte by byte. *)
Lemma ToLower_ascii (s : string) :
  isASCII s = true -> ToLower s = string_map lower_byte s.
Proof.
  intros Hs. unfold ToLower. rewrite Hs.
  destruct (hasUpper s) eqn:Hup; [reflexivity|].
  symmetry. now apply string_map_lower_fixed.
Qed.

Lemma normalise_ascii (s : string) :
  isASCII s = true ->
  ToLower (ReplaceAll s " " "-") = string_map tidy s
  /\ isASCII (string_map tidy s) = true.
Proof.
  intros Hs. rewrite ReplaceAll_space.
  assert (Hh : isASCII (string_map hyphen_for_space s) = true).
  { apply isASCII_string_map; [|done].
    intros c. destruct c as [[] [] [] [] [] [] [] []]; vm_compute; congruence. }
  rewrite ToLower_ascii by done. rewrite string_map_compose. split; [reflexivity|].
  apply isASCII_string_map; [|done].
  intros c. destruct c as [[] [] [] [] [] [] [] []]; vm_compute; congruence.
Qed.

Lemma tidy_idempotent (c : ascii) : tidy (tidy c) = tidy c.
Proof. destruct c as [[] [] [] [] [] [] [] []]; vm_compute; reflexivity. Qed.

(** X17.  On topics of ASCII bytes NormaliseTags is idempotent: what it
    returns is already normalised, and normalising it again changes
    nothing. *)
Theorem NormaliseTags_idempotent (topics : slice string) :
  Forall (fun topic => isASCII topic = true) (elems topics) ->
  export.NormaliseTags (export.NormaliseTags topics) = export.NormaliseTags topics.
Proof.
  intros Hascii. rewrite !NormaliseTags_elems. cbn [elems]. f_equal.
  induction (elems topics) as [|topic rest IH]; [reflexivity|].
  apply Forall_cons in Hascii as [Htopic Hrest]. cbn [map]. f_equal; [|now apply IH].
  destruct (normalise_ascii topic Htopic) as [-> Hout].
  destruct (normalise_ascii _ Hout) as [-> _].
  rewrite string_map_compose. apply string_map_ext, tidy_idempotent.
Qed.
End MapperMore.

Lemma NormaliseTags_idempotent_witness :
  @export.NormaliseTags export_test.uncased
    (@export.NormaliseTags export_test.uncased (Slice ["Go Lang"; "WEB Dev"]))
  = @export.NormaliseTags export_test.uncased (Slice ["Go Lang"; "WEB Dev"]).
Proof.
  apply (@NormaliseTags_idempotent export_test.uncased).
  cbn [elems]. repeat constructor.
Defined.

(** * The Link header *)

Section ExtractNextURLFacts.
Context `{UnicodeSpace}.

Lemma last_byte_cons (c : ascii) (s : string) :
  s <> "" -> last_byte (String c s) = last_byte s.
Proof. destruct s; [done | reflexivity]. Qed.

Lemma last_byte_append (s1 s2 : string) :
  s2 <> "" -> last_byte (s1 +:+ s2) = last_byte s2.
Proof.
  intros Hne. induction s1 as [|c s1 IH]; [reflexivity|].
  rewrite append_cons, last_byte_cons; [exact IH|].
  destruct s1; [now rewrite append_empty_l | now rewrite append_cons].
Qed.

Lemma last_byte_Some_nonempty (s : string) (c : ascii) :
  last_byte s = Some c -> s <> "".
Proof. now destruct s. Qed.

Lemma drop_left_solid (p : ascii -> bool) (s : string) :
  (forall c, first_byte s = Some c -> p c = false) -> drop_left p s = s.
Proof.
  destruct s as [|c s]; [reflexivity|]. intros Hp. cbn [drop_left].
  now rewrite (Hp c eq_refl).
Qed.

Lemma drop_right_solid (p : ascii -> bool) (s : string) :
  (forall c, last_byte s = Some c -> p c = false) -> drop_right p s = s.
Proof.
  induction s as [|c s IH]; [reflexivity|]. intros Hp.
  destruct s as [|c' s].
  - cbn. now rewrite (Hp c eq_refl).
  - change (drop_right p (String c (String c' s)))
      with (match drop_right p (String c' s) with
            | EmptyString => if p c then EmptyString else String c EmptyString
            | rest => String c rest
            end).
    rewrite IH; [reflexivity|].
    intros d Hd. apply Hp. now rewrite last_byte_cons.
Qed.

Lemma drop_right_snoc (p : ascii -> bool) (s : string) (c : ascii) :
  p c = true -> drop_right p (s +:+ String c "") = drop_right p s.
Proof.
  intros Hc. induction s as [|a s IH].
  - rewrite append_empty_l. cbn. now rewrite Hc.
  - rewrite append_cons.
    change (drop_right p (String a (s +:+ String c "")))
      with (match drop_right p (s +:+ String c "") with
            | EmptyString => if p a then EmptyString else String a EmptyString
            | rest => String a rest
            end).
    now rewrite IH.
Qed.

(** A string with a solid byte at either end has nothing to trim. *)
Lemma TrimSpace_solid (s : string) :
  (exists c, first_byte s = Some c /\ solid c) ->
  (exists c, last_byte s = Some c /\ solid c) ->
  TrimSpace s = s.
Proof.
  intros (c & Hc & Hspace & Hascii) (d & Hd & Hdspace & Hdascii).
  unfold TrimSpace.
  rewrite drop_left_solid by (intros c' Hc'; congruence).
  rewrite Hc, Hascii.
  rewrite drop_right_solid by (intros d' Hd'; congruence).
  now rewrite Hd, Hdascii.
Qed.

Lemma TrimSpace_space (s : string) : TrimSpace (String " " s) = TrimSpace s.
Proof. reflexivity. Qed.

Lemma Trim_angles (url : string) :
  clean_url url -> Trim ("<" +:+ url +:+ ">") "<>" = url.
Proof.
  intros (_ & _ & Hfirst & Hlast). unfold Trim.
  rewrite append_cons, append_empty_l.
  change (String "<" (url +:+ ">")) with (String "<" url +:+ String ">" "").
  rewrite drop_right_snoc by reflexivity.
  destruct url as [|c url]; [reflexivity|].
  rewrite drop_right_solid.
  - change (drop_left (in_cutset "<>") (String "<" (String c url)))
      with (drop_left (in_cutset "<>") (String c url)).
    apply drop_left_solid. intros d Hd. now apply Hfirst.
  - intros d Hd. rewrite last_byte_cons in Hd by done. now apply Hlast.
Qed.

Lemma format_link_split (url rel : string) :
  format_link (url, rel) = ("<" +:+ url +:+ ">") +:+ String ";" (String " " rel).
Proof.
  unfold format_link. cbn [fst snd]. now rewrite !append_assoc.
Qed.

Lemma format_link_no_comma (link : string * string) :
  clean_link link -> has_byte "," (format_link link) = false.
Proof.
  intros ((Hu & _) & (Hr & _)). unfold format_link.
  rewrite !has_byte_append, Hu, Hr. reflexivity.
Qed.

Lemma format_link_ends (link : string * string) :
  clean_link link ->
  (exists c, first_byte (format_link link) = Some c /\ solid c)
  /\ (exists c, last_byte (format_link link) = Some c /\ solid c).
Proof.
  intros (_ & (_ & _ & _ & d & Hd & Hsolid)). split.
  - exists "<"%char. split; [reflexivity|]. split; reflexivity.
  - exists d. split; [|done]. unfold format_link.
    apply last_byte_Some_nonempty in Hd as Hne.
    rewrite (last_byte_append "<").
    + rewrite (last_byte_append link.1).
      * now rewrite (last_byte_append ">; ").
      * destruct (link.2); [done|]. discriminate.
    + destruct (link.1); [discriminate|]. now rewrite append_cons.
Qed.

(** One well-formed link, with or without the space that follows a comma,
    is read back as its URL and its relation. *)
Lemma extractNextURL_range_link (pad : string) (link : string * string)
    (rest : list string) :
  pad = "" \/ pad = " " -> clean_link link ->
  githubClient.extractNextURL_range ((pad +:+ format_link link) :: rest)
  = if String.eqb link.2 githubClient.rel_next then link.1
    else githubClient.extractNextURL_range rest.
Proof.
  intros Hpad Hclean. destruct link as [url rel].
  pose proof (format_link_ends _ Hclean) as [Hfirst Hlast].
  destruct Hclean as (Hurl & Hrel). cbn [fst snd] in *.
  assert (Htrim : TrimSpace (pad +:+ format_link (url, rel)) = format_link (url, rel)).
  { destruct Hpad as [-> | ->].
    - rewrite append_empty_l. now apply TrimSpace_solid.
    - rewrite append_cons, append_empty_l, TrimSpace_space. now apply TrimSpace_solid. }
  cbn [githubClient.extractNextURL_range]. rewrite Htrim.
  assert (Hparts : Split (format_link (url, rel)) ";"
                   = ["<" +:+ url +:+ ">"; String " " rel]).
  { rewrite format_link_split. unfold Split.
    destruct Hurl as (_ & Hsemi & _). destruct Hrel as (_ & Hrsemi & _).
    rewrite split_at_sep.
    - rewrite append_empty_l. f_equal.
      rewrite split_no_sep; [now rewrite append_empty_l|].
      cbn [has_byte]. exact Hrsemi.
    - rewrite !has_byte_append, Hsemi. reflexivity. }
  rewrite Hparts. cbv zeta.
  assert (Hpart0 : TrimSpace ("<" +:+ url +:+ ">") = "<" +:+ url +:+ ">").
  { apply TrimSpace_solid.
    - exists "<"%char. repeat split.
    - exists ">"%char. split; [|repeat split].
      rewrite (last_byte_append "<") by (destruct url; discriminate).
      now rewrite (last_byte_append url) by discriminate. }
  rewrite Hpart0, Trim_angles by done.
  destruct Hrel as (_ & _ & Hrfirst & Hrlast).
  rewrite TrimSpace_space, TrimSpace_solid by done.
  reflexivity.
Qed.

Lemma extractNextURL_range_format (links : list (string * string)) :
  forall pad,
    links <> [] -> pad = "" \/ pad = " " -> Forall clean_link links ->
    githubClient.extractNextURL_range
      (Split (pad +:+ format_links links) ",")
    = first_next links.
Proof.
  unfold Split, format_links.
  induction links as [|link links IH]; intros pad Hne Hpad Hclean; [done|].
  apply Forall_cons in Hclean as [Hlink Hlinks].
  assert (Hpadcomma : has_byte "," pad = false) by (destruct Hpad as [-> | ->]; done).
  destruct links as [|link' links].
  - cbn [map Join]. rewrite split_no_sep.
    + rewrite append_empty_l, extractNextURL_range_link by done.
      cbn. now destruct link.
    + now rewrite has_byte_append, Hpadcomma, format_link_no_comma.
  - change (Join (map format_link (link :: link' :: links)) ", ")
      with (format_link link +:+ ", " +:+ Join (map format_link (link' :: links)) ", ").
    replace (pad +:+ format_link link +:+ ", "
             +:+ Join (map format_link (link' :: links)) ", ")
      with ((pad +:+ format_link link)
            +:+ String "," (" " +:+ Join (map format_link (link' :: links)) ", "))
      by (now rewrite !append_assoc).
    rewrite split_at_sep
      by (now rewrite has_byte_append, Hpadcomma, format_link_no_comma).
    rewrite append_empty_l, extractNextURL_range_link by done.
    rewrite IH by (done || auto).
    cbn [first_next]. now destruct link.
Qed.

(** X18.  A Link header written the way GitHub writes it, links of clean
    URLs and relations separated by a comma and a space, is read back: the
    function returns the URL of the first link whose relation is
    rel="next", and the empty string when there is none or the header is
    empty. *)
Theorem extractNextURL_format (links : list (string * string)) :
  Forall clean_link links ->
  githubClient.extractNextURL (format_links links) = first_next links.
Proof.
  intros Hclean. unfold githubClient.extractNextURL.
  destruct links as [|link links]; [reflexivity|].
  assert (Hne : (format_links (link :: links) =? "")%string = false).
  { apply String.eqb_neq. unfold format_links, format_link.
    destruct links; cbn [map Join]; rewrite append_cons; discriminate. }
  rewrite Hne. cbv zeta.
  rewrite <- (append_empty_l (format_links (link :: links))).
  apply extractNextURL_range_format; auto.
Qed.
End ExtractNextURLFacts.

(** * Fetching the starred repositories *)

Section GetStarredReposFacts.
Context `{UnicodeSpace}.
Context {Ctx W : Type}.
Variable NewRequest_error : Ctx -> string -> string -> option pinboard.error.
Variable httpClient_Do :
  githubClient.Request -> W -> (pinboard.error + githubClient.Response) * W.
Variable json_Decode :
  string -> pinboard.error + slice githubClient.starredRepoResponse.
Variable time_Parse_RFC3339 : string -> pinboard.error + Z.

Local Abbreviation pages :=
  (githubClient.GetStarredRepos_pages NewRequest_error httpClient_Do json_Decode
     time_Parse_RFC3339).
Local Abbreviation GetStarredRepos :=
  (githubClient.GetStarredRepos NewRequest_error httpClient_Do json_Decode
     time_Parse_RFC3339).
Local Abbreviation convert_range := (githubClient.convert_range time_Parse_RFC3339).
Local Abbreviation page_of := (specClients.page_of json_Decode time_Parse_RFC3339).
Local Abbreviation item_of := (specClients.item_of time_Parse_RFC3339).

Lemma to_repo_has_topics apiRepo starredAt :
  has_topics (githubClient.to_repo apiRepo starredAt).
Proof.
  unfold has_topics, githubClient.to_repo. cbn.
  now destruct (githubClient.Repo_Topics apiRepo).
Qed.

Lemma elems_append {A} (s : slice A) (x : A) :
  elems (append s (Slice [x])) = elems s ++ [x]
  /\ is_nil (append s (Slice [x])) = false.
Proof. now destruct s. Qed.

(** The conversion of a page grows [allRepos] by the page's items, in
    order, or fails with the error of the first time that does not parse. *)
Lemma convert_range_inr pageRepos :
  forall allRepos allRepos',
    convert_range pageRepos allRepos = inr allRepos' ->
    elems allRepos' = elems allRepos ++ map item_of pageRepos
    /\ (pageRepos = [] -> allRepos' = allRepos)
    /\ (pageRepos <> [] -> is_nil allRepos' = false)
    /\ (is_nil allRepos = false -> is_nil allRepos' = false).
Proof.
  induction pageRepos as [|apiRepo rest IH]; intros allRepos allRepos';
    cbn [githubClient.convert_range].
  - intros [= <-]. rewrite app_nil_r. done.
  - destruct (time_Parse_RFC3339 (githubClient.StarredAt apiRepo))
      as [err|starredAt] eqn:Hparse; [done|].
    intros Hrest. apply IH in Hrest as (Helems & _ & _ & Hnil).
    destruct (elems_append allRepos (githubClient.to_repo apiRepo starredAt))
      as [Happ Hnon].
    rewrite Happ in Helems.
    repeat split; try done; try (intros _; now apply Hnil).
    rewrite Helems, <- app_assoc. cbn [map app].
    unfold specClients.item_of. now rewrite Hparse.
Qed.

Lemma convert_range_inl pageRepos :
  forall allRepos err,
    convert_range pageRepos allRepos = inl err ->
    exists x, err = pinboard.Errorf "failed to parse starred_at time: %w"
                      [pinboard.ArgError x].
Proof.
  induction pageRepos as [|apiRepo rest IH]; intros allRepos err;
    cbn [githubClient.convert_range]; [done|].
  destruct (time_Parse_RFC3339 (githubClient.StarredAt apiRepo))
    as [x|starredAt]; [intros [= <-]; eauto | apply IH].
Qed.

Lemma item_of_has_topics apiRepo : has_topics (item_of apiRepo).
Proof. apply to_repo_has_topics. Qed.

Lemma page_of_has_topics ev : Forall has_topics (page_of ev).
Proof.
  destruct ev as [req [err|resp]]; cbn; [constructor|].
  destruct (json_Decode (githubClient.Body resp)) as [err|page]; [constructor|].
  induction (elems page) as [|a l IH]; cbn [map]; constructor;
    [apply item_of_has_topics | exact IH].
Qed.

Lemma pages_have_topics tr : Forall has_topics (concat (map page_of tr)).
Proof.
  induction tr as [|ev tr IH]; cbn [map concat]; [constructor|].
  apply Forall_app. split; [apply page_of_has_topics | exact IH].
Qed.

(** What the loop does when its condition is false. *)
Lemma pages_done fuel c ctx allRepos w :
  pages fuel c ctx "" allRepos w
  = (Some (if is_nil allRepos then Slice [] else allRepos, None), w, []).
Proof. now destruct fuel. Qed.

(** One turn of the loop. *)
Lemma pages_step fuel c ctx url allRepos w res w' tr :
  url <> "" ->
  pages (S fuel) c ctx url allRepos w = (res, w', tr) ->
  (exists err,
      NewRequest_error ctx "GET" url = Some err
      /\ res = Some (NilSlice,
                     Some (pinboard.Errorf "failed to create request: %w"
                             [pinboard.ArgError err]))
      /\ w' = w /\ tr = [])
  \/ (NewRequest_error ctx "GET" url = None
      /\ exists r w1,
          httpClient_Do (githubClient.new_request c url) w = (r, w1)
          /\ ((exists format args,
                  res = Some (NilSlice, Some (pinboard.Errorf format args))
                  /\ w' = w1
                  /\ tr = [githubClient.HTTPDo (githubClient.new_request c url) r]
                  /\ (forall resp, r = inr resp ->
                        githubClient.StatusCode resp <> pinboard.StatusOK ->
                        format = "GitHub API request failed with status %d"
                        /\ args = [pinboard.ArgInt (githubClient.StatusCode resp)]))
              \/ (exists resp pageRepos allRepos1 tr1,
                     r = inr resp
                     /\ githubClient.StatusCode resp = pinboard.StatusOK
                     /\ json_Decode (githubClient.Body resp) = inr pageRepos
                     /\ convert_range (elems pageRepos) allRepos = inr allRepos1
                     /\ pages fuel c ctx
                          (githubClient.extractNextURL (githubClient.Link resp))
                          allRepos1 w1
                        = (res, w', tr1)
                     /\ tr = githubClient.HTTPDo (githubClient.new_request c url) r
                             :: tr1))).
Proof.
  intros Hurl. apply String.eqb_neq in Hurl.
  cbn [githubClient.GetStarredRepos_pages]. rewrite Hurl.
  destruct (NewRequest_error ctx "GET" url) as [err|] eqn:Hnew.
  { unfold mret, M_ret. intros [= <- <- <-]. left. eauto. }
  unfold mbind, M_bind, githubClient.Do.
  destruct (httpClient_Do (githubClient.new_request c url) w) as [r w1] eqn:Hdo.
  intros Hrun. right. split; [done|]. exists r, w1. split; [done|]. revert Hrun.
  destruct r as [err|resp].
  { unfold mret, M_ret. intros [= <- <- <-]. left.
    do 2 eexists. do 3 (split; [reflexivity|]). done. }
  destruct (githubClient.StatusCode resp =? pinboard.StatusOK) eqn:Hstatus;
    cbn [negb].
  2:{ unfold mret, M_ret. intros [= <- <- <-]. left.
      do 2 eexists. do 3 (split; [reflexivity|]). intros ? [= <-] _. done. }
  apply Z.eqb_eq in Hstatus.
  destruct (json_Decode (githubClient.Body resp)) as [err|pageRepos] eqn:Hjson.
  { unfold mret, M_ret. intros [= <- <- <-]. left.
    do 2 eexists. do 3 (split; [reflexivity|]). intros ? [= <-]. done. }
  destruct (convert_range (elems pageRepos) allRepos) as [err|allRepos1] eqn:Hconv.
  { unfold mret, M_ret. intros [= <- <- <-]. left.
    apply convert_range_inl in Hconv as (x & ->).
    do 2 eexists. do 3 (split; [reflexivity|]). intros ? [= <-]. done. }
  destruct (pages fuel c ctx _ allRepos1 w1) as [[res1 w2] tr1] eqn:Hrest.
  intros [= <- <- <-]. right.
  exists resp, pageRepos, allRepos1, tr1. done.
Qed.

(** A loop that ends without error has followed the links, and has grown
    [allRepos] by the pages of its trace. *)
Lemma pages_success fuel c ctx :
  forall url allRepos w repos w' tr,
    pages fuel c ctx url allRepos w = (Some (repos, None), w', tr) ->
    follows c url tr
    /\ is_nil repos = false
    /\ elems repos = elems allRepos ++ concat (map page_of tr).
Proof.
  induction fuel as [|fuel IH]; intros url allRepos w repos w' tr Hrun.
  - destruct (decide (url = "")) as [->|Hurl].
    + rewrite pages_done in Hrun. injection Hrun as <- <- <-.
      cbn. rewrite app_nil_r. now destruct allRepos.
    + apply String.eqb_neq in Hurl. cbn in Hrun. now rewrite Hurl in Hrun.
  - destruct (decide (url = "")) as [->|Hurl].
    + rewrite pages_done in Hrun. injection Hrun as <- <- <-.
      cbn. rewrite app_nil_r. now destruct allRepos.
    + apply pages_step in Hrun
        as [(err & _ & [=] & _)
           |(_ & r & w1 & Hdo
             & [(format & args & [=] & _)
               |(resp & page & all1 & tr1 & -> & Hstatus & Hjson & Hconv & Hrest & ->)])];
        [|done].
      apply IH in Hrest as (Hfollows & Hnil & Helems).
      apply convert_range_inr in Hconv as (Hall1 & _).
      split; [cbn; done|]. split; [done|].
      rewrite Helems, Hall1, <- app_assoc. cbn [map concat specClients.page_of].
      now rewrite Hjson.
Qed.

Lemma pages_failure fuel c ctx :
  forall url allRepos w repos err w' tr,
    pages fuel c ctx url allRepos w = (Some (repos, Some err), w', tr) ->
    repos = NilSlice
    /\ (exists format args, err = pinboard.Errorf format args)
    /\ (length tr <= fuel)%nat
    /\ Forall names_next (removelast tr).
Proof.
  induction fuel as [|fuel IH]; intros url allRepos w repos err w' tr Hrun.
  - destruct (decide (url = "")) as [->|Hurl].
    + now rewrite pages_done in Hrun.
    + apply String.eqb_neq in Hurl. cbn in Hrun. now rewrite Hurl in Hrun.
  - destruct (decide (url = "")) as [->|Hurl].
    + now rewrite pages_done in Hrun.
    + apply pages_step in Hrun
        as [(x & _ & [= -> ->] & _ & ->)
           |(_ & r & w1 & Hdo
             & [(format & args & [= -> ->] & _ & -> & _)
               |(resp & page & all1 & tr1 & -> & Hstatus & Hjson & Hconv & Hrest & ->)])];
        [..|done].
      * cbn. repeat split; eauto; lia.
      * cbn. repeat split; eauto; lia.
      * pose proof Hrest as Hrest'.
        apply IH in Hrest as (-> & Herr & Hlen & Hnext).
        repeat split; [done|cbn; lia|].
        destruct tr1 as [|ev tr1]; [constructor|].
        change (removelast (?a :: ev :: tr1)) with (a :: removelast (ev :: tr1)).
        constructor; [|done]. cbn. split; [done|].
        intros Hend. rewrite Hend, pages_done in Hrest'. done.
Qed.

(** The loop is cut short only by a server that keeps naming a next page. *)
Lemma pages_out_of_fuel fuel c ctx :
  forall url allRepos w w' tr,
    pages fuel c ctx url allRepos w = (None, w', tr) ->
    length tr = fuel /\ Forall names_next tr.
Proof.
  induction fuel as [|fuel IH]; intros url allRepos w w' tr Hrun.
  - destruct (decide (url = "")) as [->|Hurl].
    + now rewrite pages_done in Hrun.
    + apply String.eqb_neq in Hurl. cbn in Hrun. rewrite Hurl in Hrun.
      injection Hrun as <- <-. done.
  - destruct (decide (url = "")) as [->|Hurl].
    + now rewrite pages_done in Hrun.
    + apply pages_step in Hrun
        as [(x & _ & [=] & _)
           |(_ & r & w1 & Hdo
             & [(format & args & [=] & _)
               |(resp & page & all1 & tr1 & -> & Hstatus & Hjson & Hconv & Hrest & ->)])];
        [|done].
      pose proof Hrest as Hrest'.
      apply IH in Hrest as (Hlen & Hnext).
      split; [cbn; lia|]. constructor; [|done]. cbn. split; [done|].
      intros Hend. rewrite Hend, pages_done in Hrest'. done.
Qed.


(** X19.  When GetStarredRepos returns without error, its requests follow
    the links: the first asks for the first page of 100, each is a GET with
    the two headers and is answered with status 200, each next one asks for
    the URL the previous answer names as next, and the last answer names
    none.  The slice returned is not nil and holds the items of the pages,
    in the order of the pages and, within a page, of the answer. *)
Theorem GetStarredRepos_pagination fuel c ctx w repos w' tr :
  GetStarredRepos fuel c ctx w = (Some (repos, None), w', tr) ->
  follows c (githubClient.baseURL c +:+ "/user/starred?per_page=100") tr
  /\ repos = Slice (concat (map page_of tr))
  /\ (length tr <= fuel)%nat.
Proof.
  unfold githubClient.GetStarredRepos. intros Hrun.
  pose proof Hrun as Hrun'.
  apply pages_success in Hrun as (Hfollows & Hnil & Helems).
  split; [done|]. split; [destruct repos; [done | cbn in Helems; now subst]|].
  clear - Hrun'. revert Hrun'.
  generalize (githubClient.baseURL c +:+ "/user/starred?per_page=100").
  generalize (@NilSlice github.StarredRepo). revert w tr.
  induction fuel as [|fuel IH]; intros w tr allRepos url Hrun.
  - destruct (decide (url = "")) as [->|Hurl].
    + rewrite pages_done in Hrun. now injection Hrun as <- <- <-.
    + apply String.eqb_neq in Hurl. cbn in Hrun. now rewrite Hurl in Hrun.
  - destruct (decide (url = "")) as [->|Hurl].
    + rewrite pages_done in Hrun. injection Hrun as <- <- <-. cbn. lia.
    + apply pages_step in Hrun
        as [(x & _ & [=] & _)
           |(_ & r & w1 & Hdo
             & [(format & args & [=] & _)
               |(resp & page & all1 & tr1 & -> & _ & _ & _ & Hrest & ->)])];
        [|done].
      apply IH in Hrest. cbn. lia.
Qed.

(** X20.  Every repository GetStarredRepos returns has a Topics slice that
    is not nil, whatever the server sent for it. *)
Theorem GetStarredRepos_topics_not_nil fuel c ctx w repos err w' tr :
  GetStarredRepos fuel c ctx w = (Some (repos, err), w', tr) ->
  Forall has_topics (elems repos).
Proof.
  unfold githubClient.GetStarredRepos. intros Hrun. destruct err as [err|].
  - apply pages_failure in Hrun as (-> & _). constructor.
  - apply pages_success in Hrun as (_ & _ & ->). cbn [elems app].
    apply pages_have_topics.
Qed.

(** X21.  When GetStarredRepos returns an error, the slice it returns is
    nil, whatever pages were read before, and the error is one built by
    fmt.Errorf.  Every request but the last was answered with status 200
    and named a next page: the first failure ends the call. *)
Theorem GetStarredRepos_error fuel c ctx w repos err w' tr :
  GetStarredRepos fuel c ctx w = (Some (repos, Some err), w', tr) ->
  repos = NilSlice
  /\ (exists format args, err = pinboard.Errorf format args)
  /\ Forall names_next (removelast tr).
Proof.
  unfold githubClient.GetStarredRepos. intros Hrun.
  apply pages_failure in Hrun as (Hnil & Herr & _ & Hnext). done.
Qed.


(** X23.  The loop goes on only as long as the server names a next page:
    a call cut short by the bound has made that many requests, and every
    one of them was answered with status 200 and a Link header that names
    a next page. *)
Theorem GetStarredRepos_unbounded fuel c ctx w w' tr :
  GetStarredRepos fuel c ctx w = (None, w', tr) ->
  length tr = fuel /\ Forall names_next tr.
Proof. unfold githubClient.GetStarredRepos. apply pages_out_of_fuel. Qed.
End GetStarredReposFacts.

(** * The clients on the servers of their tests *)

Section OnTheServers.

(** The Link header of a first page of three. *)
Lemma extractNextURL_format_witness :
  @githubClient.extractNextURL github_test.ascii_only
    (format_links
       [(github_test.first_url, "rel=first");
        (github_test.second_url, githubClient.rel_next);
        (github_test.second_url +:+ "&page=3", "rel=last")])
  = github_test.second_url.
Proof.
  apply (@extractNextURL_format github_test.ascii_only
           [(github_test.first_url, "rel=first");
            (github_test.second_url, githubClient.rel_next);
            (github_test.second_url +:+ "&page=3", "rel=last")]).
  repeat constructor; cbn [fst snd];
    try (vm_compute; reflexivity);
    try (intros c Hc; vm_compute in Hc; injection Hc as <-; reflexivity);
    try (eexists; split; [vm_compute; reflexivity|]; split; reflexivity).
Defined.

(** TestGetStarredRepos_Pagination: two requests, and the repositories of
    the two pages in order. *)
Example TestGetStarredRepos_Pagination :
  exists repos tr,
    github_test.GetStarredRepos 2 github_test.client tt 0
    = (Some (Slice repos, None), 2, tr)
    /\ length tr = 2%nat
    /\ map github.FullName repos = ["owner/page1"; "owner/page2"].
Proof. do 2 eexists. split; [vm_compute; reflexivity|]. split; reflexivity. Qed.

(** TestGetStarredRepos_HTTPError. *)
Example TestGetStarredRepos_HTTPError :
  exists tr,
    github_test.GetStarredRepos_401 2 github_test.client tt 0
    = (Some (NilSlice,
             Some (pinboard.Errorf "GitHub API request failed with status %d"
                     [pinboard.ArgInt 401])), 0, tr).
Proof. eexists. vm_compute. reflexivity. Qed.

Lemma GetStarredRepos_pagination_witness :
  let x := github_test.GetStarredRepos 5 github_test.client tt 0 in
  exists repos,
    x.1.1 = Some (repos, None)
    /\ @follows github_test.ascii_only github_test.client github_test.first_url x.2
    /\ repos
       = Slice (concat (map (page_of github_test.json_Decode
                               github_test.time_Parse_RFC3339) x.2))
    /\ (length x.2 <= 5)%nat.
Proof.
  intros x.
  assert (Hx : exists repos, x = (Some (repos, None), x.1.2, x.2)).
  { eexists. vm_compute. reflexivity. }
  destruct Hx as [repos Hx]. exists repos. split; [now rewrite Hx|].
  exact (@GetStarredRepos_pagination github_test.ascii_only unit Z
           github_test.NewRequest_error github_test.httpClient_Do
           github_test.json_Decode github_test.time_Parse_RFC3339
           5%nat github_test.client tt 0 repos x.1.2 x.2 Hx).
Defined.

Lemma GetStarredRepos_topics_not_nil_witness :
  let x := github_test.GetStarredRepos 5 github_test.client tt 0 in
  exists repos, x.1.1 = Some (repos, None) /\ Forall has_topics (elems repos).
Proof.
  intros x.
  assert (Hx : exists repos, x = (Some (repos, None), x.1.2, x.2)).
  { eexists. vm_compute. reflexivity. }
  destruct Hx as [repos Hx]. exists repos. split; [now rewrite Hx|].
  exact (@GetStarredRepos_topics_not_nil github_test.ascii_only unit Z
           github_test.NewRequest_error github_test.httpClient_Do
           github_test.json_Decode github_test.time_Parse_RFC3339
           5%nat github_test.client tt 0 repos None x.1.2 x.2 Hx).
Defined.

Lemma GetStarredRepos_error_witness :
  let x := github_test.GetStarredRepos_401 5 github_test.client tt 0 in
  exists repos err,
    x.1.1 = Some (repos, Some err)
    /\ repos = NilSlice
    /\ (exists format args, err = pinboard.Errorf format args)
    /\ Forall (@names_next github_test.ascii_only) (removelast x.2).
Proof.
  intros x.
  assert (Hx : exists repos err, x = (Some (repos, Some err), x.1.2, x.2)).
  { do 2 eexists. vm_compute. reflexivity. }
  destruct Hx as (repos & err & Hx). exists repos, err. split; [now rewrite Hx|].
  exact (@GetStarredRepos_error github_test.ascii_only unit Z
           github_test.NewRequest_error github_test.httpClient_Do_401
           github_test.json_Decode github_test.time_Parse_RFC3339
           5%nat github_test.client tt 0 repos err x.1.2 x.2 Hx).
Defined.


(** With a bound of one page the client stops after the first page of the
    paginating server, which names a second. *)
Lemma GetStarredRepos_unbounded_witness :
  let x := github_test.GetStarredRepos 1 github_test.client tt 0 in
  x.1.1 = None /\ length x.2 = 1%nat /\ Forall (@names_next github_test.ascii_only) x.2.
Proof.
  intros x. split; [vm_compute; reflexivity|].
  apply (@GetStarredRepos_unbounded github_test.ascii_only unit Z
           github_test.NewRequest_error github_test.httpClient_Do
           github_test.json_Decode github_test.time_Parse_RFC3339
           1%nat github_test.client tt 0 x.1.2 x.2).
  vm_compute. reflexivity.
Defined.

(** TestGetBookmarkURLsByTag. *)
Lemma GetBookmarkURLsByTag_hrefs_witness :
  let x := pinboardList_test.GetBookmarkURLsByTag pinboardList_test.client
             pinboard_test.Background "golang" 0 in
  x.1.1.2 = None
  /\ exists req resp body hrefs,
      x.2 = [pinboard.HTTPDo req]
      /\ pinboardList_test.httpClient_Do req 0 = (inr resp, x.1.2)
      /\ pinboard.StatusCode resp = pinboard.StatusOK
      /\ pinboard.Body resp = inr body
      /\ pinboardList_test.json_hrefs body = inr hrefs
      /\ (forall u, map_index x.1.1.1 u = bool_decide (u ∈ hrefs))
      /\ (forall u, x.1.1.1 !! u = if decide (u ∈ hrefs) then Some true else None)
      /\ url_set x.1.1.1 = list_to_set hrefs
      /\ (forall r, present x.1.1.1 r <-> github.HTMLURL r ∈ hrefs).
Proof.
  intros x. split; [vm_compute; reflexivity|].
  apply (GetBookmarkURLsByTag_hrefs pinboard_test.Values_Encode
           pinboard_test.NewRequestWithContext pinboardList_test.httpClient_Do
           pinboardList_test.ReadAll_partial pinboardList_test.json_hrefs
           pinboardList_test.client pinboard_test.Background "golang" 0
           x.1.1.1 x.1.2 x.2).
  vm_compute. reflexivity.
Defined.

(** TestGetBookmarkURLsByTagHTTPError. *)
Example TestGetBookmarkURLsByTagHTTPError :
  exists tr,
    pinboardList_test.GetBookmarkURLsByTag_500 pinboardList_test.client
      pinboard_test.Background "golang" 0
    = (∅, Some (pinboard.Errorf "API returned status %d: %s"
                  [pinboard.ArgInt 500;
                   pinboard.ArgString "{error: internal server error}"]), 0, tr).
Proof. eexists. vm_compute. reflexivity. Qed.

(** The second call of TestRateLimiting. *)
Lemma AddBookmark_nil_means_done_witness :
  let t1 := 1001 * pinboard_test.Millisecond in
  let x := pinboard_test.AddBookmark
             (pinboard_test.client (1000 * pinboard_test.Millisecond))
             pinboard_test.Background pinboard_test.bookmark t1 in
  x.1.1.1 = None
  /\ exists req w0 resp body,
      requests x.2 = [req]
      /\ pinboard_test.httpClient_Do req w0 = (inr resp, x.1.2)
      /\ pinboard.StatusCode resp = pinboard.StatusOK
      /\ pinboard.Body resp = inr body
      /\ pinboard_test.json_result_code body = inr "done"
      /\ pinboard.lastCall x.1.1.2 = pinboard_test.time_Now w0.
Proof.
  intros t1 x. split; [vm_compute; reflexivity|].
  apply (AddBookmark_nil_means_done
           pinboard_test.time_Now pinboard_test.resume_at pinboard_test.select_tie
           pinboard_test.Values_Encode pinboard_test.NewRequestWithContext
           pinboard_test.httpClient_Do pinboard_test.json_result_code
           (pinboard_test.client (1000 * pinboard_test.Millisecond))
           pinboard_test.Background pinboard_test.bookmark t1
           x.1.1.2 x.1.2 x.2).
  vm_compute. reflexivity.
Defined.

(** The first call of a new client, and a call made after the delay. *)
Lemma AddBookmark_no_wait_witness :
  let t1 := 1001 * pinboard_test.Millisecond in
  let x := pinboard_test.AddBookmark (pinboard_test.client 0)
             pinboard_test.Background pinboard_test.bookmark t1 in
  let t2 := 7000 * pinboard_test.Millisecond in
  let y := pinboard_test.AddBookmark x.1.1.2
             pinboard_test.Background pinboard_test.bookmark t2 in
  (resumes x.2 = [] /\ pinboard.lastCall x.1.1.2 = t1)
  /\ (resumes y.2 = [] /\ pinboard.lastCall y.1.1.2 = t2).
Proof.
  intros t1 x t2 y. split.
  - apply (AddBookmark_no_wait
             pinboard_test.time_Now pinboard_test.resume_at pinboard_test.select_tie
             pinboard_test.Values_Encode pinboard_test.NewRequestWithContext
             pinboard_test.httpClient_Do pinboard_test.json_result_code
             (pinboard_test.client 0)
             pinboard_test.Background pinboard_test.bookmark t1
             x.1.1.1 x.1.1.2 x.1.2 x.2).
    + vm_compute. reflexivity.
    + left. reflexivity.
  - apply (AddBookmark_no_wait
             pinboard_test.time_Now pinboard_test.resume_at pinboard_test.select_tie
             pinboard_test.Values_Encode pinboard_test.NewRequestWithContext
             pinboard_test.httpClient_Do pinboard_test.json_result_code
             x.1.1.2
             pinboard_test.Background pinboard_test.bookmark t2
             y.1.1.1 y.1.1.2 y.1.2 y.2).
    + vm_compute. reflexivity.
    + right. vm_compute. discriminate.
Defined.

(** The second call of TestRateLimiting is stamped five seconds after the
    first. *)
Lemma AddBookmark_spacing_witness :
  let t1 := 1001 * pinboard_test.Millisecond in
  let c := pinboard_test.client (1000 * pinboard_test.Millisecond) in
  let x := pinboard_test.AddBookmark c pinboard_test.Background
             pinboard_test.bookmark t1 in
  6000 * pinboard_test.Millisecond <= pinboard.lastCall x.1.1.2.
Proof.
  intros t1 c x.
  destruct (AddBookmark_spacing
              pinboard_test.time_Now pinboard_test.resume_at pinboard_test.select_tie
              pinboard_test.Values_Encode pinboard_test.NewRequestWithContext
              pinboard_test.httpClient_Do pinboard_test.json_result_code
              c pinboard_test.Background pinboard_test.bookmark t1
              x.1.1.1 x.1.1.2 x.1.2 x.2)
    as [(_ & _ & Herr)|(Hstamp & _)].
  - intros t w0. unfold pinboard_test.time_Now, pinboard_test.resume_at. lia.
  - vm_compute. reflexivity.
  - vm_compute. discriminate.
  - vm_compute in Herr. discriminate.
  - exact Hstamp.
Defined.

(** What is sent for the new repository of the tests. *)
Lemma exported_query_witness :
  let q := pinboard.add_query (pinboard_test.client 0)
             (@export.RepoToBookmark export_test.uncased export_test.repo_new) in
  q !! "url" = Some "https://github.com/user/new-repo"
  /\ exists tags,
       q !! "tags" = Some tags /\ Split tags " " = ["github-repo"; "testing"].
Proof.
  pose proof (@exported_query export_test.uncased uncased_no_space
                (pinboard_test.client 0) export_test.repo_new) as Hq.
  cbv zeta in *. destruct Hq as (Hurl & _ & _ & _ & _ & _ & _ & _ & tags & Htags & Hsplit & _).
  split; [exact Hurl|]. exists tags. split; [exact Htags|]. exact Hsplit.
Defined.
End OnTheServers.

(** * The progress callback is an observer *)

Section ObserverFacts.
Context `{UnicodeTables}.
Context {Ctx W Err : Type}.
Variable R : W -> W -> Prop.
Variable e : export.Exporter Ctx W Err.
Variable ctx : Ctx.
Variable f : Progress.t -> W -> W.
Hypothesis Hcallback : export.OnProgress e = Some f.
Hypothesis Hf : forall p w v, R w v -> R (f p w) v.
Hypothesis Hblind : blind R e ctx.

Lemma Run_range_observer existing total (repos : list github.StarredRepo) :
  forall i added skipped w v,
    R w v ->
    let x := export.Run_range e ctx existing total i added skipped repos w in
    let y := export.Run_range (silent e) ctx existing total i added skipped repos v in
    x.1.1 = y.1.1 /\ R x.1.2 y.1.2 /\ client_calls x.2 = y.2.
Proof.
  destruct Hblind as (_ & _ & Hadd).
  induction repos as [|repo rest IH]; intros i added skipped w v Hwv; cbv zeta.
  - cbn. done.
  - cbn [export.Run_range]. rewrite Hcallback. cbn [silent export.OnProgress].
    set (p := {| Progress.Current := int_add i 1; Progress.Total := total;
                 Progress.RepoName := github.FullName repo;
                 Progress.Skipped := map_index existing
                                       (pinboard.URL (export.RepoToBookmark repo)) |}).
    unfold mbind, M_bind, export.call_OnProgress, mret, M_ret.
    pose proof (Hf p w v Hwv) as Hfw.
    destruct (map_index existing (pinboard.URL (export.RepoToBookmark repo))).
    + specialize (IH (i + 1) added (int_add skipped 1) (f p w) v Hfw).
      cbv zeta in IH. fold (@silent Ctx W Err e). cbv beta iota zeta.
      destruct (export.Run_range e _ _ _ _ _ _ rest (f p w)) as [[r1 w1] t1].
      destruct (export.Run_range (silent e) _ _ _ _ _ _ rest v) as [[r2 w2] t2].
      cbn in *. done.
    + cbn [silent export.DryRun export.pb]. fold (@silent Ctx W Err e).
      destruct (export.DryRun e); cbn [negb].
      * cbv beta iota zeta.
        specialize (IH (i + 1) (int_add added 1) skipped (f p w) v Hfw).
        cbv zeta in IH.
        destruct (export.Run_range e _ _ _ _ _ _ rest (f p w)) as [[r1 w1] t1].
        destruct (export.Run_range (silent e) _ _ _ _ _ _ rest v) as [[r2 w2] t2].
        cbn in *. done.
      * unfold export.call_AddBookmark.
        specialize (Hadd (export.RepoToBookmark repo) (f p w) v Hfw).
        cbv zeta in Hadd.
        destruct (export.AddBookmark (export.pb e) ctx _ (f p w)) as [err1 w1].
        destruct (export.AddBookmark (export.pb e) ctx _ v) as [err2 v1].
        cbn [fst snd] in Hadd. destruct Hadd as [<- Hw1].
        cbv beta iota zeta.
        destruct err1 as [x|].
        -- cbn. done.
        -- specialize (IH (i + 1) (int_add added 1) skipped w1 v1 Hw1).
           cbv zeta in IH.
           destruct (export.Run_range e _ _ _ _ _ _ rest w1) as [[r1 w2] t1].
           destruct (export.Run_range (silent e) _ _ _ _ _ _ rest v1) as [[r2 v2] t2].
           cbn in *. destruct IH as (-> & ? & ->). done.
Qed.

(** X24.  The progress callback is an observer.  When the clients cannot
    tell apart the worlds the callback tells apart, a run with the
    callback and a run without it return the same result and the same
    error, make the same calls to the clients in the same order, and
    leave worlds the clients cannot tell apart. *)
Theorem Run_callback_observer w v :
  R w v ->
  let x := export.Run e ctx w in
  let y := export.Run (silent e) ctx v in
  x.1.1 = y.1.1 /\ R x.1.2 y.1.2 /\ client_calls x.2 = y.2.
Proof.
  intros Hwv. cbv zeta. unfold export.Run.
  destruct Hblind as (Hfetch & Hlist & _).
  unfold mbind, M_bind, export.call_GetStarredRepos, export.call_GetBookmarkURLsByTag.
  cbn [silent export.gh export.pb].
  specialize (Hfetch w v Hwv). cbv zeta in Hfetch.
  destruct (export.GetStarredRepos (export.gh e) ctx w) as [[repos gerr] w1].
  destruct (export.GetStarredRepos (export.gh e) ctx v) as [[repos' gerr'] v1].
  cbn [fst snd] in Hfetch. destruct Hfetch as [[= <- <-] Hw1].
  destruct gerr as [x|]; [cbn; done|].
  specialize (Hlist "github-repo" w1 v1 Hw1). cbv zeta in Hlist.
  destruct (export.GetBookmarkURLsByTag (export.pb e) ctx _ w1) as [[existing lerr] w2].
  destruct (export.GetBookmarkURLsByTag (export.pb e) ctx _ v1) as [[existing' lerr'] v2].
  cbn [fst snd] in Hlist. destruct Hlist as [[= <- <-] Hw2].
  destruct lerr as [x|]; [cbn; done|].
  fold (@silent Ctx W Err e).
  pose proof (Run_range_observer existing (len repos) (elems repos) 0 0 0 w2 v2 Hw2)
    as Hrange.
  cbv zeta in Hrange.
  destruct (export.Run_range e _ _ _ _ _ _ (elems repos) w2) as [[r1 w3] t1].
  destruct (export.Run_range (silent e) _ _ _ _ _ _ (elems repos) v2) as [[r2 v3] t2].
  cbn in *. destruct Hrange as (-> & ? & ->). done.
Qed.
End ObserverFacts.

Section ObserverOnTheMocks.
Import export_test.
#[local] Existing Instance uncased.

(** TestRunProgress against the same run without the callback: the worlds
    differ in the slice the callback appends to, which the mocks never
    read. *)
Lemma Run_callback_observer_witness :
  let e := exporter false (Some record_progress) in
  let w := setup (Slice [repo_go; repo_new; repo_also]) None (Some existingURLs)
             None None in
  let x := export.Run e tt w in
  let y := export.Run (silent e) tt w in
  x.1.1 = y.1.1
  /\ pbClient x.1.2 = pbClient y.1.2
  /\ client_calls x.2 = y.2
  /\ x.2 <> y.2.
Proof.
  intros e w x y.
  destruct (Run_callback_observer
              (fun w v : world => ghClient w = ghClient v /\ pbClient w = pbClient v)
              e tt record_progress eq_refl) with (w := w) (v := w)
    as (Hres & (_ & Hpb) & Hcalls).
  - intros p w0 v0 [Hgh Hpb]. split; assumption.
  - unfold blind. split; [|split].
    + intros w0 v0 [Hgh Hpb]. cbn. now rewrite Hgh.
    + intros tag w0 v0 [Hgh Hpb]. cbn. unfold GetBookmarkURLsByTag. rewrite Hpb.
      destruct (mockPinboardClient.getErr (pbClient v0)); [done|].
      now destruct (mockPinboardClient.existingURLs (pbClient v0)).
    + intros b w0 v0 [Hgh Hpb]. cbn. unfold AddBookmark. rewrite Hpb.
      destruct (mockPinboardClient.err (pbClient v0)); [done|]. cbn.
      now rewrite Hgh.
  - split; reflexivity.
  - split; [exact Hres|]. split; [exact Hpb|]. split; [exact Hcalls|].
    vm_compute. discriminate.
Defined.
End ObserverOnTheMocks.
